(** * migrator-lite: the [Migrator] class of [src/pdsmoover.js]

    A shallow embedding of the three asynchronous methods of [Migrator]
    ([migrate], [signPlcOperation], [deactivateOldAccount]) and the proofs
    of the properties stated about them.

    The methods await remote services one call at a time, so a method is a
    computation in a monad that threads the instance ([this]), the log of
    remote calls made so far with their answers, and the status lines
    handed to the caller's handler.  The remote world is an oracle that
    answers a call from the history of the calls before it.  A rejected
    promise is a [Throw]; it leaves the state as it was when it was raised,
    as an exception leaves the fields of [this]. *)

From Stdlib Require Import List String Ascii ZArith NArith Bool Lia.
Import ListNotations.

Set Implicit Arguments.

(** ** JavaScript strings and values *)

(** A JavaScript string is a sequence of UTF-16 code units. *)
Definition jsstring := list N.

(** The code units of an ASCII literal. *)
Fixpoint u (s : string) : jsstring :=
  match s with
  | EmptyString => []
  | String c rest => N_of_ascii c :: u rest
  end.

(** [a === b] on strings. *)
Fixpoint str_eqb (a b : jsstring) : bool :=
  match a, b with
  | [], [] => true
  | x :: a', y :: b' => N.eqb x y && str_eqb a' b'
  | _, _ => false
  end.

(** [s.startsWith(p)]. *)
Fixpoint startsWith (s p : jsstring) : bool :=
  match p, s with
  | [], _ => true
  | y :: p', x :: s' => N.eqb x y && startsWith s' p'
  | _ :: _, [] => false
  end.

(** [s.endsWith(p)]. *)
Definition endsWith (s p : jsstring) : bool := startsWith (rev s) (rev p).

(** [s.replace(c, '')] for a one-character pattern [c]: only the first
    occurrence goes. *)
Fixpoint replace_first (c : N) (s : jsstring) : jsstring :=
  match s with
  | [] => []
  | x :: rest => if N.eqb x c then rest else x :: replace_first c rest
  end.

(** WhiteSpace and LineTerminator of ECMAScript, the code units that
    [String.prototype.trim] removes. *)
Definition is_js_space (c : N) : bool :=
  ((9 <=? c) && (c <=? 13) || (c =? 32) || (c =? 160) || (c =? 5760)
   || (8192 <=? c) && (c <=? 8202) || (c =? 8232) || (c =? 8233)
   || (c =? 8239) || (c =? 8287) || (c =? 12288) || (c =? 65279))%N.

Fixpoint trim_start (s : jsstring) : jsstring :=
  match s with
  | [] => []
  | x :: rest => if is_js_space x then trim_start rest else s
  end.

(** [s.trim()]. *)
Definition trim (s : jsstring) : jsstring :=
  rev (trim_start (rev (trim_start s))).

(** The class of the second [replace]: U+202A, U+202C, U+200E, U+200F and
    U+2066 to U+2069. *)
Definition is_bidi_mark (c : N) : bool :=
  ((c =? 8234) || (c =? 8236) || (c =? 8206) || (c =? 8207)
   || (8294 <=? c) && (c <=? 8297))%N.

(** [oldHandle.replace('@', '').trim().replace(/[...]/g, '')]. *)
Definition normalizeHandle (oldHandle : jsstring) : jsstring :=
  filter (fun c => negb (is_bidi_mark c)) (trim (replace_first 64%N oldHandle)).

(** [toLowerCase] restricted to ASCII letters; the deactivation workflow is
    stated for any [toLowerCase], this one serves the examples. *)
Definition ascii_toLowerCase (s : jsstring) : jsstring :=
  map (fun c => if ((65 <=? c) && (c <=? 90))%N then (c + 32)%N else c) s.

(** The values a field read from a response may hold, as far as the code
    tests them. *)
Inductive JsVal :=
| JUndefined
| JNull
| JBool (b : bool)
| JNum (n : Z)
| JStr (s : jsstring)
| JArr (items : list jsstring)
| JObj.

(** ToBoolean: what [if (v)] and [!v] look at.  Every array is truthy, the
    empty one too. *)
Definition truthy (v : JsVal) : bool :=
  match v with
  | JUndefined | JNull => false
  | JBool b => b
  | JNum n => negb (n =? 0)%Z
  | JStr s => negb (str_eqb s [])
  | JArr _ | JObj => true
  end.

(** [v ?? d]. *)
Definition nullish_or (v d : JsVal) : JsVal :=
  match v with
  | JUndefined | JNull => d
  | _ => v
  end.

(** A cursor is a string or [undefined]; [while (cursor)] goes on for a
    non-empty string. *)
Definition cursor_truthy (c : option jsstring) : bool :=
  match c with
  | Some s => negb (str_eqb s [])
  | None => false
  end.

(** ** Data exchanged with the services *)

(** Which [new AtpAgent(...)] expression built a client. *)
Inductive Role := PublicAgent | OldAgent | NewAgent.

(** An [AtpAgent]: the client of one service address.  The constructor is
    taken as total (a malformed address is outside this model). *)
Record Agent := mkAgent { role : Role; service : jsstring }.

(** One entry of [didDoc.service]. *)
Record Service := mkService { type : jsstring; serviceEndpoint : jsstring }.

(** A DID document; [service] is [None] when the field is missing. *)
Record DidDoc := mkDidDoc { doc_service : option (list Service) }.

(** The body of [createAccount]; [inviteCode] is set only when given. *)
Record CreateAccountRequest := mkCreateAccountRequest {
  car_did : jsstring;
  car_handle : jsstring;
  car_email : jsstring;
  car_password : jsstring;
  car_inviteCode : option jsstring
}.

(** An entry of [listMissingBlobs]. *)
Record RecordBlob := mkRecordBlob { rb_cid : jsstring; rb_recordUri : jsstring }.

(** [getRecommendedDidCredentials().data]: the field the code reads and the
    rest of the object, spread unchanged.  A [token] among the fields is kept
    apart, in the answer [RCredsToken]: spread into the request of
    [signPlcOperation] it takes the place of the caller's. *)
Record DidCredentials := mkDidCredentials {
  rotationKeys : JsVal;
  otherCredentials : jsstring
}.

(** The remote operations the class awaits. *)
Inductive Call :=
| ResolveHandle (a : Agent) (handle : jsstring)
| HandleResolve (handle : jsstring)
| DocResolve (did : jsstring)
| Login (a : Agent) (identifier password : jsstring) (authFactorToken : option jsstring)
| DescribeServer (a : Agent)
| GetServiceAuth (a : Agent) (aud lxm : jsstring)
| CreateAccount (a : Agent) (req : CreateAccountRequest) (bearer : jsstring)
| GetRepo (a : Agent) (did : jsstring)
| ImportRepo (a : Agent) (car : jsstring)
| CheckAccountStatus (a : Agent)
| ListBlobs (a : Agent) (did : jsstring) (cursor : option jsstring) (limit : Z)
| GetBlob (a : Agent) (did cid : jsstring)
| UploadBlob (a : Agent) (data encoding : jsstring)
| ListMissingBlobs (a : Agent) (cursor : option jsstring) (limit : Z)
| GetPreferences (a : Agent)
| PutPreferences (a : Agent) (prefs : jsstring)
| RequestPlcOperationSignature (a : Agent)
| GetRecommendedDidCredentials (a : Agent)
| SignPlcOperation (a : Agent) (token : jsstring) (credentials : DidCredentials)
| SubmitPlcOperation (a : Agent) (operation : jsstring)
| ActivateAccount (a : Agent)
| DeactivateAccount (a : Agent)
| FetchPlcLog (url : jsstring).

(** What a call resolves to, or [RThrow] when its promise rejects.  An entry
    of the PLC log is [None] when reading [log.services.atproto_pds.endpoint]
    and lower-casing it throws. *)
Inductive Resp :=
| RThrow (why : string)
| RVoid
| RDid (did : jsstring)
| RDidDoc (doc : DidDoc)
| RDescribe (did : jsstring)
| RToken (token : jsstring)
| RCreated (did : jsstring)
| RRepo (car : jsstring)
| RStatus (activated : bool) (expectedBlobs importedBlobs : Z)
| RCids (cids : list jsstring) (cursor : option jsstring)
| RBlob (data contentType : jsstring)
| RMissing (blobs : list RecordBlob) (cursor : option jsstring)
| RPrefs (prefs : jsstring)
| RCreds (data : DidCredentials)
| RCredsToken (data : DidCredentials) (token : jsstring)
| RSigned (operation : jsstring)
| RLog (entries : list (option jsstring)).

(** Does the answer have the shape the call's result is read with? *)
Definition shape_ok (c : Call) (r : Resp) : bool :=
  match c, r with
  | ResolveHandle _ _, RDid _ | HandleResolve _, RDid _ => true
  | DocResolve _, RDidDoc _ => true
  | Login _ _ _ _, RVoid => true
  | DescribeServer _, RDescribe _ => true
  | GetServiceAuth _ _ _, RToken _ => true
  | CreateAccount _ _ _, RCreated _ => true
  | GetRepo _ _, RRepo _ => true
  | ImportRepo _ _, RVoid => true
  | CheckAccountStatus _, RStatus _ _ _ => true
  | ListBlobs _ _ _ _, RCids _ _ => true
  | GetBlob _ _ _, RBlob _ _ => true
  | UploadBlob _ _ _, RVoid => true
  | ListMissingBlobs _ _ _, RMissing _ _ => true
  | GetPreferences _, RPrefs _ => true
  | PutPreferences _ _, RVoid => true
  | RequestPlcOperationSignature _, RVoid => true
  | GetRecommendedDidCredentials _, RCreds _ => true
  | GetRecommendedDidCredentials _, RCredsToken _ _ => true
  | SignPlcOperation _ _ _, RSigned _ => true
  | SubmitPlcOperation _ _, RVoid => true
  | ActivateAccount _, RVoid => true
  | DeactivateAccount _, RVoid => true
  | FetchPlcLog _, RLog _ => true
  | _, _ => false
  end.

(** A rejection stays what it is; an answer of another call's shape counts
    as one. *)
Definition coerce (c : Call) (r : Resp) : Resp :=
  match r with
  | RThrow _ => r
  | _ => if shape_ok c r then r else RThrow "malformed response"
  end.

(** A call that was made, with its answer. *)
Record Event := Ev { ev_call : Call; ev_resp : Resp }.

Definition failed (e : Event) : bool :=
  match ev_resp e with RThrow _ => true | _ => false end.

(** The remote world: the answer to a call, given the calls before it. *)
Definition Env := list Event -> Call -> Resp.

(** The status lines of [safeStatusUpdate], one constructor per message;
    [SBlobProgress n total] is [`Migrating blobs: ${n}/${total}`]. *)
Inductive Status :=
| SResolvingOldPds | SResolvingDidDocument | SLoggingInOld | SCheckingNewPds
| SCreatingAccount | SLoggingInNew | SMigratingRepo | SMigratingBlobs
| SBlobProgress (n total : Z) | SSomeMissingBlobs | SCheckEmail
| SResolvingDid | SLoggingInOldAt (pds : jsstring) | SCheckingNotCurrent
| SOldNotActivated | SDeactivating | SDeactivated.

(** ** The instance *)

(** The fields the constructor sets. *)
Record Migrator := mkMigrator {
  oldAgent : option Agent;
  newAgent : option Agent;
  missingBlobs : list jsstring;
  createNewAccount : bool;
  migrateRepo : bool;
  migrateBlobs : bool;
  migrateMissingBlobs : bool;
  migratePrefs : bool;
  migratePlcRecord : bool
}.

(** [new Migrator()]. *)
Definition newMigrator : Migrator :=
  mkMigrator None None [] true true true true true true.

(** ** The monad *)

Inductive Exn :=
| TypeError
| JsError (msg : string)
| Rejected (why : string).

(** A computation returns, throws, or is cut off by the loop bound. *)
Inductive Outcome (A : Type) :=
| Ret (a : A)
| Throw (e : Exn)
| OutOfFuel.
Arguments Throw {A} e.
Arguments OutOfFuel {A}.

Record St := mkSt {
  this : Migrator;
  calls : list Event;
  said : list Status
}.

Definition M (A : Type) := Env -> St -> Outcome A * St.

Definition ret {A} (a : A) : M A := fun _ s => (Ret a, s).

Definition throw {A} (e : Exn) : M A := fun _ s => (Throw e, s).

Definition diverge {A} : M A := fun _ s => (OutOfFuel, s).

Definition bind {A B} (m : M A) (k : A -> M B) : M B := fun env s =>
  match m env s with
  | (Ret a, s1) => k a env s1
  | (Throw e, s1) => (Throw e, s1)
  | (OutOfFuel, s1) => (OutOfFuel, s1)
  end.

(** [try { body } catch (e) { handler(e) }]. *)
Definition try_catch {A} (body : M A) (handler : Exn -> M A) : M A := fun env s =>
  match body env s with
  | (Throw e, s1) => handler e env s1
  | r => r
  end.

Declare Scope m_scope.
Delimit Scope m_scope with m.
Notation "x <- m ;; k" := (bind m (fun x => k))
  (at level 61, m at next level, right associativity) : m_scope.
Notation "m ;; k" := (bind m (fun _ => k))
  (at level 61, right associativity) : m_scope.
Open Scope m_scope.

(** Read [this]. *)
Definition get_this : M Migrator := fun _ s => (Ret (this s), s).

(** Assign fields of [this]. *)
Definition set_this (f : Migrator -> Migrator) : M unit := fun _ s =>
  (Ret tt, mkSt (f (this s)) (calls s) (said s)).

(** Await a remote call: the world answers from the history, and the call
    is logged with its answer. *)
Definition call (c : Call) : M Resp := fun env s =>
  let r := coerce c (env (calls s) c) in
  (match r with RThrow why => Throw (Rejected why) | _ => Ret r end,
   mkSt (this s) (calls s ++ [Ev c r]) (said s)).

(** [safeStatusUpdate(statusUpdateHandler, status)]; the handler is taken as
    a sink that does not throw, [false] stands for [null]. *)
Definition safeStatusUpdate (statusUpdateHandler : bool) (status : Status) : M unit :=
  fun _ s =>
    if statusUpdateHandler
    then (Ret tt, mkSt (this s) (calls s) (said s ++ [status]))
    else (Ret tt, s).

(** Reading a property of [a], a [TypeError] when [a] is [null]. *)
Definition deref {A} (a : option A) : M A :=
  match a with
  | Some x => ret x
  | None => throw TypeError
  end.

(** ** Reading the answers *)

(** Reading the fields of an answer; a [TypeError] when they are not there. *)
Definition expect {A} (pick : Resp -> option A) (r : Resp) : M A :=
  match pick r with
  | Some a => ret a
  | None => throw TypeError
  end.

Definition as_void : Resp -> M unit :=
  expect (fun r => match r with RVoid => Some tt | _ => None end).

Definition as_did : Resp -> M jsstring :=
  expect (fun r => match r with RDid did => Some did | _ => None end).

Definition as_doc : Resp -> M DidDoc :=
  expect (fun r => match r with RDidDoc doc => Some doc | _ => None end).

Definition as_describe : Resp -> M jsstring :=
  expect (fun r => match r with RDescribe did => Some did | _ => None end).

Definition as_token : Resp -> M jsstring :=
  expect (fun r => match r with RToken t => Some t | _ => None end).

Definition as_created : Resp -> M jsstring :=
  expect (fun r => match r with RCreated did => Some did | _ => None end).

Definition as_repo : Resp -> M jsstring :=
  expect (fun r => match r with RRepo car => Some car | _ => None end).

(** [data.activated], [data.expectedBlobs], [data.importedBlobs]. *)
Definition as_status : Resp -> M (bool * Z * Z) :=
  expect (fun r => match r with RStatus a e i => Some (a, e, i) | _ => None end).

(** [data.cids] and [data.cursor]. *)
Definition as_cids : Resp -> M (list jsstring * option jsstring) :=
  expect (fun r => match r with RCids cids c => Some (cids, c) | _ => None end).

(** [blobRes.data] and [blobRes.headers['content-type']]. *)
Definition as_blob : Resp -> M (jsstring * jsstring) :=
  expect (fun r => match r with RBlob data ct => Some (data, ct) | _ => None end).

(** [data.blobs] and [data.cursor]. *)
Definition as_missing : Resp -> M (list RecordBlob * option jsstring) :=
  expect (fun r => match r with RMissing blobs c => Some (blobs, c) | _ => None end).

Definition as_prefs : Resp -> M jsstring :=
  expect (fun r => match r with RPrefs p => Some p | _ => None end).

(** [getDidCredentials.data], with its own [token] when it has one. *)
Definition as_creds : Resp -> M (DidCredentials * option jsstring) :=
  expect (fun r => match r with
                   | RCreds d => Some (d, None)
                   | RCredsToken d t => Some (d, Some t)
                   | _ => None
                   end).

(** [plcOp.data.operation]. *)
Definition as_signed : Resp -> M jsstring :=
  expect (fun r => match r with RSigned op => Some op | _ => None end).

Definition as_log : Resp -> M (list (option jsstring)) :=
  expect (fun r => match r with RLog l => Some l | _ => None end).

(** [agent.login({identifier, password})], with [authFactorToken] when a
    two-factor code was given. *)
Definition login (a : Agent) (identifier password : jsstring)
    (twoFactorCode : option jsstring) : M unit :=
  r <- call (Login a identifier password twoFactorCode) ;; as_void r.

(** [oldAgent.com.atproto.sync.getBlob({did, cid})]. *)
Definition getBlob (a : Agent) (did cid : jsstring) : M (jsstring * jsstring) :=
  r <- call (GetBlob a did cid) ;; as_blob r.

(** [newAgent.com.atproto.repo.uploadBlob(data, {encoding})]. *)
Definition uploadBlob (a : Agent) (data encoding : jsstring) : M unit :=
  r <- call (UploadBlob a data encoding) ;; as_void r.

(** [newAgent.com.atproto.server.checkAccountStatus()]. *)
Definition checkAccountStatus (a : Agent) : M (bool * Z * Z) :=
  r <- call (CheckAccountStatus a) ;; as_status r.

(** ** [migrate] *)

(** [didDoc.service.filter(s => s.type === 'AtprotoPersonalDataServer')[0]
    .serviceEndpoint] inside its [try]; every failure is rethrown as the
    one error. *)
Definition findPds (didDoc : DidDoc) : M jsstring :=
  match doc_service didDoc with
  | Some services =>
      match filter (fun s => str_eqb (type s) (u "AtprotoPersonalDataServer")) services with
      | s :: _ => ret (serviceEndpoint s)
      | [] => throw (JsError "Could not find a PDS in the DID document.")
      end
  | None => throw (JsError "Could not find a PDS in the DID document.")
  end.

(** Lines 65-93: the source's client and the user's DID. *)
Definition resolveSource (statusUpdateHandler : bool) (oldHandle : jsstring)
    : M (Agent * jsstring) :=
  if endsWith oldHandle (u ".bsky.social") then
    let oldAgent := mkAgent OldAgent (u "https://bsky.social") in
    let publicAgent := mkAgent PublicAgent (u "https://public.api.bsky.app") in
    r <- call (ResolveHandle publicAgent oldHandle) ;;
    usersDid <- as_did r ;;
    ret (oldAgent, usersDid)
  else
    safeStatusUpdate statusUpdateHandler SResolvingOldPds ;;
    r <- call (HandleResolve oldHandle) ;;
    usersDid <- as_did r ;;
    r <- call (DocResolve usersDid) ;;
    didDoc <- as_doc r ;;
    safeStatusUpdate statusUpdateHandler SResolvingDidDocument ;;
    oldPds <- findPds didDoc ;;
    ret (mkAgent OldAgent oldPds, usersDid).

(** [if (inviteCode)]: a non-empty string. *)
Definition given (inviteCode : option jsstring) : option jsstring :=
  if cursor_truthy inviteCode then inviteCode else None.

(** Lines 106-136, the body of [if (this.createNewAccount)]. *)
Definition createAccountPhase (statusUpdateHandler : bool) (oldAgent newAgent : Agent)
    (usersDid newHostWebDid password newEmail newHandle : jsstring)
    (inviteCode : option jsstring) : M unit :=
  safeStatusUpdate statusUpdateHandler SCreatingAccount ;;
  r <- call (GetServiceAuth oldAgent newHostWebDid (u "com.atproto.server.createAccount")) ;;
  serviceJwt <- as_token r ;;
  let createAccountRequest :=
    mkCreateAccountRequest usersDid newHandle newEmail password (given inviteCode) in
  r <- call (CreateAccount newAgent createAccountRequest (u "Bearer " ++ serviceJwt)) ;;
  created <- as_created r ;;
  if negb (str_eqb created usersDid)
  then throw (JsError "Did not create the new account with the same did as the old account")
  else ret tt.

(** Lines 144-150, the body of [if (this.migrateRepo)]. *)
Definition repoPhase (statusUpdateHandler : bool) (oldAgent newAgent : Agent)
    (usersDid : jsstring) : M unit :=
  safeStatusUpdate statusUpdateHandler SMigratingRepo ;;
  r <- call (GetRepo oldAgent usersDid) ;;
  repo <- as_repo r ;;
  r <- call (ImportRepo newAgent repo) ;;
  as_void r.

(** Lines 169-183: the [try] around one transfer and its [catch].  The
    counter is bumped after the upload; a throw anywhere in the [try] leaves
    it. *)
Definition uploadOne (statusUpdateHandler : bool) (oldAgent newAgent : Agent)
    (usersDid : jsstring) (expectedBlobs : Z) (cid : jsstring)
    (uploadedBlobs : Z) : M Z :=
  try_catch
    (blobRes <- getBlob oldAgent usersDid cid ;;
     uploadBlob newAgent (fst blobRes) (snd blobRes) ;;
     let n := (uploadedBlobs + 1)%Z in
     (if (Z.rem n 10 =? 0)%Z
      then safeStatusUpdate statusUpdateHandler (SBlobProgress n expectedBlobs)
      else ret tt) ;;
     ret n)
    (fun _ => ret uploadedBlobs).

(** Lines 168-184: the [for] over one page of the listing. *)
Fixpoint uploadPage (statusUpdateHandler : bool) (oldAgent newAgent : Agent)
    (usersDid : jsstring) (expectedBlobs : Z) (cids : list jsstring)
    (uploadedBlobs : Z) : M Z :=
  match cids with
  | [] => ret uploadedBlobs
  | cid :: rest =>
      n <- uploadOne statusUpdateHandler oldAgent newAgent usersDid expectedBlobs
             cid uploadedBlobs ;;
      uploadPage statusUpdateHandler oldAgent newAgent usersDid expectedBlobs rest n
  end.

(** Lines 159-186: [do { ... } while (blobCursor)], at most [fuel] pages. *)
Fixpoint blobLoop (fuel : nat) (statusUpdateHandler : bool) (oldAgent newAgent : Agent)
    (usersDid : jsstring) (expectedBlobs : Z) (blobCursor : option jsstring)
    (uploadedBlobs : Z) : M unit :=
  match fuel with
  | O => diverge
  | S fuel' =>
      safeStatusUpdate statusUpdateHandler (SBlobProgress uploadedBlobs expectedBlobs) ;;
      r <- call (ListBlobs oldAgent usersDid blobCursor 100) ;;
      listedBlobs <- as_cids r ;;
      n <- uploadPage statusUpdateHandler oldAgent newAgent usersDid expectedBlobs
             (fst listedBlobs) uploadedBlobs ;;
      if cursor_truthy (snd listedBlobs)
      then blobLoop fuel' statusUpdateHandler oldAgent newAgent usersDid expectedBlobs
             (snd listedBlobs) n
      else ret tt
  end.

(** Lines 154-187, the body of [if (this.migrateBlobs)]. *)
Definition blobPhase (fuel : nat) (statusUpdateHandler : bool) (oldAgent newAgent : Agent)
    (usersDid : jsstring) (expectedBlobs : Z) : M unit :=
  safeStatusUpdate statusUpdateHandler SMigratingBlobs ;;
  blobLoop fuel statusUpdateHandler oldAgent newAgent usersDid expectedBlobs None 0%Z.

(** [this.missingBlobs.push(cid)]. *)
Definition push_missing (cid : jsstring) : M unit :=
  set_this (fun m =>
    mkMigrator (oldAgent m) (newAgent m) (missingBlobs m ++ [cid])
      (createNewAccount m) (migrateRepo m) (migrateBlobs m)
      (migrateMissingBlobs m) (migratePrefs m) (migratePlcRecord m)).

(** Lines 206-223: the [try] around one retry and its [catch], which
    records the blob as missing.  Here the status goes out before the
    counter is bumped. *)
Definition retryOne (statusUpdateHandler : bool) (oldAgent newAgent : Agent)
    (usersDid : jsstring) (totalMissingBlobs : Z) (recordBlob : RecordBlob)
    (missingUploadedBlobs : Z) : M Z :=
  try_catch
    (blobRes <- getBlob oldAgent usersDid (rb_cid recordBlob) ;;
     uploadBlob newAgent (fst blobRes) (snd blobRes) ;;
     (if (Z.rem missingUploadedBlobs 10 =? 0)%Z
      then safeStatusUpdate statusUpdateHandler
             (SBlobProgress missingUploadedBlobs totalMissingBlobs)
      else ret tt) ;;
     ret (missingUploadedBlobs + 1)%Z)
    (fun _ => push_missing (rb_cid recordBlob) ;; ret missingUploadedBlobs).

(** Lines 205-224: the [for] over one page of the destination's missing
    list. *)
Fixpoint retryPage (statusUpdateHandler : bool) (oldAgent newAgent : Agent)
    (usersDid : jsstring) (totalMissingBlobs : Z) (blobs : list RecordBlob)
    (missingUploadedBlobs : Z) : M Z :=
  match blobs with
  | [] => ret missingUploadedBlobs
  | recordBlob :: rest =>
      n <- retryOne statusUpdateHandler oldAgent newAgent usersDid totalMissingBlobs
             recordBlob missingUploadedBlobs ;;
      retryPage statusUpdateHandler oldAgent newAgent usersDid totalMissingBlobs rest n
  end.

(** Lines 197-226: [do { ... } while (missingBlobCursor)]. *)
Fixpoint retryLoop (fuel : nat) (statusUpdateHandler : bool) (oldAgent newAgent : Agent)
    (usersDid : jsstring) (totalMissingBlobs : Z) (missingBlobCursor : option jsstring)
    (missingUploadedBlobs : Z) : M unit :=
  match fuel with
  | O => diverge
  | S fuel' =>
      safeStatusUpdate statusUpdateHandler
        (SBlobProgress missingUploadedBlobs totalMissingBlobs) ;;
      r <- call (ListMissingBlobs newAgent missingBlobCursor 100) ;;
      missing <- as_missing r ;;
      n <- retryPage statusUpdateHandler oldAgent newAgent usersDid totalMissingBlobs
             (fst missing) missingUploadedBlobs ;;
      if cursor_truthy (snd missing)
      then retryLoop fuel' statusUpdateHandler oldAgent newAgent usersDid
             totalMissingBlobs (snd missing) n
      else ret tt
  end.

(** Lines 189-229, the body of [if (this.migrateMissingBlobs)]. *)
Definition reconcilePhase (fuel : nat) (statusUpdateHandler : bool)
    (oldAgent newAgent : Agent) (usersDid : jsstring) : M unit :=
  newAccountStatus <- checkAccountStatus newAgent ;;
  let '(_, expectedBlobs, importedBlobs) := newAccountStatus in
  if negb (expectedBlobs =? importedBlobs)%Z then
    let totalMissingBlobs := (expectedBlobs - importedBlobs)%Z in
    safeStatusUpdate statusUpdateHandler SSomeMissingBlobs ;;
    retryLoop fuel statusUpdateHandler oldAgent newAgent usersDid totalMissingBlobs None 0%Z
  else ret tt.

(** Lines 230-233, the body of [if (this.migratePrefs)]. *)
Definition prefsPhase (oldAgent newAgent : Agent) : M unit :=
  r <- call (GetPreferences oldAgent) ;;
  prefs <- as_prefs r ;;
  r <- call (PutPreferences newAgent prefs) ;;
  as_void r.

(** Lines 235-236: [this.oldAgent = oldAgent; this.newAgent = newAgent]. *)
Definition storeAgents (oldA newA : Agent) : M unit :=
  set_this (fun m =>
    mkMigrator (Some oldA) (Some newA) (missingBlobs m)
      (createNewAccount m) (migrateRepo m) (migrateBlobs m)
      (migrateMissingBlobs m) (migratePrefs m) (migratePlcRecord m)).

(** Lines 238-241, the body of [if (this.migratePlcRecord)]. *)
Definition plcPhase (statusUpdateHandler : bool) (oldAgent : Agent) : M unit :=
  r <- call (RequestPlcOperationSignature oldAgent) ;;
  as_void r ;;
  safeStatusUpdate statusUpdateHandler SCheckEmail.

(** [if (flag) { body }]. *)
Definition when (flag : bool) (body : M unit) : M unit :=
  if flag then body else ret tt.

(** Lines 137-187: the destination login, the repository, the status read
    and the main blob sync. *)
Definition loginAndSync (fuel : nat) (statusUpdateHandler : bool)
    (oldAgent newAgent : Agent) (usersDid password : jsstring) : M unit :=
  safeStatusUpdate statusUpdateHandler SLoggingInNew ;;
  login newAgent usersDid password None ;;
  m <- get_this ;;
  when (migrateRepo m) (repoPhase statusUpdateHandler oldAgent newAgent usersDid) ;;
  newAccountStatus <- checkAccountStatus newAgent ;;
  m <- get_this ;;
  when (migrateBlobs m)
    (blobPhase fuel statusUpdateHandler oldAgent newAgent usersDid
       (snd (fst newAccountStatus))).

(** Lines 230-241: the preferences, the two clients stored on [this], the
    request for the PLC token. *)
Definition finish (statusUpdateHandler : bool) (oldAgent newAgent : Agent) : M unit :=
  m <- get_this ;;
  when (migratePrefs m) (prefsPhase oldAgent newAgent) ;;
  storeAgents oldAgent newAgent ;;
  m <- get_this ;;
  when (migratePlcRecord m) (plcPhase statusUpdateHandler oldAgent).

(** Lines 137-242: everything after the account-creation phase. *)
Definition afterCreate (fuel : nat) (statusUpdateHandler : bool)
    (oldAgent newAgent : Agent) (usersDid password : jsstring) : M unit :=
  loginAndSync fuel statusUpdateHandler oldAgent newAgent usersDid password ;;
  m <- get_this ;;
  when (migrateMissingBlobs m)
    (reconcilePhase fuel statusUpdateHandler oldAgent newAgent usersDid) ;;
  finish statusUpdateHandler oldAgent newAgent.

(** Lines 64-105: resolution, the source login and the probe of the
    destination; gives both clients, the DID and the destination's own DID. *)
Definition beforeCreate (statusUpdateHandler : bool)
    (oldHandle password newPdsUrl : jsstring) (twoFactorCode : option jsstring)
    : M (Agent * Agent * jsstring * jsstring) :=
  resolved <- resolveSource statusUpdateHandler oldHandle ;;
  let '(oldAgent, usersDid) := resolved in
  safeStatusUpdate statusUpdateHandler SLoggingInOld ;;
  login oldAgent oldHandle password twoFactorCode ;;
  safeStatusUpdate statusUpdateHandler SCheckingNewPds ;;
  let newAgent := mkAgent NewAgent newPdsUrl in
  r <- call (DescribeServer newAgent) ;;
  newHostWebDid <- as_describe r ;;
  ret (oldAgent, newAgent, usersDid, newHostWebDid).

(** [migrate(oldHandle, password, newPdsUrl, newEmail, newHandle, inviteCode,
    statusUpdateHandler, twoFactorCode)]; [fuel] bounds the pages of each of
    the two listings. *)
Definition migrate (fuel : nat) (oldHandle password newPdsUrl newEmail newHandle : jsstring)
    (inviteCode : option jsstring) (statusUpdateHandler : bool)
    (twoFactorCode : option jsstring) : M unit :=
  let oldHandle := normalizeHandle oldHandle in
  ctx <- beforeCreate statusUpdateHandler oldHandle password newPdsUrl twoFactorCode ;;
  let '(oldAgent, newAgent, usersDid, newHostWebDid) := ctx in
  m <- get_this ;;
  when (createNewAccount m)
    (createAccountPhase statusUpdateHandler oldAgent newAgent usersDid newHostWebDid
       password newEmail newHandle inviteCode) ;;
  afterCreate fuel statusUpdateHandler oldAgent newAgent usersDid password.

(** ** [signPlcOperation] *)

(** The [token] of [{token: token, ...credentials}]: the spread comes after
    the caller's token, so a [token] among the credentials replaces it. *)
Definition spread (token : jsstring) (ownToken : option jsstring) : jsstring :=
  match ownToken with
  | Some t => t
  | None => token
  end.

(** [signPlcOperation(token)]: lines 249-273.  Every [this.newAgent] and
    [this.oldAgent] is a read of the field at that point. *)
Definition signPlcOperation (token : jsstring) : M unit :=
  m <- get_this ;;
  newA <- deref (newAgent m) ;;
  r <- call (GetRecommendedDidCredentials newA) ;;
  data <- as_creds r ;;
  let '(getDidCredentials, ownToken) := data in
  let rotationKeys := nullish_or (rotationKeys getDidCredentials) (JArr []) in
  (if negb (truthy rotationKeys)
   then throw (JsError "No rotation key provided from the new PDS")
   else ret tt) ;;
  let credentials := mkDidCredentials rotationKeys (otherCredentials getDidCredentials) in
  m <- get_this ;;
  oldA <- deref (oldAgent m) ;;
  r <- call (SignPlcOperation oldA (spread token ownToken) credentials) ;;
  plcOp <- as_signed r ;;
  m <- get_this ;;
  newA <- deref (newAgent m) ;;
  r <- call (SubmitPlcOperation newA plcOp) ;;
  as_void r ;;
  m <- get_this ;;
  newA <- deref (newAgent m) ;;
  r <- call (ActivateAccount newA) ;;
  as_void r ;;
  m <- get_this ;;
  oldA <- deref (oldAgent m) ;;
  r <- call (DeactivateAccount oldA) ;;
  as_void r.

(** ** [deactivateOldAccount] *)

Section Deactivation.

(** [String.prototype.toLowerCase]; the workflow only compares its
    results, so it is left open. *)
Variable toLowerCase : jsstring -> jsstring.

(** Lines 302-315: the scan of the PLC log.  An entry that throws is
    skipped by the [catch]; the entry that matches the current PDS ends
    the loop; any other entry becomes the candidate. *)
Fixpoint scanLog (currentPds : jsstring) (plcLog : list (option jsstring))
    (pdsBeforeCurrent : jsstring) : jsstring :=
  match plcLog with
  | [] => pdsBeforeCurrent
  | None :: rest => scanLog currentPds rest pdsBeforeCurrent
  | Some pds :: rest =>
      if str_eqb (toLowerCase pds) (toLowerCase currentPds)
      then pdsBeforeCurrent
      else scanLog currentPds rest pds
  end.

(** Lines 279-289: the user's DID. *)
Definition resolveDid (statusUpdateHandler : bool) (oldHandle : jsstring) : M jsstring :=
  if endsWith oldHandle (u ".bsky.social") then
    let publicAgent := mkAgent PublicAgent (u "https://public.api.bsky.app") in
    r <- call (ResolveHandle publicAgent oldHandle) ;;
    as_did r
  else
    safeStatusUpdate statusUpdateHandler SResolvingDid ;;
    r <- call (HandleResolve oldHandle) ;;
    as_did r.

(** Lines 316-339: what is done with the endpoint the scan computed. *)
Definition deactivatePrior (statusUpdateHandler : bool)
    (oldHandle oldPassword : jsstring) (twoFactorCode : option jsstring)
    (currentPds pdsBeforeCurrent : jsstring) : M unit :=
  (if str_eqb pdsBeforeCurrent []
   then throw (JsError "Could not find the PDS before the current one")
   else ret tt) ;;
  let oldAgent := mkAgent OldAgent pdsBeforeCurrent in
  safeStatusUpdate statusUpdateHandler (SLoggingInOldAt pdsBeforeCurrent) ;;
  login oldAgent oldHandle oldPassword twoFactorCode ;;
  safeStatusUpdate statusUpdateHandler SCheckingNotCurrent ;;
  (if str_eqb pdsBeforeCurrent currentPds
   then throw (JsError "This is your current PDS. Login to your old account username and password")
   else ret tt) ;;
  currentAccountStatus <- checkAccountStatus oldAgent ;;
  (if negb (fst (fst currentAccountStatus))
   then safeStatusUpdate statusUpdateHandler SOldNotActivated
   else ret tt) ;;
  safeStatusUpdate statusUpdateHandler SDeactivating ;;
  r <- call (DeactivateAccount oldAgent) ;;
  as_void r ;;
  safeStatusUpdate statusUpdateHandler SDeactivated.

(** Lines 302-339: the scan, then the rest on what it computed. *)
Definition scanAndDeactivate (statusUpdateHandler : bool)
    (oldHandle oldPassword : jsstring) (twoFactorCode : option jsstring)
    (currentPds : jsstring) (plcLog : list (option jsstring)) : M unit :=
  let pdsBeforeCurrent := scanLog currentPds plcLog [] in
  deactivatePrior statusUpdateHandler oldHandle oldPassword twoFactorCode
    currentPds pdsBeforeCurrent.

(** [deactivateOldAccount(oldHandle, oldPassword, statusUpdateHandler,
    twoFactorCode)]. *)
Definition deactivateOldAccount (oldHandle oldPassword : jsstring)
    (statusUpdateHandler : bool) (twoFactorCode : option jsstring) : M unit :=
  let oldHandle := normalizeHandle oldHandle in
  usersDid <- resolveDid statusUpdateHandler oldHandle ;;
  r <- call (DocResolve usersDid) ;;
  didDoc <- as_doc r ;;
  currentPds <- findPds didDoc ;;
  r <- call (FetchPlcLog (u "https://plc.directory/" ++ usersDid ++ u "/log")) ;;
  plcLog <- as_log r ;;
  scanAndDeactivate statusUpdateHandler oldHandle oldPassword twoFactorCode
    currentPds plcLog.

End Deactivation.

(** ** Runs *)

(** The state a method starts in: the instance as it is, nothing awaited
    yet. *)
Definition start (m : Migrator) : St := mkSt m [] [].

(** The calls of a run, without their answers. *)
Definition calls_of (s : St) : list Call := map ev_call (calls s).

(** The state after a call was logged, and after a status line. *)
Definition logged (s : St) (c : Call) (r : Resp) : St :=
  mkSt (this s) (calls s ++ [Ev c r]) (said s).

Definition told (s : St) (status : Status) : St :=
  mkSt (this s) (calls s) (said s ++ [status]).

(** ** Kinds of call *)

(** The kind of a call, whatever its arguments. *)
Inductive Op :=
| OpResolveHandle | OpHandleResolve | OpDocResolve | OpLogin | OpDescribeServer
| OpGetServiceAuth | OpCreateAccount | OpGetRepo | OpImportRepo
| OpCheckAccountStatus | OpListBlobs | OpGetBlob | OpUploadBlob
| OpListMissingBlobs | OpGetPreferences | OpPutPreferences
| OpRequestPlcOperationSignature | OpGetRecommendedDidCredentials
| OpSignPlcOperation | OpSubmitPlcOperation | OpActivateAccount
| OpDeactivateAccount | OpFetchPlcLog.

Definition op_of (c : Call) : Op :=
  match c with
  | ResolveHandle _ _ => OpResolveHandle
  | HandleResolve _ => OpHandleResolve
  | DocResolve _ => OpDocResolve
  | Login _ _ _ _ => OpLogin
  | DescribeServer _ => OpDescribeServer
  | GetServiceAuth _ _ _ => OpGetServiceAuth
  | CreateAccount _ _ _ => OpCreateAccount
  | GetRepo _ _ => OpGetRepo
  | ImportRepo _ _ => OpImportRepo
  | CheckAccountStatus _ => OpCheckAccountStatus
  | ListBlobs _ _ _ _ => OpListBlobs
  | GetBlob _ _ _ => OpGetBlob
  | UploadBlob _ _ _ => OpUploadBlob
  | ListMissingBlobs _ _ _ => OpListMissingBlobs
  | GetPreferences _ => OpGetPreferences
  | PutPreferences _ _ => OpPutPreferences
  | RequestPlcOperationSignature _ => OpRequestPlcOperationSignature
  | GetRecommendedDidCredentials _ => OpGetRecommendedDidCredentials
  | SignPlcOperation _ _ _ => OpSignPlcOperation
  | SubmitPlcOperation _ _ => OpSubmitPlcOperation
  | ActivateAccount _ => OpActivateAccount
  | DeactivateAccount _ => OpDeactivateAccount
  | FetchPlcLog _ => OpFetchPlcLog
  end.

Definition op_eqb (a b : Op) : bool :=
  match a, b with
  | OpResolveHandle, OpResolveHandle | OpHandleResolve, OpHandleResolve
  | OpDocResolve, OpDocResolve | OpLogin, OpLogin
  | OpDescribeServer, OpDescribeServer | OpGetServiceAuth, OpGetServiceAuth
  | OpCreateAccount, OpCreateAccount | OpGetRepo, OpGetRepo
  | OpImportRepo, OpImportRepo | OpCheckAccountStatus, OpCheckAccountStatus
  | OpListBlobs, OpListBlobs | OpGetBlob, OpGetBlob
  | OpUploadBlob, OpUploadBlob | OpListMissingBlobs, OpListMissingBlobs
  | OpGetPreferences, OpGetPreferences | OpPutPreferences, OpPutPreferences
  | OpRequestPlcOperationSignature, OpRequestPlcOperationSignature
  | OpGetRecommendedDidCredentials, OpGetRecommendedDidCredentials
  | OpSignPlcOperation, OpSignPlcOperation
  | OpSubmitPlcOperation, OpSubmitPlcOperation
  | OpActivateAccount, OpActivateAccount
  | OpDeactivateAccount, OpDeactivateAccount
  | OpFetchPlcLog, OpFetchPlcLog => true
  | _, _ => false
  end.

(** The kind of the call of an event. *)
Definition ev_op (e : Event) : Op := op_of (ev_call e).

(** Every kind; every kind but one. *)
Definition anyop (_ : Op) : bool := true.

Definition except (op : Op) (o : Op) : bool := negb (op_eqb op o).

(** The calls of the identity resolution. *)
Definition resolution_op (op : Op) : bool :=
  match op with
  | OpResolveHandle | OpHandleResolve | OpDocResolve => true
  | _ => false
  end.

(** The calls the first phases can make. *)
Definition early_op (op : Op) : bool :=
  match op with
  | OpResolveHandle | OpHandleResolve | OpDocResolve | OpLogin | OpDescribeServer => true
  | _ => false
  end.

(** The kinds of call made only by the phases after the account creation
    (the login of line 139 apart, a kind the source login shares). *)
Definition later_op (op : Op) : bool :=
  match op with
  | OpGetRepo | OpImportRepo | OpCheckAccountStatus | OpListBlobs | OpGetBlob
  | OpUploadBlob | OpListMissingBlobs | OpGetPreferences | OpPutPreferences
  | OpRequestPlcOperationSignature => true
  | _ => false
  end.

(** Kinds of call other than the missing-blob listing; other than it and the
    status read. *)
Definition no_listing : Op -> bool := except OpListMissingBlobs.

Definition no_listing_no_status (op : Op) : bool :=
  except OpListMissingBlobs op && except OpCheckAccountStatus op.

(** Kinds of call that neither transfer a blob nor list the missing ones. *)
Definition quiet_op (op : Op) : bool :=
  except OpGetBlob op && except OpUploadBlob op && except OpListMissingBlobs op.


(** ** Reading a log of calls *)

(** The counts the last successful status read of a run reported. *)
Fixpoint last_status (evs : list Event) : option (Z * Z) :=
  match evs with
  | [] => None
  | e :: rest =>
      match last_status rest with
      | Some counts => Some counts
      | None =>
          match e with
          | Ev (CheckAccountStatus _) (RStatus _ expected imported) =>
              Some (expected, imported)
          | _ => None
          end
      end
  end.

(** The content-addresses asked of [getBlob], in order. *)
Fixpoint fetches (evs : list Event) : list jsstring :=
  match evs with
  | [] => []
  | Ev (GetBlob _ _ cid) _ :: rest => cid :: fetches rest
  | _ :: rest => fetches rest
  end.

(** The calls of [listBlobs], in order. *)
Fixpoint listing_calls (evs : list Event) : list Call :=
  match evs with
  | [] => []
  | Ev (ListBlobs a did cursor limit) _ :: rest =>
      ListBlobs a did cursor limit :: listing_calls rest
  | _ :: rest => listing_calls rest
  end.

(** The number of uploads that went through. *)
Fixpoint uploads (evs : list Event) : nat :=
  match evs with
  | [] => O
  | Ev (UploadBlob _ _ _) RVoid :: rest => S (uploads rest)
  | _ :: rest => uploads rest
  end.

(** The content-addresses whose transfer failed, in order: a [getBlob] that
    was rejected, or the [uploadBlob] right after a [getBlob] that was not.
    [pending] is the address of the blob just fetched. *)
Fixpoint failed_transfers (pending : option jsstring) (evs : list Event)
    : list jsstring :=
  match evs with
  | [] => []
  | Ev (GetBlob _ _ cid) r :: rest =>
      match r with
      | RBlob _ _ => failed_transfers (Some cid) rest
      | _ => cid :: failed_transfers None rest
      end
  | Ev (UploadBlob _ _ _) r :: rest =>
      match pending, r with
      | Some cid, RVoid => failed_transfers None rest
      | Some cid, _ => cid :: failed_transfers None rest
      | None, _ => failed_transfers None rest
      end
  | _ :: rest => failed_transfers None rest
  end.

(** The events of the reconciliation: from the first missing-blob listing
    on. *)
Fixpoint reconciliation (evs : list Event) : list Event :=
  match evs with
  | [] => []
  | e :: rest =>
      if op_eqb (ev_op e) OpListMissingBlobs then evs else reconciliation rest
  end.

(** How often a content-address is in a list. *)
Definition occurrences (cid : jsstring) (l : list jsstring) : nat :=
  List.length (filter (str_eqb cid) l).

(** ** Relations between the states of a run *)

(** A computation moves every state along [R]. *)
Definition steps (R : St -> St -> Prop) {A} (m : M A) : Prop :=
  forall env s, R s (snd (m env s)).

(** The list of missing blobs only grows, at its end. *)
Definition grows (s s' : St) : Prop :=
  exists extra, missingBlobs (this s') = missingBlobs (this s) ++ extra.

(** The log of calls only grows, at its end, by calls of the kinds [Q] lets
    through. *)
Definition emits (Q : Op -> bool) (s s' : St) : Prop :=
  exists new, calls s' = calls s ++ new /\ forallb (fun e => Q (ev_op e)) new = true.

(** [this] is not assigned. *)
Definition same_this (s s' : St) : Prop := this s' = this s.

(** The two stored clients are as they were. *)
Definition same_agents (s s' : St) : Prop :=
  oldAgent (this s') = oldAgent (this s) /\ newAgent (this s') = newAgent (this s).

(** [this.missingBlobs] is as it was. *)
Definition same_missing (s s' : St) : Prop :=
  missingBlobs (this s') = missingBlobs (this s).

(** The run asked the source for the PLC token. *)
Definition requested (s s' : St) : Prop :=
  exists new, calls s' = calls s ++ new /\
    existsb (fun e => op_eqb (ev_op e) OpRequestPlcOperationSignature) new = true.

(** A computation returns, or has asked for the PLC token, or has left the
    two stored clients as they were. *)
Definition late {A} (m : M A) : Prop :=
  forall env s,
    (exists a, fst (m env s) = Ret a) \/ requested s (snd (m env s)) \/
    same_agents s (snd (m env s)).

(** Up to [s'] either no missing-blob listing was asked for, or the last
    status read reported counts that differ. *)
Definition reconciled (s s' : St) : Prop :=
  emits no_listing s s' \/
  exists pre a agent expected imported tail,
    expected <> imported /\
    calls s' = pre ++ Ev (CheckAccountStatus agent) (RStatus a expected imported) :: tail /\
    forallb (fun e => except OpCheckAccountStatus (ev_op e)) tail = true.

(** From [s] to [s'] the list of missing blobs grew by the transfers that
    failed in the reconciliation, and by nothing else. *)
Definition recorded (s s' : St) : Prop :=
  exists new extra,
    calls s' = calls s ++ new /\
    missingBlobs (this s') = missingBlobs (this s) ++ extra /\
    forall tail,
      forallb (fun e => quiet_op (ev_op e)) tail = true ->
      failed_transfers None (reconciliation (new ++ tail)) = extra.

(** ** Assumptions on the instance and on the world *)


(** The source serves its listing in [pages], each with the cursor to the
    next: asked with the cursor of a page, it answers that page, whatever
    was called before; the last page, and only it, comes without a cursor
    to go on with. *)
Fixpoint paged (env : Env) (a : Agent) (did : jsstring) (cursor : option jsstring)
    (pages : list (list jsstring * option jsstring)) : Prop :=
  match pages with
  | [] => False
  | (cids, next) :: rest =>
      (forall h, env h (ListBlobs a did cursor 100) = RCids cids next) /\
      match rest with
      | [] => cursor_truthy next = false
      | _ :: _ => cursor_truthy next = true /\ paged env a did next rest
      end
  end.

(** Every transfer succeeds. *)
Definition transfers_succeed (env : Env) (oldA newA : Agent) (did : jsstring) : Prop :=
  (forall h cid, exists data contentType,
      env h (GetBlob oldA did cid) = RBlob data contentType) /\
  (forall h data encoding, env h (UploadBlob newA data encoding) = RVoid).

(** The cursors the loop asks with: the one it starts from, then the one
    each page but the last came with. *)
Definition cursors_asked (cursor : option jsstring)
    (pages : list (list jsstring * option jsstring)) : list (option jsstring) :=
  cursor :: removelast (map snd pages).

(** ** Example worlds *)

(** The clients of the examples. *)
Definition bsky : Agent := mkAgent OldAgent (u "https://bsky.social").

Definition newPds : Agent := mkAgent NewAgent (u "https://new.example").

(** A world in which every call succeeds: one PDS service in the DID
    document, the account created under the DID asked for, nothing to list,
    nothing missing, a log of three endpoints. *)
Definition happy : Env := fun _ c =>
  match c with
  | ResolveHandle _ _ | HandleResolve _ => RDid (u "did:plc:alice")
  | DocResolve _ =>
      RDidDoc (mkDidDoc (Some [mkService (u "AtprotoPersonalDataServer")
                                         (u "https://c.example")]))
  | Login _ _ _ _ => RVoid
  | DescribeServer _ => RDescribe (u "did:web:new.example")
  | GetServiceAuth _ _ _ => RToken (u "jwt")
  | CreateAccount _ req _ => RCreated (car_did req)
  | GetRepo _ _ => RRepo (u "car")
  | ImportRepo _ _ => RVoid
  | CheckAccountStatus _ => RStatus true 0 0
  | ListBlobs _ _ _ _ => RCids [] None
  | GetBlob _ _ cid => RBlob cid (u "image/png")
  | UploadBlob _ _ _ => RVoid
  | ListMissingBlobs _ _ _ => RMissing [] None
  | GetPreferences _ => RPrefs (u "prefs")
  | PutPreferences _ _ => RVoid
  | RequestPlcOperationSignature _ => RVoid
  | GetRecommendedDidCredentials _ =>
      RCreds (mkDidCredentials (JArr [u "did:key:zQ3sh"]) (u "rest"))
  | SignPlcOperation _ _ _ => RSigned (u "signed-op")
  | SubmitPlcOperation _ _ => RVoid
  | ActivateAccount _ => RVoid
  | DeactivateAccount _ => RVoid
  | FetchPlcLog _ =>
      RLog [Some (u "https://a.example"); Some (u "https://b.example");
            Some (u "https://c.example")]
  end.

(** An instance after a completed [migrate]: both clients stored. *)
Definition migrated : Migrator :=
  mkMigrator (Some bsky) (Some newPds) [] true true true true true true.


(** A world whose destination recommends credentials without rotation keys:
    [absent] for a missing field, otherwise the empty array. *)
Definition noRotationKeys (absent : bool) : Env := fun h c =>
  match c with
  | GetRecommendedDidCredentials _ =>
      RCreds (mkDidCredentials (if absent then JUndefined else JArr []) (u "rest"))
  | _ => happy h c
  end.

(** A world whose source refuses the login (a second factor is asked for). *)
Definition loginRefused : Env := fun h c =>
  match c with
  | Login _ _ _ _ => RThrow "AuthFactorTokenRequired"
  | _ => happy h c
  end.

(** A world whose destination creates the account under another DID. *)
Definition otherDid : Env := fun h c =>
  match c with
  | CreateAccount _ _ _ => RCreated (u "did:plc:mallory")
  | _ => happy h c
  end.

(** The content-address of the [k]-th blob of the examples. *)
Definition cidOf (k : nat) : jsstring := u "bafkrei" ++ [N.of_nat k].

(** A source with 250 blobs, served in pages of 100 under the cursors
    [c1] and [c2]. *)
Definition threePages : list (list jsstring * option jsstring) :=
  [ (map cidOf (seq 1 100), Some (u "c1"));
    (map cidOf (seq 101 100), Some (u "c2"));
    (map cidOf (seq 201 50), None) ].

Definition pagedSource : Env := fun h c =>
  match c with
  | ListBlobs _ _ None _ => RCids (map cidOf (seq 1 100)) (Some (u "c1"))
  | ListBlobs _ _ (Some cursor) _ =>
      if str_eqb cursor (u "c1")
      then RCids (map cidOf (seq 101 100)) (Some (u "c2"))
      else RCids (map cidOf (seq 201 50)) None
  | _ => happy h c
  end.

(** A source with 100 blobs on one page whose blob 37 cannot be fetched;
    the destination reports 99 of 100 imported and lists blob 37 as
    missing. *)
Definition flaky : Env := fun h c =>
  match c with
  | ListBlobs _ _ _ _ => RCids (map cidOf (seq 1 100)) None
  | GetBlob _ _ cid =>
      if str_eqb cid (cidOf 37) then RThrow "fetch failed" else RBlob cid (u "image/png")
  | CheckAccountStatus _ => RStatus true 100 99
  | ListMissingBlobs _ _ _ =>
      RMissing [mkRecordBlob (cidOf 37) (u "at://did:plc:alice/app.bsky.feed.post/1")] None
  | _ => happy h c
  end.

(** The same, with blob 37 used by two records, so listed twice. *)
Definition flakyTwice : Env := fun h c =>
  match c with
  | ListMissingBlobs _ _ _ =>
      RMissing [mkRecordBlob (cidOf 37) (u "at://did:plc:alice/app.bsky.feed.post/1");
                mkRecordBlob (cidOf 37) (u "at://did:plc:alice/app.bsky.feed.post/2")]
               None
  | _ => flaky h c
  end.

(** [migrate] as the examples call it: a handle at the entryway, a handler
    for the status lines, no invite code and no second factor. *)
Definition migrateAlice (fuel : nat) : M unit :=
  migrate fuel (u "alice.bsky.social") (u "pw") (u "https://new.example") (u "a@b.c")
    (u "alice.new.example") None true None.

(** ** Further readings of the source *)

(** The number of [@] in a handle. *)
Definition count_at (s : jsstring) : nat := List.length (filter (N.eqb 64) s).

(** A handle with nothing to normalise: no [@], no blank, no direction
    mark. *)
Definition plain_handle (s : jsstring) : bool :=
  forallb (fun c => negb (N.eqb c 64) && negb (is_js_space c) && negb (is_bidi_mark c)) s.

(** The entries of the PLC log whose endpoint can be read. *)
Fixpoint readable (plcLog : list (option jsstring)) : list jsstring :=
  match plcLog with
  | [] => []
  | Some pds :: rest => pds :: readable rest
  | None :: rest => readable rest
  end.

(** The endpoint [findPds] returns, when it returns one. *)
Definition firstPds (didDoc : DidDoc) : option jsstring :=
  match doc_service didDoc with
  | Some services =>
      match filter (fun s => str_eqb (type s) (u "AtprotoPersonalDataServer")) services with
      | s :: _ => Some (serviceEndpoint s)
      | [] => None
      end
  | None => None
  end.

(** The first call of [deactivateOldAccount], and of [migrate]: the
    entryway's resolution for a handle it hosts, the handle resolver for
    any other. *)
Definition resolveCall (oldHandle : jsstring) : Call :=
  if endsWith oldHandle (u ".bsky.social")
  then ResolveHandle (mkAgent PublicAgent (u "https://public.api.bsky.app")) oldHandle
  else HandleResolve oldHandle.

(** ** More example worlds *)

(** A world whose DID documents name a labeler and no PDS. *)
Definition noPds : Env := fun h c =>
  match c with
  | DocResolve _ =>
      RDidDoc (mkDidDoc (Some [mkService (u "AtprotoLabeler") (u "https://l.example")]))
  | _ => happy h c
  end.

(** The answer of [getRecommendedDidCredentials] whose object holds [data],
    with a [token] of its own or without one. *)
Definition recommendation (data : DidCredentials) (ownToken : option jsstring) : Resp :=
  match ownToken with
  | Some t => RCredsToken data t
  | None => RCreds data
  end.

(** A world whose destination puts a [token] of its own among the
    credentials it recommends. *)
Definition tokenRecommended : Env := fun h c =>
  match c with
  | GetRecommendedDidCredentials _ =>
      RCredsToken (mkDidCredentials (JArr [u "did:key:zQ3sh"]) (u "rest")) (u "theirs")
  | _ => happy h c
  end.

(** A world whose PLC log spells the current PDS with a trailing slash. *)
Definition spelledWithSlash : Env := fun h c =>
  match c with
  | FetchPlcLog _ =>
      RLog [Some (u "https://a.example"); Some (u "https://c.example/")]
  | _ => happy h c
  end.

(** ** How a run ends *)

(** The way a computation ended, whatever it returned. *)
Inductive Ending :=
| Returned
| Threw (e : Exn)
| CutOff.

Definition ending {A} (o : Outcome A) : Ending :=
  match o with
  | Ret _ => Returned
  | Throw e => Threw e
  | OutOfFuel => CutOff
  end.

(** The way an awaited call ends on an answer. *)
Definition answered (r : Resp) : Ending :=
  match r with
  | RThrow why => Threw (Rejected why)
  | _ => Returned
  end.

(** Every ending but the rejection of a call. *)
Definition silent (k : Ending) : bool :=
  match k with
  | Threw (Rejected _) => false
  | _ => true
  end.

(** A computation takes every state to one that [P] relates to it, given
    the way it ended. *)
Definition ends (P : Ending -> St -> St -> Prop) {A} (m : M A) : Prop :=
  forall env s, P (ending (fst (m env s))) s (snd (m env s)).

(** ** Which service a call goes to *)

Definition role_eqb (a b : Role) : bool :=
  match a, b with
  | PublicAgent, PublicAgent | OldAgent, OldAgent | NewAgent, NewAgent => true
  | _, _ => false
  end.

(** The same client: built by the same expression for the same address. *)
Definition agent_eqb (a b : Agent) : bool :=
  role_eqb (role a) (role b) && str_eqb (service a) (service b).

(** The two calls of a blob transfer. *)
Definition transfer_op (op : Op) : bool :=
  match op with
  | OpGetBlob | OpUploadBlob => true
  | _ => false
  end.

(** The calls of [migrate] after the probe of the destination, for the
    source client [oldA], the destination client [newA] and the DID [did]:
    reads go to the source, writes to the destination, and every call that
    names an account names [did]. *)
Definition migrate_call (oldA newA : Agent) (did : jsstring) (c : Call) : bool :=
  match c with
  | GetServiceAuth a _ lxm =>
      agent_eqb a oldA && str_eqb lxm (u "com.atproto.server.createAccount")
  | CreateAccount a req _ => agent_eqb a newA && str_eqb (car_did req) did
  | Login a identifier _ None => agent_eqb a newA && str_eqb identifier did
  | GetRepo a d => agent_eqb a oldA && str_eqb d did
  | ImportRepo a _ => agent_eqb a newA
  | CheckAccountStatus a => agent_eqb a newA
  | ListBlobs a d _ limit => agent_eqb a oldA && str_eqb d did && (limit =? 100)%Z
  | GetBlob a d _ => agent_eqb a oldA && str_eqb d did
  | UploadBlob a _ _ => agent_eqb a newA
  | ListMissingBlobs a _ limit => agent_eqb a newA && (limit =? 100)%Z
  | GetPreferences a => agent_eqb a oldA
  | PutPreferences a _ => agent_eqb a newA
  | RequestPlcOperationSignature a => agent_eqb a oldA
  | _ => false
  end.

(** A status read that resolved. *)
Definition status_read (e : Event) : bool :=
  match e with
  | Ev (CheckAccountStatus _) (RStatus _ _ _) => true
  | _ => false
  end.

(** A world whose accounts are reported as not activated. *)
Definition alreadyDeactivated : Env := fun h c =>
  match c with
  | CheckAccountStatus _ => RStatus false 0 0
  | _ => happy h c
  end.

(** ** Rejections *)

(** A list of events in which no call was rejected, those of the kinds
    [tolerated] apart. *)
Definition clean (tolerated : Op -> bool) (evs : list Event) : bool :=
  forallb (fun e => negb (failed e) || tolerated (ev_op e)) evs.

(** From [s] to [s'] the calls that were rejected are of a tolerated kind,
    but for the last one when the run ended on a rejection: that rejection
    is the answer of the last call, which is not of a tolerated kind. *)
Definition fails_fast (tolerated : Op -> bool) (k : Ending) (s s' : St) : Prop :=
  exists new,
    calls s' = calls s ++ new /\
    match k with
    | Threw (Rejected why) =>
        exists pre e,
          new = pre ++ [e] /\ ev_resp e = RThrow why /\
          tolerated (ev_op e) = false /\ clean tolerated pre = true
    | _ => clean tolerated new = true
    end.

(** No kind of call. *)
Definition noop (_ : Op) : bool := false.

(** A world whose source rejects the PLC token. *)
Definition tokenRefused : Env := fun h c =>
  match c with
  | SignPlcOperation _ _ _ => RThrow "InvalidToken"
  | _ => happy h c
  end.

(** ** What a write carries *)

(** The calls that move the account's data: the three reads from the source
    and the three writes to the destination. *)
Definition moving_op (op : Op) : bool :=
  match op with
  | OpGetRepo | OpImportRepo | OpGetBlob | OpUploadBlob
  | OpGetPreferences | OpPutPreferences => true
  | _ => false
  end.

(** Every write of a log comes right after the read of what it writes, and
    carries the answer of that read: [importRepo] the repository [getRepo]
    returned, [uploadBlob] the bytes [getBlob] returned, under the content
    type it returned them with, [putPreferences] the preferences
    [getPreferences] returned.  [prev] is the event before the list. *)
Fixpoint faithful (prev : option Event) (evs : list Event) : bool :=
  match evs with
  | [] => true
  | e :: rest =>
      match ev_call e with
      | ImportRepo _ car =>
          match prev with
          | Some (Ev (GetRepo _ _) (RRepo fetched)) => str_eqb car fetched
          | _ => false
          end
      | UploadBlob _ data encoding =>
          match prev with
          | Some (Ev (GetBlob _ _ _) (RBlob fetched contentType)) =>
              str_eqb data fetched && str_eqb encoding contentType
          | _ => false
          end
      | PutPreferences _ prefs =>
          match prev with
          | Some (Ev (GetPreferences _) (RPrefs fetched)) => str_eqb prefs fetched
          | _ => false
          end
      | _ => true
      end && faithful (Some e) rest
  end.

(** The calls from [s] to [s'] are faithful whatever came before them. *)
Definition carries (k : Ending) (s s' : St) : Prop :=
  exists new, calls s' = calls s ++ new /\ forall prev, faithful prev new = true.

(** ** The clients and the DID of a run *)

(** The DID the first call of a run resolved the handle to. *)
Definition resolved_did (evs : list Event) : jsstring :=
  match evs with
  | Ev _ (RDid did) :: _ => did
  | _ => []
  end.

(** The source client of a run of [migrate]: the entryway for a handle it
    hosts, otherwise the PDS of the DID document, the second answer of the
    run. *)
Definition source_of (oldHandle : jsstring) (evs : list Event) : Agent :=
  if endsWith oldHandle (u ".bsky.social")
  then mkAgent OldAgent (u "https://bsky.social")
  else
    match evs with
    | _ :: Ev (DocResolve _) (RDidDoc didDoc) :: _ =>
        match firstPds didDoc with
        | Some pds => mkAgent OldAgent pds
        | None => mkAgent OldAgent []
        end
    | _ => mkAgent OldAgent []
    end.


(** A call that resolved. *)
Definition resolved (e : Event) : bool := negb (failed e).


(** ** Addresses a client can be built from *)

(** [new AtpAgent({service})] parses [service] as a URL and throws on one
    that does not parse, while [mkAgent] makes a client of any string.  A
    plain address is of a form that parses: [https://], then names
    separated by single dots, each a non-empty run of lower-case letters
    and digits, the last one beginning with a letter.  On plain addresses
    the constructor of the source returns, as that of the model does. *)
Definition is_lower (c : N) : bool := (97 <=? c)%N && (c <=? 122)%N.

Definition is_digit (c : N) : bool := (48 <=? c)%N && (c <=? 57)%N.

(** [plain_host at_start letter_first host]: [at_start] at the beginning of
    a name, [letter_first] when the name being read began with a letter. *)
Fixpoint plain_host (at_start letter_first : bool) (host : jsstring) : bool :=
  match host with
  | [] => negb at_start && letter_first
  | c :: rest =>
      if N.eqb c 46 then negb at_start && plain_host true false rest
      else if is_lower c then plain_host false (at_start || letter_first) rest
      else if is_digit c then plain_host false (negb at_start && letter_first) rest
      else false
  end.

Definition plain_address (s : jsstring) : bool :=
  startsWith s (u "https://") && plain_host true false (skipn 8 s).

(** The destination is at a plain address, and so is the PDS any DID
    document of the world names: [migrate] builds its clients from these. *)
Definition plain_addresses (env : Env) (newPdsUrl : jsstring) : Prop :=
  plain_address newPdsUrl = true /\
  forall history did didDoc pds,
    env history (DocResolve did) = RDidDoc didDoc ->
    firstPds didDoc = Some pds -> plain_address pds = true.

(** The endpoints that can be read in the PLC logs of the world are plain
    addresses: [deactivateOldAccount] builds its client from one of them. *)
Definition plain_logs (env : Env) : Prop :=
  forall history url plcLog pds,
    env history (FetchPlcLog url) = RLog plcLog ->
    In (Some pds) plcLog -> plain_address pds = true.

Definition opt_eqb (a b : option jsstring) : bool :=
  match a, b with
  | Some x, Some y => str_eqb x y
  | None, None => true
  | _, _ => false
  end.

(** The calls of [migrate] up to the probe of the destination: the
    resolution by the entryway for a handle it hosts and by the two
    resolvers for any other, the source login with the handle, the password
    and the second factor of the caller, the probe. *)
Definition early_call (oldHandle password : jsstring) (twoFactorCode : option jsstring)
    (oldA newA : Agent) (did : jsstring) (c : Call) : bool :=
  match c with
  | ResolveHandle a handle =>
      agent_eqb a (mkAgent PublicAgent (u "https://public.api.bsky.app"))
      && str_eqb handle oldHandle && endsWith oldHandle (u ".bsky.social")
  | HandleResolve handle =>
      str_eqb handle oldHandle && negb (endsWith oldHandle (u ".bsky.social"))
  | DocResolve d => str_eqb d did && negb (endsWith oldHandle (u ".bsky.social"))
  | Login a identifier pw code =>
      agent_eqb a oldA && str_eqb identifier oldHandle && str_eqb pw password
      && opt_eqb code twoFactorCode
  | DescribeServer a => agent_eqb a newA
  | _ => false
  end.

(** From [s] to [s'] every call is one of [migrate_call]. *)
Definition routed (oldA newA : Agent) (did : jsstring) (k : Ending) (s s' : St) : Prop :=
  exists new,
    calls s' = calls s ++ new /\
    forallb (fun e => migrate_call oldA newA did (ev_call e)) new = true.

(** ** The flags *)

(** The six flags of an instance. *)
Definition flags_of (m : Migrator) : bool * bool * bool * bool * bool * bool :=
  (createNewAccount m, migrateRepo m, migrateBlobs m, migrateMissingBlobs m,
   migratePrefs m, migratePlcRecord m).

(** The kinds of call the flags of an instance let [migrate] make: the
    calls of a phase when its flag is set, and the calls no flag guards. *)
Definition allowed (m : Migrator) (op : Op) : bool :=
  match op with
  | OpResolveHandle | OpHandleResolve | OpDocResolve | OpLogin | OpDescribeServer
  | OpCheckAccountStatus => true
  | OpGetServiceAuth | OpCreateAccount => createNewAccount m
  | OpGetRepo | OpImportRepo => migrateRepo m
  | OpListBlobs => migrateBlobs m
  | OpGetBlob | OpUploadBlob => migrateBlobs m || migrateMissingBlobs m
  | OpListMissingBlobs => migrateMissingBlobs m
  | OpGetPreferences | OpPutPreferences => migratePrefs m
  | OpRequestPlcOperationSignature => migratePlcRecord m
  | OpGetRecommendedDidCredentials | OpSignPlcOperation | OpSubmitPlcOperation
  | OpActivateAccount | OpDeactivateAccount | OpFetchPlcLog => false
  end.

(** The flags are as they were, and the calls made are among those the
    flags of [m0] allow. *)
Definition within (m0 : Migrator) (s s' : St) : Prop :=
  flags_of (this s') = flags_of (this s) /\ emits (allowed m0) s s'.

(** A computation stays [within] the flags of [m0] from every state that
    has them. *)
Definition gated (m0 : Migrator) {A} (m : M A) : Prop :=
  forall env s, flags_of (this s) = flags_of m0 -> within m0 s (snd (m env s)).

(** ** Two runs side by side *)

(** A state without its status lines. *)
Definition mute (s : St) : St := mkSt (this s) (calls s) [].

(** The state of another instance at the same point of a run. *)
Definition reframe (m : Migrator) (s : St) : St := mkSt m (calls s) (said s).

(** [m'] does from the image of a state what [m] does from the state: the
    same ending, and the image of the state [m] ends in. *)
Definition mirrors (phi : St -> St) {A} (m m' : M A) : Prop :=
  forall env s, m' env (phi s) = (fst (m env s), phi (snd (m env s))).

(** ** A world without a last page *)

(** A world whose listings always come with the cursor [again]. *)
Definition endless : Env := fun h c =>
  match c with
  | ListBlobs _ _ _ _ => RCids [cidOf 1] (Some (u "again"))
  | ListMissingBlobs _ _ _ =>
      RMissing [mkRecordBlob (cidOf 1) (u "at://did:plc:alice/app.bsky.feed.post/1")]
               (Some (u "again"))
  | _ => happy h c
  end.

(** ** The calls of the handover *)

(** The calls of [signPlcOperation] for the source client [oldA] and the
    destination client [newA]. *)
Definition handover_call (oldA newA : Agent) (c : Call) : bool :=
  match c with
  | GetRecommendedDidCredentials a => agent_eqb a newA
  | SignPlcOperation a _ _ => agent_eqb a oldA
  | SubmitPlcOperation a _ => agent_eqb a newA
  | ActivateAccount a => agent_eqb a newA
  | DeactivateAccount a => agent_eqb a oldA
  | _ => false
  end.

(** ** Worlds in which a run goes through *)

(** Every call resolves, with an answer of the shape its result is read
    with. *)
Definition resolves (env : Env) : Prop :=
  forall history c, shape_ok c (env history c) = true.

(** The destination creates an account under the DID it is asked for. *)
Definition creates_as_asked (env : Env) : Prop :=
  forall history a req bearer,
    env history (CreateAccount a req bearer) = RCreated (car_did req).

(** The DID documents name a PDS. *)
Definition names_a_pds (env : Env) : Prop :=
  forall history did didDoc,
    env history (DocResolve did) = RDidDoc didDoc -> firstPds didDoc <> None.

(** The source serves every listing of blobs in at most [fuel] pages. *)
Definition lists_within (fuel : nat) (env : Env) : Prop :=
  forall a did, exists pages,
    paged env a did None pages /\ (List.length pages <= fuel)%nat.

(** The destination lists the missing blobs on one page. *)
Definition missing_on_one_page (env : Env) : Prop :=
  forall history a cursor blobs next,
    env history (ListMissingBlobs a cursor 100) = RMissing blobs next ->
    cursor_truthy next = false.

(** The destination recommends rotation keys the guard lets through: an
    array, a value that is truthy, or none at all. *)
Definition recommends_keys (env : Env) : Prop :=
  forall history a data ownToken,
    env history (GetRecommendedDidCredentials a) = recommendation data ownToken ->
    truthy (nullish_or (rotationKeys data) (JArr [])) = true.

(** The PLC logs hold a readable endpoint before the current PDS. *)
Definition logs_a_prior_pds (toLowerCase : jsstring -> jsstring) (env : Env) : Prop :=
  forall history history' did url didDoc currentPds plcLog,
    env history (DocResolve did) = RDidDoc didDoc ->
    firstPds didDoc = Some currentPds ->
    env history' (FetchPlcLog url) = RLog plcLog ->
    scanLog toLowerCase currentPds plcLog [] <> [].

(** In the world [env], from every state, a computation returns a value
    that satisfies [Q]. *)
Definition returns (env : Env) {A} (Q : A -> Prop) (m : M A) : Prop :=
  forall s, exists a s', m env s = (Ret a, s') /\ Q a.

(** What a call that resolved returned: an answer of its shape, given by
    the world. *)
Definition answer_of (env : Env) (c : Call) (r : Resp) : Prop :=
  shape_ok c r = true /\ exists history, r = env history c.

(** Any value will do. *)
Definition anything {A} (_ : A) : Prop := True.

(** ** Calls to the destination *)

(** The client a call goes through; the two resolvers and [fetch] have
    none. *)
Definition agent_of (c : Call) : option Agent :=
  match c with
  | ResolveHandle a _ | Login a _ _ _ | DescribeServer a | GetServiceAuth a _ _
  | CreateAccount a _ _ | GetRepo a _ | ImportRepo a _ | CheckAccountStatus a
  | ListBlobs a _ _ _ | GetBlob a _ _ | UploadBlob a _ _ | ListMissingBlobs a _ _
  | GetPreferences a | PutPreferences a _ | RequestPlcOperationSignature a
  | GetRecommendedDidCredentials a | SignPlcOperation a _ _ | SubmitPlcOperation a _
  | ActivateAccount a | DeactivateAccount a => Some a
  | HandleResolve _ | DocResolve _ | FetchPlcLog _ => None
  end.

(** A call through the client of the destination. *)
Definition to_destination (e : Event) : bool :=
  match agent_of (ev_call e) with
  | Some a => role_eqb (role a) NewAgent
  | None => false
  end.

(** ** Two instances with the same flags *)

(** The states of two runs, started on the instances [m0] and [m0'], that
    are at the same point: the same flags, the same calls with the same
    answers, the same status lines, and each list of missing blobs grown by
    the same entries. *)
Definition twin (m0 m0' : Migrator) (s s' : St) : Prop :=
  flags_of (this s) = flags_of (this s') /\
  calls s = calls s' /\
  said s = said s' /\
  exists extra,
    missingBlobs (this s) = missingBlobs m0 ++ extra /\
    missingBlobs (this s') = missingBlobs m0' ++ extra.

(** Two computations that take twin states to twin states, and end the
    same way. *)
Definition twins (m0 m0' : Migrator) {A} (m m' : M A) : Prop :=
  forall env s s',
    twin m0 m0' s s' ->
    fst (m env s) = fst (m' env s') /\ twin m0 m0' (snd (m env s)) (snd (m' env s')).

(** * Proofs *)

(** ** Running a bind *)

Lemma bind_ret_run {A B} (m : M A) (k : A -> M B) env s a s1 :
  m env s = (Ret a, s1) -> bind m k env s = k a env s1.
Proof. intros H. unfold bind. rewrite H. reflexivity. Qed.

Lemma bind_throw_run {A B} (m : M A) (k : A -> M B) env s e s1 :
  m env s = (Throw e, s1) -> bind m k env s = (Throw e, s1).
Proof. intros H. unfold bind. rewrite H. reflexivity. Qed.

Lemma bind_fuel_run {A B} (m : M A) (k : A -> M B) env s s1 :
  m env s = (OutOfFuel, s1) -> bind m k env s = (OutOfFuel, s1).
Proof. intros H. unfold bind. rewrite H. reflexivity. Qed.

(** ** Relations kept along a run *)

Section Steps.

Variable R : St -> St -> Prop.
Variable okop : Op -> bool.
Hypothesis R_refl : forall s, R s s.
Hypothesis R_trans : forall a b c, R a b -> R b c -> R a c.
Hypothesis R_told : forall s status, R s (told s status).
Hypothesis R_logged : forall c, okop (op_of c) = true -> forall s r, R s (logged s c r).

Lemma steps_ret {A} (a : A) : steps R (ret a).
Proof. intros env s. apply R_refl. Qed.

Lemma steps_throw {A} (e : Exn) : steps R (@throw A e).
Proof. intros env s. apply R_refl. Qed.

Lemma steps_diverge {A} : steps R (@diverge A).
Proof. intros env s. apply R_refl. Qed.

Lemma steps_get_this : steps R get_this.
Proof. intros env s. apply R_refl. Qed.

Lemma steps_bind {A B} (m : M A) (k : A -> M B) :
  steps R m -> (forall a, steps R (k a)) -> steps R (bind m k).
Proof.
  intros Hm Hk env s. unfold bind. specialize (Hm env s).
  destruct (m env s) as [[a| e |] s1]; simpl in *; auto.
  eapply R_trans; [exact Hm | apply Hk].
Qed.

Lemma steps_try {A} (body : M A) (handler : Exn -> M A) :
  steps R body -> (forall e, steps R (handler e)) -> steps R (try_catch body handler).
Proof.
  intros Hm Hk env s. unfold try_catch. specialize (Hm env s).
  destruct (body env s) as [[a| e |] s1]; simpl in *; auto.
  eapply R_trans; [exact Hm | apply Hk].
Qed.

Lemma steps_call c : okop (op_of c) = true -> steps R (call c).
Proof. intros H env s. unfold call. simpl. apply R_logged; assumption. Qed.

Lemma steps_say h status : steps R (safeStatusUpdate h status).
Proof.
  intros env s. unfold safeStatusUpdate. destruct h; simpl; [apply R_told | apply R_refl].
Qed.

Lemma steps_deref {A} (a : option A) : steps R (deref a).
Proof. destruct a; [apply steps_ret | apply steps_throw]. Qed.

Lemma steps_when flag body : steps R body -> steps R (when flag body).
Proof. intros H. destruct flag; [exact H | apply steps_ret]. Qed.

Lemma steps_if {A} (b : bool) (m1 m2 : M A) :
  steps R m1 -> steps R m2 -> steps R (if b then m1 else m2).
Proof. destruct b; auto. Qed.


Lemma steps_expect {A} (pick : Resp -> option A) r : steps R (expect pick r).
Proof. unfold expect. destruct (pick r); [apply steps_ret | apply steps_throw]. Qed.

(** The structure of a computation is followed mechanically; what is left
    are the calls, to be let through by [okop]. *)
Ltac steps_go :=
  repeat first
    [ apply steps_ret | apply steps_throw | apply steps_diverge
    | apply steps_get_this | apply steps_say | apply steps_deref
    | apply steps_bind | apply steps_try | apply steps_when
    | apply steps_call; simpl; assumption
    | apply steps_expect
    | match goal with
      | |- forall _, steps _ _ => intro
      | |- steps _ (if ?b then _ else _) => destruct b
      | |- steps _ (let (_, _) := ?x in _) => destruct x
      end ].

Ltac allowed H :=
  simpl in H; repeat rewrite andb_true_iff in H;
  repeat match goal with H' : _ /\ _ |- _ => destruct H' end.

Lemma steps_login a identifier password twoFactorCode :
  okop OpLogin = true -> steps R (login a identifier password twoFactorCode).
Proof. intros H. unfold login. steps_go. Qed.

Lemma steps_getBlob a did cid :
  okop OpGetBlob = true -> steps R (getBlob a did cid).
Proof. intros H. unfold getBlob. steps_go. Qed.

Lemma steps_uploadBlob a data encoding :
  okop OpUploadBlob = true -> steps R (uploadBlob a data encoding).
Proof. intros H. unfold uploadBlob. steps_go. Qed.

Lemma steps_checkAccountStatus a :
  okop OpCheckAccountStatus = true -> steps R (checkAccountStatus a).
Proof. intros H. unfold checkAccountStatus. steps_go. Qed.

Lemma steps_findPds didDoc : steps R (findPds didDoc).
Proof.
  unfold findPds. destruct (doc_service didDoc) as [services|]; [|steps_go].
  destruct (filter _ services); steps_go.
Qed.

Lemma steps_resolveSource h oldHandle :
  forallb okop [OpResolveHandle; OpHandleResolve; OpDocResolve] = true ->
  steps R (resolveSource h oldHandle).
Proof.
  intros H. allowed H. unfold resolveSource.
  steps_go; try apply steps_findPds.
Qed.

Lemma steps_beforeCreate h oldHandle password newPdsUrl twoFactorCode :
  forallb okop [OpResolveHandle; OpHandleResolve; OpDocResolve; OpLogin;
                OpDescribeServer] = true ->
  steps R (beforeCreate h oldHandle password newPdsUrl twoFactorCode).
Proof.
  intros H. pose proof H as H'. allowed H. unfold beforeCreate.
  apply steps_bind.
  - apply steps_resolveSource. simpl. rewrite H, H0, H1. reflexivity.
  - steps_go.
Qed.

Lemma steps_createAccountPhase h oldA newA did webDid pw email handle invite :
  forallb okop [OpGetServiceAuth; OpCreateAccount] = true ->
  steps R (createAccountPhase h oldA newA did webDid pw email handle invite).
Proof.
  intros H. allowed H. unfold createAccountPhase. steps_go.
Qed.

Lemma steps_repoPhase h oldA newA did :
  forallb okop [OpGetRepo; OpImportRepo] = true ->
  steps R (repoPhase h oldA newA did).
Proof. intros H. allowed H. unfold repoPhase. steps_go. Qed.

Lemma steps_uploadPage h oldA newA did expected cids n :
  forallb okop [OpGetBlob; OpUploadBlob] = true ->
  steps R (uploadPage h oldA newA did expected cids n).
Proof.
  intros H. allowed H. revert n.
  induction cids as [|cid rest IH]; intros n; simpl.
  - steps_go.
  - apply steps_bind; [|intros; apply IH].
    steps_go.
Qed.

Lemma steps_blobLoop fuel h oldA newA did expected cursor n :
  forallb okop [OpListBlobs; OpGetBlob; OpUploadBlob] = true ->
  steps R (blobLoop fuel h oldA newA did expected cursor n).
Proof.
  intros H. pose proof H as H'. allowed H. revert cursor n.
  induction fuel as [|fuel IH]; intros cursor n; simpl.
  - steps_go.
  -       apply steps_bind; [steps_go|intros _].
    apply steps_bind; [steps_go|intros r].
    apply steps_bind; [steps_go|intros listed].
    apply steps_bind.
    + apply steps_uploadPage. simpl. rewrite H0, H1. reflexivity.
    + intros n'. destruct (cursor_truthy (snd listed)); [apply IH | steps_go].
Qed.

Lemma steps_retryPage h oldA newA did total blobs n :
  forallb okop [OpGetBlob; OpUploadBlob] = true ->
  (forall cid, steps R (push_missing cid)) ->
  steps R (retryPage h oldA newA did total blobs n).
Proof.
  intros H Hpush. allowed H. revert n.
  induction blobs as [|b rest IH]; intros n; simpl.
  - steps_go.
  - apply steps_bind; [|intros; apply IH].
    steps_go; apply Hpush.
Qed.

Lemma steps_retryLoop fuel h oldA newA did total cursor n :
  forallb okop [OpListMissingBlobs; OpGetBlob; OpUploadBlob] = true ->
  (forall cid, steps R (push_missing cid)) ->
  steps R (retryLoop fuel h oldA newA did total cursor n).
Proof.
  intros H Hpush. pose proof H as H'. allowed H. revert cursor n.
  induction fuel as [|fuel IH]; intros cursor n; simpl.
  - steps_go.
  -       apply steps_bind; [steps_go|intros _].
    apply steps_bind; [steps_go|intros r].
    apply steps_bind; [steps_go|intros listed].
    apply steps_bind.
    + apply steps_retryPage; [|exact Hpush]. simpl. rewrite H0, H1. reflexivity.
    + intros n'. destruct (cursor_truthy (snd listed)); [apply IH | steps_go].
Qed.

Lemma steps_reconcilePhase fuel h oldA newA did :
  forallb okop [OpCheckAccountStatus; OpListMissingBlobs; OpGetBlob;
                OpUploadBlob] = true ->
  (forall cid, steps R (push_missing cid)) ->
  steps R (reconcilePhase fuel h oldA newA did).
Proof.
  intros H Hpush. allowed H. unfold reconcilePhase.
  apply steps_bind; [apply steps_checkAccountStatus; assumption|].
  intros [[a e] i]. destruct (negb (e =? i)%Z); [|steps_go].
  apply steps_bind; [steps_go|intros _].
  apply steps_retryLoop; [|exact Hpush]. simpl. rewrite H0, H1, H2. reflexivity.
Qed.

Lemma steps_loginAndSync fuel h oldA newA did pw :
  forallb okop [OpLogin; OpGetRepo; OpImportRepo; OpCheckAccountStatus;
                OpListBlobs; OpGetBlob; OpUploadBlob] = true ->
  steps R (loginAndSync fuel h oldA newA did pw).
Proof.
  intros H. allowed H. unfold loginAndSync, blobPhase.
  steps_go.
  apply steps_blobLoop; simpl; rewrite H3, H4, H5; reflexivity.
Qed.

Lemma steps_prefsPhase oldA newA :
  forallb okop [OpGetPreferences; OpPutPreferences] = true ->
  steps R (prefsPhase oldA newA).
Proof. intros H. allowed H. unfold prefsPhase. steps_go. Qed.

Lemma steps_plcPhase h oldA :
  okop OpRequestPlcOperationSignature = true -> steps R (plcPhase h oldA).
Proof. intros H. unfold plcPhase. steps_go. Qed.

Lemma steps_finish h oldA newA :
  forallb okop [OpGetPreferences; OpPutPreferences;
                OpRequestPlcOperationSignature] = true ->
  (forall a b, steps R (storeAgents a b)) ->
  steps R (finish h oldA newA).
Proof.
  intros H Hstore. allowed H. unfold finish.
  steps_go. apply Hstore.
Qed.

Lemma steps_afterCreate fuel h oldA newA did pw :
  forallb okop [OpLogin; OpGetRepo; OpImportRepo; OpCheckAccountStatus;
                OpListBlobs; OpGetBlob; OpUploadBlob; OpListMissingBlobs;
                OpGetPreferences; OpPutPreferences;
                OpRequestPlcOperationSignature] = true ->
  (forall cid, steps R (push_missing cid)) ->
  (forall a b, steps R (storeAgents a b)) ->
  steps R (afterCreate fuel h oldA newA did pw).
Proof.
  intros H Hpush Hstore. allowed H. unfold afterCreate.
  apply steps_bind; [|intros _; apply steps_bind; [steps_go|intros m]; apply steps_bind].
  - apply steps_loginAndSync. simpl.
    rewrite H, H0, H1, H2, H3, H4, H5. reflexivity.
  - apply steps_when. apply steps_reconcilePhase; [|exact Hpush]. simpl.
    rewrite H2, H6, H4, H5. reflexivity.
  - intros _. apply steps_finish; [|exact Hstore]. simpl.
    rewrite H7, H8, H9. reflexivity.
Qed.

Lemma steps_migrate fuel oldHandle pw url email handle invite h tfc :
  (forall op, okop op = true) ->
  (forall cid, steps R (push_missing cid)) ->
  (forall a b, steps R (storeAgents a b)) ->
  steps R (migrate fuel oldHandle pw url email handle invite h tfc).
Proof.
  intros H Hpush Hstore. unfold migrate.
  apply steps_bind.
  - apply steps_beforeCreate. simpl. rewrite !H. reflexivity.
  - intros [[[oldA newA] did] webDid].
    apply steps_bind; [steps_go|intros m]. apply steps_bind.
    + apply steps_when. apply steps_createAccountPhase. simpl. rewrite !H. reflexivity.
    + intros _. apply steps_afterCreate; auto. simpl. rewrite !H. reflexivity.
Qed.

Lemma steps_signPlcOperation token :
  (forall op, okop op = true) -> steps R (signPlcOperation token).
Proof.
  intros H. unfold signPlcOperation.
  assert (Hc : forall c, okop (op_of c) = true) by (intros; apply H).
  steps_go; apply steps_call; apply Hc.
Qed.

Lemma steps_deactivatePrior h oldHandle pw tfc currentPds prior :
  (forall op, okop op = true) ->
  steps R (deactivatePrior h oldHandle pw tfc currentPds prior).
Proof.
  intros H. unfold deactivatePrior.
  assert (Hc : forall c, okop (op_of c) = true) by (intros; apply H).
  steps_go; apply steps_call; apply Hc.
Qed.

Lemma steps_deactivateOldAccount lower oldHandle pw h tfc :
  (forall op, okop op = true) ->
  steps R (deactivateOldAccount lower oldHandle pw h tfc).
Proof.
  intros H. unfold deactivateOldAccount, scanAndDeactivate, resolveDid.
  assert (Hc : forall c, okop (op_of c) = true) by (intros; apply H).
  steps_go;
    first [ apply steps_findPds | apply steps_deactivatePrior; exact H
          | apply steps_call; apply Hc ].
Qed.

End Steps.

(** ** The three relations *)

Lemma grows_refl s : grows s s.
Proof. exists []. symmetry. apply app_nil_r. Qed.

Lemma grows_trans a b c : grows a b -> grows b c -> grows a c.
Proof.
  intros [x Hx] [y Hy]. exists (x ++ y). rewrite Hy, Hx. symmetry. apply app_assoc.
Qed.

Lemma grows_told s status : grows s (told s status).
Proof. exists []. simpl. symmetry. apply app_nil_r. Qed.

Lemma grows_logged c : anyop (op_of c) = true -> forall s r, grows s (logged s c r).
Proof. intros _ s r. exists []. simpl. symmetry. apply app_nil_r. Qed.

Lemma grows_push cid : steps grows (push_missing cid).
Proof. intros env s. exists [cid]. reflexivity. Qed.

Lemma grows_store a b : steps grows (storeAgents a b).
Proof. intros env s. exists []. simpl. symmetry. apply app_nil_r. Qed.

Lemma emits_refl Q s : emits Q s s.
Proof. exists []. split; [symmetry; apply app_nil_r | reflexivity]. Qed.

Lemma emits_trans Q a b c : emits Q a b -> emits Q b c -> emits Q a c.
Proof.
  intros [x [Hx Qx]] [y [Hy Qy]]. exists (x ++ y). split.
  - rewrite Hy, Hx. symmetry. apply app_assoc.
  - rewrite forallb_app, Qx, Qy. reflexivity.
Qed.

Lemma emits_told Q s status : emits Q s (told s status).
Proof. exists []. split; [simpl; symmetry; apply app_nil_r | reflexivity]. Qed.

Lemma emits_logged Q c : Q (op_of c) = true -> forall s r, emits Q s (logged s c r).
Proof.
  intros H s r. exists [Ev c r]. split; [reflexivity|].
  simpl. unfold ev_op. simpl. rewrite H. reflexivity.
Qed.

Lemma emits_push Q cid : steps (emits Q) (push_missing cid).
Proof.
  intros env s. exists []. split; [simpl; symmetry; apply app_nil_r | reflexivity].
Qed.

Lemma emits_store Q a b : steps (emits Q) (storeAgents a b).
Proof.
  intros env s. exists []. split; [simpl; symmetry; apply app_nil_r | reflexivity].
Qed.

Lemma same_agents_refl s : same_agents s s.
Proof. split; reflexivity. Qed.

Lemma same_agents_trans a b c : same_agents a b -> same_agents b c -> same_agents a c.
Proof. intros [H1 H2] [H3 H4]. split; congruence. Qed.

Lemma same_agents_told s status : same_agents s (told s status).
Proof. split; reflexivity. Qed.

Lemma same_agents_logged c :
  anyop (op_of c) = true -> forall s r, same_agents s (logged s c r).
Proof. intros _ s r. split; reflexivity. Qed.

Lemma same_agents_push cid : steps same_agents (push_missing cid).
Proof. intros env s. split; reflexivity. Qed.

Lemma same_this_refl s : same_this s s.
Proof. reflexivity. Qed.

Lemma same_this_trans a b c : same_this a b -> same_this b c -> same_this a c.
Proof. unfold same_this. congruence. Qed.

Lemma same_this_told s status : same_this s (told s status).
Proof. reflexivity. Qed.

Lemma same_this_logged c :
  anyop (op_of c) = true -> forall s r, same_this s (logged s c r).
Proof. reflexivity. Qed.

(** ** The list of missing blobs *)

(** C9: no operation of the instance removes or resets an entry of
    [this.missingBlobs].  From any state, [migrate] leaves the list it found
    as a prefix of the list it ends with, whatever the world answers and
    however the run ends; [signPlcOperation] and [deactivateOldAccount] do
    not touch it.  A later run starts from the list the earlier one left. *)
Theorem missingBlobs_append_only :
  forall (env : Env) (s : St),
    (forall fuel oldHandle password newPdsUrl newEmail newHandle inviteCode
            statusUpdateHandler twoFactorCode,
        exists extra,
          missingBlobs (this (snd (migrate fuel oldHandle password newPdsUrl newEmail
                                     newHandle inviteCode statusUpdateHandler
                                     twoFactorCode env s)))
          = missingBlobs (this s) ++ extra) /\
    (forall token,
        missingBlobs (this (snd (signPlcOperation token env s)))
        = missingBlobs (this s)) /\
    (forall toLowerCase oldHandle oldPassword statusUpdateHandler twoFactorCode,
        missingBlobs (this (snd (deactivateOldAccount toLowerCase oldHandle oldPassword
                                   statusUpdateHandler twoFactorCode env s)))
        = missingBlobs (this s)).
Proof.
  intros env s. repeat split.
  - intros. eapply steps_migrate with (R := grows) (okop := anyop);
      eauto using grows_refl, grows_trans, grows_told, grows_logged, grows_push,
        grows_store.
  - intros. f_equal. eapply steps_signPlcOperation with (R := same_this) (okop := anyop);
      eauto using same_this_refl, same_this_trans, same_this_told, same_this_logged.
  - intros. f_equal.
    eapply steps_deactivateOldAccount with (R := same_this) (okop := anyop);
      eauto using same_this_refl, same_this_trans, same_this_told, same_this_logged.
Qed.

(** ** Straight-line runs *)

(** Unfolds the monad, and nothing else. *)
Ltac run_monad :=
  cbv beta iota zeta delta
    [bind call ret throw diverge get_this set_this try_catch safeStatusUpdate
     deref when login getBlob uploadBlob checkAccountStatus push_missing
     storeAgents expect as_void as_did as_doc as_describe as_token as_created as_repo
     as_status as_cids as_blob as_missing as_prefs as_creds as_signed as_log
     fst snd this calls said start oldAgent newAgent missingBlobs
     createNewAccount migrateRepo migrateBlobs migrateMissingBlobs migratePrefs
     migratePlcRecord];
  cbn [coerce shape_ok].

(** Runs a straight-line computation against an arbitrary world: every
    answer is taken apart, every test on an answer is split. *)
Ltac exec env :=
  repeat (run_monad;
          match goal with
          | |- context [coerce ?c (env ?h ?c)] =>
              let E := fresh "E" in destruct (env h c) eqn:E
          | |- context [(if ?b then _ else _) env] =>
              let E := fresh "E" in destruct b eqn:E
          end); run_monad.

(** ** [signPlcOperation] *)

(** The calls of [signPlcOperation]: either it never reaches the
    deactivation, or it made its five calls, the activation of the
    destination right before the deactivation of the source. *)
Lemma signPlcOperation_calls env m token :
  let evs := calls (snd (signPlcOperation token env (start m))) in
  forallb (fun e => except OpDeactivateAccount (ev_op e)) evs = true \/
  exists oldA newA e1 e2 e3 r,
    oldAgent m = Some oldA /\ newAgent m = Some newA /\
    evs = [e1; e2; e3; Ev (ActivateAccount newA) RVoid; Ev (DeactivateAccount oldA) r] /\
    forallb (fun e => except OpDeactivateAccount (ev_op e)) [e1; e2; e3] = true.
Proof.
  destruct m as [[oa|] [na|] mb f1 f2 f3 f4 f5 f6]; try (left; reflexivity).
  - unfold signPlcOperation, start. exec env; try (left; reflexivity);
      right; do 6 eexists; repeat split; reflexivity.
  - unfold signPlcOperation, start. exec env; left; reflexivity.
Qed.

(** C6: in every run of [signPlcOperation], whatever the world answers, a
    call of [deactivateAccount] is made on the source only after
    [activateAccount] on the destination has been called and has resolved:
    the source is never deactivated before the destination is active. *)
Theorem activate_before_deactivate :
  forall (env : Env) (m : Migrator) (token : jsstring) pre e post,
    calls (snd (signPlcOperation token env (start m))) = pre ++ e :: post ->
    ev_op e = OpDeactivateAccount ->
    exists oldA newA,
      oldAgent m = Some oldA /\ newAgent m = Some newA /\
      ev_call e = DeactivateAccount oldA /\
      In (Ev (ActivateAccount newA) RVoid) pre.
Proof.
  intros env m token pre e post H He.
  destruct (signPlcOperation_calls env m token) as [Hno | Hall].
  - cbv zeta in Hno. rewrite H, forallb_app in Hno. simpl in Hno.
    rewrite He in Hno. simpl in Hno. rewrite andb_false_r in Hno. discriminate.
  - destruct Hall as (oldA & newA & e1 & e2 & e3 & r & Ho & Hn & Hev & Hq).
    rewrite H in Hev. exists oldA, newA.
    simpl in Hq. repeat rewrite andb_true_iff in Hq.
    destruct Hq as (Q1 & Q2 & Q3 & _).
    assert (Hsplit : pre = [e1; e2; e3; Ev (ActivateAccount newA) RVoid] /\
                     e = Ev (DeactivateAccount oldA) r).
    { destruct pre as [|x1 [|x2 [|x3 [|x4 [|x5 pre']]]]]; simpl in Hev;
        injection Hev; intros; subst;
        try (rewrite He in *; simpl in *; discriminate);
        try (simpl in He; discriminate); try (split; reflexivity).
      destruct pre'; discriminate. }
    destruct Hsplit as [Hpre Hd]. rewrite Hpre, Hd.
    repeat split; try assumption. simpl. auto.
Qed.

(** The five calls of a run in which every call succeeds. *)
Lemma activate_before_deactivate_witness :
  exists oldA newA,
    oldAgent migrated = Some oldA /\ newAgent migrated = Some newA /\
    DeactivateAccount bsky = DeactivateAccount oldA /\
    In (Ev (ActivateAccount newA) RVoid)
       (firstn 4 (calls (snd (signPlcOperation (u "token") happy (start migrated))))).
Proof.
  apply (@activate_before_deactivate happy migrated (u "token")
           (firstn 4 (calls (snd (signPlcOperation (u "token") happy (start migrated)))))
           (Ev (DeactivateAccount bsky) RVoid)
           []).
  - reflexivity.
  - reflexivity.
Defined.

(** C1: the guard on the rotation keys never fires for missing keys.  When
    the destination recommends credentials whose [rotationKeys] field is
    absent, [null] or the empty array, [signPlcOperation] does not throw 'No
    rotation key provided from the new PDS': its next call asks the source
    to sign the operation with [rotationKeys: []]. *)
Theorem signPlcOperation_signs_without_rotation_keys :
  forall env m token oldA newA keys others,
    oldAgent m = Some oldA -> newAgent m = Some newA ->
    keys = JUndefined \/ keys = JNull \/ keys = JArr [] ->
    env [] (GetRecommendedDidCredentials newA) = RCreds (mkDidCredentials keys others) ->
    fst (signPlcOperation token env (start m))
    <> Throw (JsError "No rotation key provided from the new PDS") /\
    exists answer rest,
      calls (snd (signPlcOperation token env (start m)))
      = Ev (GetRecommendedDidCredentials newA) (RCreds (mkDidCredentials keys others))
        :: Ev (SignPlcOperation oldA token (mkDidCredentials (JArr []) others)) answer
        :: rest.
Proof.
  intros env m token oldA newA keys others Ho Hn Hk He.
  destruct m as [oa na mb f1 f2 f3 f4 f5 f6]. simpl in Ho, Hn. subst oa na.
  assert (Hkeys : nullish_or keys (JArr []) = JArr []).
  { destruct Hk as [-> | [-> | ->]]; reflexivity. }
  unfold signPlcOperation, start. run_monad. rewrite He. run_monad.
  cbn [rotationKeys otherCredentials]. rewrite Hkeys. cbn [truthy negb]. exec env; (split; [discriminate|]); do 2 eexists; reflexivity.
Qed.

(** A destination that recommends credentials without the field. *)
Lemma signPlcOperation_signs_without_rotation_keys_witness :
  fst (signPlcOperation (u "token") (noRotationKeys true) (start migrated))
  <> Throw (JsError "No rotation key provided from the new PDS") /\
  exists answer rest,
    calls (snd (signPlcOperation (u "token") (noRotationKeys true) (start migrated)))
    = Ev (GetRecommendedDidCredentials newPds)
         (RCreds (mkDidCredentials JUndefined (u "rest")))
      :: Ev (SignPlcOperation bsky (u "token") (mkDidCredentials (JArr []) (u "rest")))
            answer
      :: rest.
Proof.
  apply (@signPlcOperation_signs_without_rotation_keys (noRotationKeys true) migrated
           (u "token") bsky newPds JUndefined (u "rest")).
  - reflexivity.
  - reflexivity.
  - left. reflexivity.
  - reflexivity.
Defined.

(** The whole run, with the field absent and with the empty array: the
    operation is signed and submitted, the destination activated, the source
    deactivated. *)
Lemma handover_without_rotation_keys :
  forall absent : bool,
    fst (signPlcOperation (u "token") (noRotationKeys absent) (start migrated)) = Ret tt /\
    calls_of (snd (signPlcOperation (u "token") (noRotationKeys absent) (start migrated)))
    = [ GetRecommendedDidCredentials newPds;
        SignPlcOperation bsky (u "token") (mkDidCredentials (JArr []) (u "rest"));
        SubmitPlcOperation newPds (u "signed-op");
        ActivateAccount newPds;
        DeactivateAccount bsky ].
Proof. intros [|]; split; reflexivity. Qed.

(** The test [!rotationKeys] after [?? []] is true for no value that is
    absent or an array. *)
Lemma rotation_guard_dead keys :
  keys = JUndefined \/ keys = JNull \/ (exists items, keys = JArr items) ->
  negb (truthy (nullish_or keys (JArr []))) = false.
Proof. intros [-> | [-> | [items ->]]]; reflexivity. Qed.

(** ** When the clients are stored *)

Lemma late_of_steps {A} (m : M A) : steps same_agents m -> late m.
Proof. intros H env s. right. right. apply H. Qed.

Lemma late_bind {A B} (m : M A) (k : A -> M B) :
  steps same_agents m -> steps (emits anyop) m -> (forall a, late (k a)) ->
  late (bind m k).
Proof.
  intros Hs He Hk env s. specialize (Hs env s). specialize (He env s).
  unfold bind. destruct (m env s) as [[a|e|] s1]; simpl in *.
  - destruct (Hk a env s1) as [Hr | [Hq | Ha]].
    + left. exact Hr.
    + right. left. destruct He as [new1 [E1 _]]. destruct Hq as [new2 [E2 Q2]].
      exists (new1 ++ new2). split.
      * rewrite E2, E1. symmetry. apply app_assoc.
      * rewrite existsb_app, Q2. apply orb_true_r.
    + right. right. eapply same_agents_trans; eassumption.
  - right. right. exact Hs.
  - right. right. exact Hs.
Qed.

Lemma finish_late h oldA newA : late (finish h oldA newA).
Proof.
  intros env [[oa na mb f1 f2 f3 f4 [|] [|]] cs sd]; destruct h;
    unfold finish, prefsPhase, plcPhase, storeAgents; exec env;
    first [ left; eexists; reflexivity
          | right; right; split; reflexivity
          | right; left; eexists; split;
            [ repeat rewrite <- app_assoc; reflexivity | reflexivity ] ].
Qed.

(** What the phases before [finish] have in common: they go through the
    generic lemmas for any of the relations. *)
Ltac by_steps rel :=
  first [ eapply steps_beforeCreate with (R := rel) (okop := anyop)
        | eapply steps_loginAndSync with (R := rel) (okop := anyop)
        | eapply steps_get_this with (R := rel)
        | eapply steps_when with (R := rel);
          [ | first [ eapply steps_createAccountPhase with (R := rel) (okop := anyop)
                    | eapply steps_reconcilePhase with (R := rel) (okop := anyop) ] ] ];
  eauto using same_agents_refl, same_agents_trans, same_agents_told,
    same_agents_logged, same_agents_push, emits_refl, emits_trans, emits_told,
    emits_logged, emits_push.

Ltac quiet_phase :=
  apply late_bind; [ by_steps same_agents | by_steps (emits anyop) | intros ].

Lemma migrate_late fuel oldHandle pw url email handle invite h tfc :
  late (migrate fuel oldHandle pw url email handle invite h tfc).
Proof.
  unfold migrate. quiet_phase.
  destruct a as [[[oldA newA] did] webDid].
  do 2 quiet_phase. unfold afterCreate. do 3 quiet_phase.
  apply finish_late.
Qed.

Lemma forallb_existsb_absurd {A} (p : A -> bool) l :
  forallb (fun x => negb (p x)) l = true -> existsb p l = true -> False.
Proof.
  induction l as [|x l IH]; simpl; [discriminate|].
  destruct (p x); simpl; [discriminate | exact IH].
Qed.

Lemma signPlcOperation_null token env s :
  newAgent (this s) = None -> signPlcOperation token env s = (Throw TypeError, s).
Proof.
  intros H. unfold signPlcOperation, bind, get_this. rewrite H. reflexivity.
Qed.

(** C10: on an instance whose two clients are still [null],
    [signPlcOperation] fails on its first line with a [TypeError], without a
    single remote call.  [migrate] assigns the two clients only after the
    preferences phase: a run that neither returned nor reached the request
    for the PLC token leaves them as they were, so [signPlcOperation] on the
    instance it leaves fails the same way. *)
Theorem signPlcOperation_without_sessions :
  forall m : Migrator,
    oldAgent m = None -> newAgent m = None ->
    (forall token env,
        signPlcOperation token env (start m) = (Throw TypeError, start m)) /\
    (forall fuel oldHandle password newPdsUrl newEmail newHandle inviteCode
            statusUpdateHandler twoFactorCode env,
        let r := migrate fuel oldHandle password newPdsUrl newEmail newHandle
                   inviteCode statusUpdateHandler twoFactorCode env (start m) in
        fst r <> Ret tt ->
        forallb (fun e => except OpRequestPlcOperationSignature (ev_op e))
                (calls (snd r)) = true ->
        forall token env',
          signPlcOperation token env' (start (this (snd r)))
          = (Throw TypeError, start (this (snd r)))).
Proof.
  intros m Ho Hn. split.
  - intros token env. apply signPlcOperation_null. exact Hn.
  - intros fuel oldHandle password newPdsUrl newEmail newHandle inviteCode
      statusUpdateHandler twoFactorCode env r Hr Hq token env'.
    destruct (@migrate_late fuel oldHandle password newPdsUrl newEmail newHandle
                inviteCode statusUpdateHandler twoFactorCode env (start m))
      as [[a Ha] | [[new [E Q]] | [_ Hna]]]; subst r.
    + destruct a. contradiction.
    + simpl in E. rewrite E in Hq. exfalso.
      exact (forallb_existsb_absurd _ _ Hq Q).
    + apply signPlcOperation_null. simpl. rewrite Hna. exact Hn.
Qed.

(** On a fresh instance, and on the instance a run leaves whose source
    login was refused. *)
Lemma signPlcOperation_without_sessions_witness :
  signPlcOperation (u "token") happy (start newMigrator)
  = (Throw TypeError, start newMigrator) /\
  signPlcOperation (u "token") happy
    (start (this (snd (migrate 1 (u "alice.example.com") (u "pw")
                         (u "https://new.example") (u "a@b.c")
                         (u "alice.new.example") None true None
                         loginRefused (start newMigrator)))))
  = (Throw TypeError, start newMigrator).
Proof.
  destruct (@signPlcOperation_without_sessions newMigrator eq_refl eq_refl)
    as [H1 H2].
  split.
  - apply H1.
  - apply (H2 1%nat (u "alice.example.com") (u "pw") (u "https://new.example")
             (u "a@b.c") (u "alice.new.example") None true None loginRefused).
    + vm_compute. discriminate.
    + vm_compute. reflexivity.
Defined.

(** ** Strings *)

Lemma str_eqb_refl a : str_eqb a a = true.
Proof. induction a as [|x a IH]; simpl; [reflexivity|]. rewrite N.eqb_refl. exact IH. Qed.

Lemma str_eqb_eq a b : str_eqb a b = true <-> a = b.
Proof.
  split.
  - revert b. induction a as [|x a IH]; intros [|y b]; simpl; try discriminate; auto.
    rewrite andb_true_iff. intros [Hx Hab]. apply N.eqb_eq in Hx. subst y.
    f_equal. apply IH. exact Hab.
  - intros ->. apply str_eqb_refl.
Qed.

(** A handle as copied from the web page: a direction mark, the [@], a
    closing mark and a blank. *)
Example normalizeHandle_copied :
  normalizeHandle ([8234%N] ++ u "@alice.bsky.social" ++ [8236%N; 32%N])
  = u "alice.bsky.social".
Proof. reflexivity. Qed.

(** ** [deactivateOldAccount] *)

Section DeactivationFacts.

Variable toLowerCase : jsstring -> jsstring.

(** The candidate the scan returns was never the current endpoint: the
    test on line 329 cannot fire on what lines 302-315 computed. *)
Lemma scanLog_never_current currentPds plcLog prior :
  prior = [] \/ str_eqb (toLowerCase prior) (toLowerCase currentPds) = false ->
  scanLog toLowerCase currentPds plcLog prior = [] \/
  str_eqb (scanLog toLowerCase currentPds plcLog prior) currentPds = false.
Proof.
  revert prior. induction plcLog as [|[pds|] rest IH]; intros prior H; simpl.
  - destruct H as [-> | H]; [left; reflexivity|]. right.
    destruct (str_eqb prior currentPds) eqn:E; [|reflexivity].
    apply str_eqb_eq in E. subst prior. rewrite str_eqb_refl in H. discriminate.
  - destruct (str_eqb (toLowerCase pds) (toLowerCase currentPds)) eqn:E.
    + destruct H as [-> | H]; [left; reflexivity|]. right.
      destruct (str_eqb prior currentPds) eqn:E'; [|reflexivity].
      apply str_eqb_eq in E'. subst prior. rewrite str_eqb_refl in H. discriminate.
    + apply IH. right. exact E.
  - apply IH. exact H.
Qed.

(** C7: the scan of the change log and what follows it.  On a log
    [[A; B; C]] whose last entry is the current endpoint, and whose first
    two are not, the endpoint computed is [B].  On a log whose first entry
    is the current endpoint the workflow throws 'Could not find the PDS
    before the current one' before any login.  When the endpoint computed
    is the current one, the workflow logs in and throws 'This is your
    current PDS...', another message, and never calls
    [deactivateAccount]. *)
Theorem deactivation_prior_endpoint :
  (forall currentPds A B C,
      C = currentPds ->
      str_eqb (toLowerCase A) (toLowerCase currentPds) = false ->
      str_eqb (toLowerCase B) (toLowerCase currentPds) = false ->
      scanLog toLowerCase currentPds [Some A; Some B; Some C] [] = B) /\
  (forall currentPds first rest statusUpdateHandler oldHandle oldPassword
          twoFactorCode env s,
      first = currentPds \/
      str_eqb (toLowerCase first) (toLowerCase currentPds) = true ->
      scanAndDeactivate toLowerCase statusUpdateHandler oldHandle oldPassword
        twoFactorCode currentPds (Some first :: rest) env s
      = (Throw (JsError "Could not find the PDS before the current one"), s)) /\
  (forall currentPds statusUpdateHandler oldHandle oldPassword twoFactorCode env s,
      str_eqb currentPds [] = false ->
      let r := deactivatePrior statusUpdateHandler oldHandle oldPassword
                 twoFactorCode currentPds currentPds env s in
      calls (snd r)
      = calls s ++ [Ev (Login (mkAgent OldAgent currentPds) oldHandle oldPassword
                          twoFactorCode)
                       (coerce (Login (mkAgent OldAgent currentPds) oldHandle
                                  oldPassword twoFactorCode)
                               (env (calls s)
                                    (Login (mkAgent OldAgent currentPds) oldHandle
                                       oldPassword twoFactorCode)))] /\
      (fst r = Throw (JsError
                 "This is your current PDS. Login to your old account username and password")
       \/ exists why, fst r = Throw (Rejected why))).
Proof.
  repeat split.
  - intros currentPds A B C -> HA HB. simpl. rewrite HA, HB, str_eqb_refl. reflexivity.
  - intros currentPds first rest h oldHandle pw tfc env s H.
    assert (E : str_eqb (toLowerCase first) (toLowerCase currentPds) = true).
    { destruct H as [-> | H]; [apply str_eqb_refl | exact H]. }
    unfold scanAndDeactivate. simpl. rewrite E. reflexivity.
  - destruct s as [m cs sd]. unfold deactivatePrior.
    rewrite H, str_eqb_refl. destruct statusUpdateHandler; exec env; reflexivity.
  - destruct s as [m cs sd]. unfold deactivatePrior.
    rewrite H, str_eqb_refl. destruct statusUpdateHandler;
      exec env; first [left; reflexivity | right; eexists; reflexivity].
Qed.

End DeactivationFacts.

(** With the lower-casing of ASCII letters, on logs of three endpoints. *)
Lemma deactivation_prior_endpoint_witness :
  scanLog ascii_toLowerCase (u "https://c.example")
    [Some (u "https://a.example"); Some (u "https://b.example");
     Some (u "https://c.example")] [] = u "https://b.example" /\
  scanAndDeactivate ascii_toLowerCase true (u "alice.example.com") (u "pw") None
    (u "https://c.example") [Some (u "https://C.EXAMPLE"); Some (u "https://b.example")]
    happy (start newMigrator)
  = (Throw (JsError "Could not find the PDS before the current one"), start newMigrator) /\
  fst (deactivatePrior true (u "alice.example.com") (u "pw") None
         (u "https://c.example") (u "https://c.example") happy (start newMigrator))
  = Throw (JsError
      "This is your current PDS. Login to your old account username and password").
Proof.
  destruct (deactivation_prior_endpoint ascii_toLowerCase) as (H1 & H2 & H3).
  split; [|split].
  - apply H1; reflexivity.
  - apply H2. right. reflexivity.
  - destruct (H3 (u "https://c.example") true (u "alice.example.com") (u "pw") None
                happy (start newMigrator) eq_refl) as [_ [H | [why H]]].
    + exact H.
    + vm_compute in H. discriminate H.
Defined.

(** ** Splitting a run of [migrate] at a phase *)

Ltac run_phase m env s a s1 E :=
  destruct (m env s) as [[a| |] s1] eqn:E;
  [ rewrite (@bind_ret_run _ _ _ _ _ _ _ _ E)
  | rewrite (@bind_throw_run _ _ _ _ _ _ _ _ E)
  | rewrite (@bind_fuel_run _ _ _ _ _ _ _ E) ].

Lemma emits_in Q s s' e :
  emits Q s s' -> In e (calls s') -> In e (calls s) \/ Q (ev_op e) = true.
Proof.
  intros [new [E H]] Hin. rewrite E in Hin. apply in_app_or in Hin.
  destruct Hin as [Hin | Hin]; [left; exact Hin | right].
  rewrite forallb_forall in H. apply H. exact Hin.
Qed.

Lemma emits_all Q s s' :
  emits Q s s' -> forallb (fun e => Q (ev_op e)) (calls s) = true ->
  forallb (fun e => Q (ev_op e)) (calls s') = true.
Proof. intros [new [E H]] Hs. rewrite E, forallb_app, Hs, H. reflexivity. Qed.

Lemma emits_weaken (Q Q' : Op -> bool) s s' :
  (forall op, Q op = true -> Q' op = true) -> emits Q s s' -> emits Q' s s'.
Proof.
  intros HQ [new [E H]]. exists new. split; [exact E|].
  rewrite forallb_forall in *. intros e He. apply HQ. apply H. exact He.
Qed.

Lemma beforeCreate_emits h oldHandle pw url tfc :
  steps (emits early_op) (beforeCreate h oldHandle pw url tfc).
Proof.
  eapply steps_beforeCreate with (okop := early_op);
    eauto using emits_refl, emits_trans, emits_told, emits_logged.
Qed.

Lemma afterCreate_emits fuel h oldA newA did pw :
  steps (emits (except OpCreateAccount)) (afterCreate fuel h oldA newA did pw).
Proof.
  eapply steps_afterCreate with (okop := except OpCreateAccount);
    eauto using emits_refl, emits_trans, emits_told, emits_logged, emits_push,
      emits_store.
Qed.

(** The account-creation phase, call by call. *)
Lemma createAccountPhase_run h oldA newA did webDid pw email handle invite env s :
  let r := createAccountPhase h oldA newA did webDid pw email handle invite env s in
  let req := mkCreateAccountRequest did handle email pw (given invite) in
  (exists e1, calls (snd r) = calls s ++ [e1] /\ ev_op e1 = OpGetServiceAuth /\
              failed e1 = true /\ exists x, fst r = Throw x) \/
  (exists e1 e2, calls (snd r) = calls s ++ [e1; e2] /\ ev_op e1 = OpGetServiceAuth /\
                 ev_op e2 = OpCreateAccount /\ failed e2 = true /\
                 exists x, fst r = Throw x) \/
  (exists e1 t d,
      calls (snd r) = calls s ++ [e1; Ev (CreateAccount newA req (u "Bearer " ++ t))
                                        (RCreated d)] /\
      ev_op e1 = OpGetServiceAuth /\
      ((d = did /\ fst r = Ret tt) \/
       (d <> did /\
        fst r = Throw (JsError
                  "Did not create the new account with the same did as the old account")))).
Proof.
  destruct s as [m cs sd]. unfold createAccountPhase. destruct h; exec env;
    try (left; eexists;
         split; [reflexivity | split; [reflexivity | split; [reflexivity|]]];
         eexists; reflexivity);
    try (right; left; do 2 eexists; rewrite <- app_assoc;
         split; [reflexivity | split; [reflexivity | split; [reflexivity|]]];
         split; [reflexivity | eexists; reflexivity]);
    right; right; do 3 eexists; rewrite <- app_assoc;
      (split; [reflexivity | split; [reflexivity|]]).
  all: match goal with
       | E : negb (str_eqb ?d ?did) = true |- _ =>
           right; split; [|reflexivity]; intros ->;
           rewrite str_eqb_refl in E; discriminate E
       | E : negb (str_eqb ?d ?did) = false |- _ =>
           left; split; [|reflexivity];
           apply negb_false_iff in E; apply str_eqb_eq in E; exact E
       end.
Qed.

Lemma bind_get_this {B} (k : Migrator -> M B) env s :
  bind get_this k env s = k (this s) env s.
Proof. reflexivity. Qed.

Lemma beforeCreate_same_this h oldHandle pw url tfc :
  steps same_this (beforeCreate h oldHandle pw url tfc).
Proof.
  eapply steps_beforeCreate with (okop := anyop);
    eauto using same_this_refl, same_this_trans, same_this_told, same_this_logged.
Qed.

Lemma early_not_later op : early_op op = true -> negb (later_op op) = true.
Proof. destruct op; simpl; intros H; first [reflexivity | discriminate H]. Qed.

(** C3: when the destination answers [createAccount] with a DID other than
    the one asked for, [migrate] throws 'Did not create the new account with
    the same did as the old account' and that call is the last one of the
    run: after the calls of the resolution, the source login and the probe
    come the service-auth call and the account creation, and nothing else.
    No repository, status, blob, preferences or PLC call is made. *)
Theorem create_mismatch_stops_migrate :
  forall fuel oldHandle password newPdsUrl newEmail newHandle inviteCode
         statusUpdateHandler twoFactorCode env m,
    createNewAccount m = true ->
    let r := migrate fuel oldHandle password newPdsUrl newEmail newHandle inviteCode
               statusUpdateHandler twoFactorCode env (start m) in
    forall a req bearer d,
      In (Ev (CreateAccount a req bearer) (RCreated d)) (calls (snd r)) ->
      d <> car_did req ->
      fst r = Throw (JsError
                "Did not create the new account with the same did as the old account") /\
      (exists auth,
          ev_op auth = OpGetServiceAuth /\
          calls (snd r)
          = calls (snd (beforeCreate statusUpdateHandler (normalizeHandle oldHandle)
                          password newPdsUrl twoFactorCode env (start m)))
            ++ [auth; Ev (CreateAccount a req bearer) (RCreated d)]) /\
      forallb (fun e => negb (later_op (ev_op e))) (calls (snd r)) = true.
Proof.
  intros fuel oldHandle password newPdsUrl newEmail newHandle inviteCode h tfc env m
    Hflag r a req bearer d. subst r. unfold migrate.
  pose proof (@beforeCreate_emits h (normalizeHandle oldHandle) password newPdsUrl tfc
                env (start m)) as Hem.
  pose proof (@beforeCreate_same_this h (normalizeHandle oldHandle) password newPdsUrl
                tfc env (start m)) as Hth.
  match goal with |- context [bind ?p _ env (start m)] => run_phase p env (start m) ctx s1 E1 end;
    simpl in Hem, Hth |- *.
  2, 3: intros Hin; exfalso;
    destruct (@emits_in _ _ _ _ Hem Hin) as [[] | Hq]; discriminate Hq.
  destruct ctx as [[[oldA newA] did] webDid].
  rewrite bind_get_this. cbv beta. unfold same_this in Hth. simpl in Hth. rewrite Hth, Hflag.
  unfold when.
  assert (Hnot : forall e, In e (calls s1) -> ev_op e <> OpCreateAccount).
  { intros e He Hop. destruct (@emits_in _ _ _ _ Hem He) as [[] | Hq].
    rewrite Hop in Hq. discriminate Hq. }
  assert (Hearly : forallb (fun e => negb (later_op (ev_op e))) (calls s1) = true).
  { apply (@emits_all (fun op => negb (later_op op)) (start m) s1); [|reflexivity].
    eapply emits_weaken; [|exact Hem]. apply early_not_later. }
  pose proof (@createAccountPhase_run h oldA newA did webDid password newEmail
                newHandle inviteCode env s1) as Hc.
  cbv zeta in Hc.
  match goal with |- context [bind ?p _ env s1] => run_phase p env s1 x s2 E2 end;
    try rewrite E2 in Hc; simpl in Hc |- *;
    destruct Hc as [(e1 & Hs & H1 & _ & (x1 & Hx)) |
                    [(e1 & e2 & Hs & H1 & H2 & Hf & (x1 & Hx)) |
                     (e1 & t & d' & Hs & H1 & [[Hd Hx] | [Hd Hx]])]];
    try discriminate Hx; intros Hin Hdiff.
  - (* the account was created under the DID asked for: the run goes on *)
    subst d'. exfalso.
    pose proof (@afterCreate_emits fuel h oldA newA did password env s2) as Ha.
    destruct (@emits_in _ _ _ _ Ha Hin) as [Hin' | Hq]; [|discriminate Hq].
    rewrite Hs in Hin'. apply in_app_or in Hin'.
    destruct Hin' as [Hin' | [Hin' | [Hin' | []]]].
    + exact (Hnot _ Hin' eq_refl).
    + subst e1. discriminate H1.
    + injection Hin' as _ Hreq _ Hd. subst req. apply Hdiff. simpl. symmetry. exact Hd.
  - (* the service-auth call failed *)
    exfalso. rewrite Hs in Hin. apply in_app_or in Hin.
    destruct Hin as [Hin | [Hin | []]].
    + exact (Hnot _ Hin eq_refl).
    + subst e1. discriminate H1.
  - (* the creation failed *)
    exfalso. rewrite Hs in Hin. apply in_app_or in Hin.
    destruct Hin as [Hin | [Hin | [Hin | []]]].
    + exact (Hnot _ Hin eq_refl).
    + subst e1. discriminate H1.
    + subst e2. discriminate Hf.
  - (* another DID: the throw *)
    rewrite Hs in Hin |- *. apply in_app_or in Hin.
    destruct Hin as [Hin | [Hin | [Hin | []]]].
    + exfalso. exact (Hnot _ Hin eq_refl).
    + subst e1. discriminate H1.
    + split; [exact Hx|]. split.
      * exists e1. split; [exact H1|]. rewrite Hin. reflexivity.
      * rewrite forallb_app, Hearly. simpl. rewrite H1. reflexivity.
Qed.

(** A destination that creates the account under another DID. *)
Lemma create_mismatch_stops_migrate_witness :
  fst (migrate 1 (u "alice.bsky.social") (u "pw") (u "https://new.example") (u "a@b.c")
         (u "alice.new.example") None true None otherDid (start newMigrator))
  = Throw (JsError "Did not create the new account with the same did as the old account").
Proof.
  refine (proj1 (@create_mismatch_stops_migrate 1 (u "alice.bsky.social") (u "pw")
            (u "https://new.example") (u "a@b.c") (u "alice.new.example") None true
            None otherDid newMigrator eq_refl
            newPds
            (mkCreateAccountRequest (u "did:plc:alice") (u "alice.new.example")
               (u "a@b.c") (u "pw") None)
            (u "Bearer jwt") (u "did:plc:mallory") _ _)).
  - vm_compute. do 4 right. left. reflexivity.
  - vm_compute. discriminate.
Defined.

(** ** The reconciliation phase *)

Lemma last_status_none evs :
  forallb (fun e => except OpCheckAccountStatus (ev_op e)) evs = true ->
  last_status evs = None.
Proof.
  induction evs as [|[c r] evs IH]; simpl; [reflexivity|].
  rewrite andb_true_iff. intros [Hc H]. rewrite (IH H).
  destruct c; try reflexivity. discriminate Hc.
Qed.

Lemma last_status_after pre a agent expected imported tail :
  forallb (fun e => except OpCheckAccountStatus (ev_op e)) tail = true ->
  last_status (pre ++ Ev (CheckAccountStatus agent) (RStatus a expected imported) :: tail)
  = Some (expected, imported).
Proof.
  intros H. induction pre as [|e pre IH]; simpl.
  - rewrite (last_status_none _ H). reflexivity.
  - rewrite IH. reflexivity.
Qed.

Lemma listing_not_status op : no_listing_no_status op = true -> no_listing op = true.
Proof. unfold no_listing_no_status. rewrite andb_true_iff. tauto. Qed.

Lemma reconciled_after s s1 s' :
  emits no_listing s s1 -> reconciled s1 s' -> reconciled s s'.
Proof.
  intros He [H | (pre & a & agent & e & i & tail & Hne & Hc & Ht)].
  - left. eapply emits_trans; eassumption.
  - right. exists pre, a, agent, e, i, tail. auto.
Qed.

Lemma reconciled_then s s1 s' :
  reconciled s s1 -> emits no_listing_no_status s1 s' -> reconciled s s'.
Proof.
  intros [H | (pre & a & agent & e & i & tail & Hne & Hc & Ht)] He.
  - left. eapply emits_trans; [exact H|].
    eapply emits_weaken; [apply listing_not_status | exact He].
  - right. destruct He as [new [E Hn]].
    exists pre, a, agent, e, i, (tail ++ new). split; [exact Hne|]. split.
    + rewrite E, Hc, <- app_assoc. reflexivity.
    + rewrite forallb_app, Ht. simpl.
      rewrite forallb_forall in *. intros x Hx. specialize (Hn x Hx).
      unfold no_listing_no_status in Hn. rewrite andb_true_iff in Hn. tauto.
Qed.

Lemma reconciled_bind_pre {A B} (m : M A) (k : A -> M B) :
  steps (emits no_listing) m -> (forall a, steps reconciled (k a)) ->
  steps reconciled (bind m k).
Proof.
  intros Hm Hk env s. specialize (Hm env s). unfold bind.
  destruct (m env s) as [[a| |] s1]; simpl in *; try (left; exact Hm).
  eapply reconciled_after; [exact Hm | apply Hk].
Qed.

Lemma reconciled_bind_post {A B} (m : M A) (k : A -> M B) :
  steps reconciled m -> (forall a, steps (emits no_listing_no_status) (k a)) ->
  steps reconciled (bind m k).
Proof.
  intros Hm Hk env s. specialize (Hm env s). unfold bind.
  destruct (m env s) as [[a| |] s1]; simpl in *; try exact Hm.
  eapply reconciled_then; [exact Hm | apply Hk].
Qed.

Lemma retryLoop_no_status fuel h oldA newA did total cursor n :
  steps (emits (except OpCheckAccountStatus))
        (retryLoop fuel h oldA newA did total cursor n).
Proof.
  eapply steps_retryLoop with (okop := except OpCheckAccountStatus);
    eauto using emits_refl, emits_trans, emits_told, emits_logged, emits_push.
Qed.

Lemma reconcilePhase_reconciled fuel h oldA newA did :
  steps reconciled (reconcilePhase fuel h oldA newA did).
Proof.
  intros env [m cs sd]. unfold reconcilePhase. run_monad.
  destruct (env cs (CheckAccountStatus newA)) eqn:E; run_monad;
    try (left; eexists; split; [reflexivity|reflexivity]).
  destruct (expectedBlobs =? importedBlobs)%Z eqn:Eq; simpl.
  - left. eexists. split; reflexivity.
  - right. apply Z.eqb_neq in Eq.
    destruct h; simpl;
      match goal with
      | |- context [retryLoop ?f ?hh ?o ?n ?d ?t ?c ?z env ?st] =>
          destruct (@retryLoop_no_status f hh o n d t c z env st) as [new [Hc Hn]]
      end;
      simpl in Hc; unfold snd in Hc;
      (exists cs, activated, newA, expectedBlobs, importedBlobs, new;
       split; [exact Eq|]; split; [|exact Hn]; rewrite Hc, <- app_assoc; reflexivity).
Qed.

Ltac emits_by lemma Q :=
  eapply lemma with (okop := Q);
  eauto using emits_refl, emits_trans, emits_told, emits_logged, emits_push,
    emits_store.

Lemma migrate_reconciled fuel oldHandle pw url email handle invite h tfc :
  steps reconciled (migrate fuel oldHandle pw url email handle invite h tfc).
Proof.
  unfold migrate.
  apply reconciled_bind_pre; [emits_by steps_beforeCreate no_listing|].
  intros [[[oldA newA] did] webDid].
  apply reconciled_bind_pre;
    [eapply steps_get_this with (R := emits no_listing); apply emits_refl|].
  intros m.
  apply reconciled_bind_pre.
  { eapply steps_when with (R := emits no_listing); [apply emits_refl|].
    emits_by steps_createAccountPhase no_listing. }
  intros _. unfold afterCreate.
  apply reconciled_bind_pre; [emits_by steps_loginAndSync no_listing|].
  intros _.
  apply reconciled_bind_pre;
    [eapply steps_get_this with (R := emits no_listing); apply emits_refl|].
  intros m'.
  apply reconciled_bind_post.
  - destruct (migrateMissingBlobs m'); simpl.
    + apply reconcilePhase_reconciled.
    + intros env s. left. apply emits_refl.
  - intros _. emits_by steps_finish no_listing_no_status.
Qed.

(** C8: when the status read of the reconciliation phase reports as many
    imported blobs as expected, the phase returns after that one call.  In a
    run of [migrate], the missing-blob listing is asked for only by that
    phase and only after a status read with differing counts: if the last
    status read of the run reported equal counts, the run holds no call of
    [listMissingBlobs]. *)
Theorem reconciliation_skipped_when_counts_agree :
  (forall fuel statusUpdateHandler oldA newA usersDid env s activated n,
      env (calls s) (CheckAccountStatus newA) = RStatus activated n n ->
      reconcilePhase fuel statusUpdateHandler oldA newA usersDid env s
      = (Ret tt, logged s (CheckAccountStatus newA) (RStatus activated n n))) /\
  (forall fuel oldHandle password newPdsUrl newEmail newHandle inviteCode
          statusUpdateHandler twoFactorCode env m n,
      let r := migrate fuel oldHandle password newPdsUrl newEmail newHandle inviteCode
                 statusUpdateHandler twoFactorCode env (start m) in
      last_status (calls (snd r)) = Some (n, n) ->
      forallb (fun e => except OpListMissingBlobs (ev_op e)) (calls (snd r)) = true).
Proof.
  split.
  - intros fuel h oldA newA did env [m cs sd] a n H. simpl in H.
    unfold reconcilePhase. run_monad. rewrite H. run_monad.
    rewrite Z.eqb_refl. reflexivity.
  - intros fuel oldHandle password newPdsUrl newEmail newHandle inviteCode h tfc env m n
      r Hlast. subst r.
    destruct (@migrate_reconciled fuel oldHandle password newPdsUrl newEmail newHandle
                inviteCode h tfc env (start m))
      as [[new [Hc Hn]] | (pre & a & agent & e & i & tail & Hne & Hc & Ht)].
    + rewrite Hc. exact Hn.
    + rewrite Hc, (last_status_after _ _ _ _ _ _ Ht) in Hlast.
      injection Hlast as He Hi. exfalso. apply Hne. congruence.
Qed.

(** A destination that reports nothing missing. *)
Lemma reconciliation_skipped_when_counts_agree_witness :
  reconcilePhase 1 true bsky newPds (u "did:plc:alice") happy (start newMigrator)
  = (Ret tt, logged (start newMigrator) (CheckAccountStatus newPds) (RStatus true 0 0))
  /\
  forallb (fun e => except OpListMissingBlobs (ev_op e))
    (calls (snd (migrate 1 (u "alice.bsky.social") (u "pw") (u "https://new.example")
                   (u "a@b.c") (u "alice.new.example") None true None happy
                   (start newMigrator)))) = true.
Proof.
  destruct reconciliation_skipped_when_counts_agree as [H1 H2]. split.
  - apply H1. reflexivity.
  - apply (H2 1%nat (u "alice.bsky.social") (u "pw") (u "https://new.example")
             (u "a@b.c") (u "alice.new.example") None true None happy newMigrator 0%Z).
    vm_compute. reflexivity.
Defined.

(** ** The rerun that only asks for the PLC token *)

Lemma bind_assoc_run {A B C} (m : M A) (f : A -> M B) (g : B -> M C) env s :
  bind (bind m f) g env s = bind m (fun x => bind (f x) g) env s.
Proof. unfold bind. destruct (m env s) as [[a| |] s1]; reflexivity. Qed.

Lemma resolveSource_emits h oldHandle :
  steps (emits resolution_op) (resolveSource h oldHandle).
Proof. emits_by steps_resolveSource resolution_op. Qed.

Lemma resolveSource_same_this h oldHandle :
  steps same_this (resolveSource h oldHandle).
Proof.
  eapply steps_resolveSource with (okop := anyop);
    eauto using same_this_refl, same_this_trans, same_this_told, same_this_logged.
Qed.

Lemma resolveSource_total h oldHandle env s :
  fst (resolveSource h oldHandle env s) <> OutOfFuel.
Proof.
  destruct s as [m cs sd]. unfold resolveSource, findPds.
  destruct (endsWith oldHandle (u ".bsky.social")); destruct h; exec env;
    try discriminate;
    (destruct (doc_service doc) as [l|]; [destruct (filter _ l)|]; run_monad;
     discriminate).
Qed.

(** [findPds] returns the endpoint [firstPds] names, or throws the one
    error. *)
Lemma findPds_firstPds didDoc :
  findPds didDoc
  = match firstPds didDoc with
    | Some pds => ret pds
    | None => throw (JsError "Could not find a PDS in the DID document.")
    end.
Proof.
  unfold findPds, firstPds. destruct (doc_service didDoc) as [l|]; [|reflexivity].
  destruct (filter _ l); reflexivity.
Qed.




(** ** The blob sync *)

Lemma fetches_app a b : fetches (a ++ b) = fetches a ++ fetches b.
Proof.
  induction a as [|[c r] a IH]; simpl; [reflexivity|].
  destruct c; simpl; rewrite IH; reflexivity.
Qed.

Lemma listing_calls_app a b : listing_calls (a ++ b) = listing_calls a ++ listing_calls b.
Proof.
  induction a as [|[c r] a IH]; simpl; [reflexivity|].
  destruct c; simpl; rewrite IH; reflexivity.
Qed.

Lemma uploads_app a b : uploads (a ++ b) = (uploads a + uploads b)%nat.
Proof.
  induction a as [|[c r] a IH]; simpl; [reflexivity|].
  destruct c; simpl; try exact IH. destruct r; simpl; rewrite IH; reflexivity.
Qed.

(** One transfer of the main sync never throws: it makes one [getBlob] for
    its blob, no listing, and its upload goes through when the world lets
    transfers through. *)
Lemma uploadOne_run h oldA newA did expected cid n env s :
  exists n' s' new,
    uploadOne h oldA newA did expected cid n env s = (Ret n', s') /\
    calls s' = calls s ++ new /\
    fetches new = [cid] /\
    listing_calls new = [] /\
    (transfers_succeed env oldA newA did -> uploads new = 1%nat).
Proof.
  destruct s as [m cs sd]. unfold uploadOne.
  destruct h; exec env;
    do 3 eexists;
    (split; [reflexivity|]); simpl;
    (split; [repeat rewrite <- app_assoc; reflexivity|]); simpl;
    (split; [reflexivity|]); (split; [reflexivity|]);
    intros [Hget Hup]; try reflexivity;
    try (match goal with
         | E : env ?hh (GetBlob oldA did cid) = _ |- _ =>
             destruct (Hget hh cid) as (d0 & c0 & Hg); rewrite Hg in E; discriminate E
         end);
    match goal with
    | E : env ?hh (UploadBlob newA ?d ?c) = _ |- _ =>
        rewrite (Hup hh d c) in E; discriminate E
    end.
Qed.

Lemma uploadPage_run h oldA newA did expected cids n env s :
  exists n' s' new,
    uploadPage h oldA newA did expected cids n env s = (Ret n', s') /\
    calls s' = calls s ++ new /\
    fetches new = cids /\
    listing_calls new = [] /\
    (transfers_succeed env oldA newA did -> uploads new = List.length cids).
Proof.
  revert n s. induction cids as [|cid rest IH]; intros n s.
  - exists n, s, []. simpl. rewrite app_nil_r. repeat split; reflexivity.
  - destruct (uploadOne_run h oldA newA did expected cid n env s)
      as (n1 & s1 & new1 & E1 & C1 & F1 & L1 & U1).
    destruct (IH n1 s1) as (n2 & s2 & new2 & E2 & C2 & F2 & L2 & U2).
    exists n2, s2, (new1 ++ new2). cbn [uploadPage].
    rewrite (@bind_ret_run _ _ _ _ _ _ _ _ E1), E2.
    split; [reflexivity|]. split; [rewrite C2, C1, app_assoc; reflexivity|].
    rewrite fetches_app, listing_calls_app, uploads_app, F1, F2, L1, L2.
    repeat split; try reflexivity.
    intros H. rewrite (U1 H), (U2 H). reflexivity.
Qed.

Lemma blobLoop_paged env h oldA newA did expected pages :
  forall cursor n fuel s,
    paged env oldA did cursor pages ->
    (List.length pages <= fuel)%nat ->
    exists s' new,
      blobLoop fuel h oldA newA did expected cursor n env s = (Ret tt, s') /\
      calls s' = calls s ++ new /\
      listing_calls new
      = map (fun c => ListBlobs oldA did c 100) (cursors_asked cursor pages) /\
      fetches new = List.concat (map fst pages) /\
      (transfers_succeed env oldA newA did ->
       uploads new = List.length (List.concat (map fst pages))).
Proof.
  induction pages as [|[cids next] rest IH]; intros cursor n fuel s Hp Hf.
  - destruct Hp.
  - destruct fuel as [|fuel]; [simpl in Hf; lia|].
    destruct Hp as [Hlist Hnext].
    cbn [blobLoop]. destruct s as [m cs sd].
    set (s0 := if h then told (mkSt m cs sd) (SBlobProgress n expected)
               else mkSt m cs sd).
    assert (Hs0 : calls s0 = cs) by (destruct h; reflexivity).
    set (s1 := logged s0 (ListBlobs oldA did cursor 100) (RCids cids next)).
    destruct (uploadPage_run h oldA newA did expected cids n env s1)
      as (n1 & s2 & new1 & E1 & C1 & F1 & L1 & U1).
    assert (Hstep :
      forall k : M unit,
        bind (safeStatusUpdate h (SBlobProgress n expected))
          (fun _ =>
             bind (call (ListBlobs oldA did cursor 100))
               (fun r =>
                  bind (as_cids r)
                    (fun listed =>
                       bind (uploadPage h oldA newA did expected (fst listed) n)
                         (fun n' =>
                            if cursor_truthy (snd listed)
                            then blobLoop fuel h oldA newA did expected (snd listed) n'
                            else k)))) env (mkSt m cs sd)
        = (if cursor_truthy next
           then blobLoop fuel h oldA newA did expected next n1
           else k) env s2).
    { intros k. unfold bind at 1.
      replace (safeStatusUpdate h (SBlobProgress n expected) env (mkSt m cs sd))
        with (Ret tt, s0) by (unfold safeStatusUpdate, s0; destruct h; reflexivity).
      unfold bind at 1. unfold call. rewrite Hlist. cbn [coerce shape_ok].
      fold (logged s0 (ListBlobs oldA did cursor 100) (RCids cids next)). fold s1.
      unfold bind at 1. cbn [as_cids expect ret fst snd].
      unfold bind at 1. rewrite E1. reflexivity. }
    rewrite (Hstep (ret tt)).
    assert (Hc2 : calls s2 = cs ++ Ev (ListBlobs oldA did cursor 100) (RCids cids next)
                                  :: new1).
    { rewrite C1. unfold s1, logged. cbn [calls]. rewrite Hs0, <- app_assoc.
      reflexivity. }
    destruct rest as [|page rest].
    + rewrite Hnext. exists s2, (Ev (ListBlobs oldA did cursor 100) (RCids cids next) :: new1).
      split; [reflexivity|]. split; [exact Hc2|].
      unfold cursors_asked. simpl. rewrite L1, F1, app_nil_r.
      repeat split; try reflexivity. exact U1.
    + destruct Hnext as [Ht Hrest]. rewrite Ht.
      destruct (IH next n1 fuel s2 Hrest) as (s3 & new2 & E3 & C3 & L3 & F3 & U3).
      { simpl in Hf |- *. lia. }
      exists s3, ((Ev (ListBlobs oldA did cursor 100) (RCids cids next) :: new1) ++ new2).
      split; [exact E3|].
      split; [rewrite C3, Hc2; cbn [calls]; rewrite <- app_assoc; reflexivity|].
      rewrite listing_calls_app, fetches_app, uploads_app. simpl.
      rewrite L1, L3, F1, F3. unfold cursors_asked.
      split; [destruct page; reflexivity|]. split; [reflexivity|].
      intros H. rewrite (U1 H), (U3 H), length_app. reflexivity.
Qed.

Lemma cursors_asked_length cursor pages :
  pages <> [] -> List.length (cursors_asked cursor pages) = List.length pages.
Proof.
  intros H. unfold cursors_asked. simpl.
  assert (G : forall l : list (option jsstring),
             l <> [] -> S (List.length (removelast l)) = List.length l).
  { induction l as [|x [|y l] IH]; intros Hl; [contradiction | reflexivity |].
    change (removelast (x :: y :: l)) with (x :: removelast (y :: l)).
    simpl List.length. f_equal. apply IH. discriminate. }
  rewrite G, length_map; [reflexivity|]. destruct pages; [contradiction|discriminate].
Qed.

Lemma blobPhase_run fuel h oldA newA did expected env s :
  exists s0, calls s0 = calls s /\
    blobPhase fuel h oldA newA did expected env s
    = blobLoop fuel h oldA newA did expected None 0 env s0.
Proof.
  unfold blobPhase, bind, safeStatusUpdate. destruct h.
  - eexists. split; [|reflexivity]. reflexivity.
  - exists s. split; reflexivity.
Qed.

(** C5: against a source that serves its listing in pages, each but the last
    with a cursor to go on with, and when every transfer succeeds, the blob
    sync returns; it asked for the listing once per page, with a limit of
    100, first without a cursor and then with the cursor the page before
    came with; it fetched the blobs of all pages in their order and uploaded
    as many blobs as the pages hold. *)
Theorem blob_sync_follows_the_pages :
  forall env statusUpdateHandler oldA newA usersDid expectedBlobs pages fuel s,
    paged env oldA usersDid None pages ->
    transfers_succeed env oldA newA usersDid ->
    (List.length pages <= fuel)%nat ->
    let r := blobPhase fuel statusUpdateHandler oldA newA usersDid expectedBlobs env s in
    fst r = Ret tt /\
    exists new,
      calls (snd r) = calls s ++ new /\
      listing_calls new
      = map (fun c => ListBlobs oldA usersDid c 100) (cursors_asked None pages) /\
      List.length (listing_calls new) = List.length pages /\
      fetches new = List.concat (map fst pages) /\
      uploads new = List.length (List.concat (map fst pages)).
Proof.
  intros env h oldA newA did expected pages fuel s Hp Ht Hf r. subst r.
  destruct (blobPhase_run fuel h oldA newA did expected env s) as (s0 & Hs0 & ->).
  destruct (@blobLoop_paged env h oldA newA did expected pages None 0%Z fuel s0 Hp Hf)
    as (s' & new & E & C & L & F & U).
  rewrite E. split; [reflexivity|]. exists new. simpl.
  rewrite C, Hs0, L. repeat split; try assumption.
  - rewrite length_map. apply cursors_asked_length. destruct pages; [destruct Hp|discriminate].
  - apply U. exact Ht.
Qed.

Lemma blob_sync_follows_the_pages_witness :
  fst (blobPhase 3 true bsky newPds (u "did:plc:alice") 250 pagedSource
         (start newMigrator)) = Ret tt /\
  exists new,
    calls (snd (blobPhase 3 true bsky newPds (u "did:plc:alice") 250 pagedSource
                  (start newMigrator)))
    = calls (start newMigrator) ++ new /\
    listing_calls new
    = map (fun c => ListBlobs bsky (u "did:plc:alice") c 100)
          (cursors_asked None threePages) /\
    List.length (listing_calls new) = List.length threePages /\
    fetches new = List.concat (map fst threePages) /\
    uploads new = List.length (List.concat (map fst threePages)).
Proof.
  apply (@blob_sync_follows_the_pages pagedSource true bsky newPds (u "did:plc:alice")
           250%Z threePages 3%nat (start newMigrator)).
  - simpl. repeat split.
  - split; intros; [do 2 eexists|]; reflexivity.
  - simpl. lia.
Defined.

(** The example of the specification in numbers: 250 blobs, three listing
    calls under no cursor, [c1] and [c2], 250 uploads. *)
Lemma three_pages_in_numbers :
  map (fun c => match c with ListBlobs _ _ cursor _ => cursor | _ => None end)
      (listing_calls (calls (snd (blobPhase 3 true bsky newPds (u "did:plc:alice") 250
                                    pagedSource (start newMigrator)))))
  = [None; Some (u "c1"); Some (u "c2")] /\
  uploads (calls (snd (blobPhase 3 true bsky newPds (u "did:plc:alice") 250
                         pagedSource (start newMigrator)))) = 250%nat.
Proof. split; vm_compute; reflexivity. Qed.

(** ** The retry pass *)

(** One retry never throws: it makes one [getBlob] for its blob, and the
    blob is added to the list exactly when its transfer failed. *)
Lemma retryOne_run h oldA newA did total rb n env s :
  exists n' s' new extra,
    retryOne h oldA newA did total rb n env s = (Ret n', s') /\
    calls s' = calls s ++ new /\
    fetches new = [rb_cid rb] /\
    missingBlobs (this s') = missingBlobs (this s) ++ extra /\
    forallb (fun e => except OpListMissingBlobs (ev_op e)) new = true /\
    forall tail,
      failed_transfers None (new ++ tail) = extra ++ failed_transfers None tail.
Proof.
  destruct s as [m cs sd]. unfold retryOne.
  destruct h; exec env;
    do 4 eexists;
    (split; [reflexivity|]); simpl;
    (split; [repeat rewrite <- app_assoc; reflexivity|]);
    (split; [reflexivity|]);
    (split; [first [reflexivity | symmetry; apply app_nil_r]|]);
    (split; [reflexivity|]); intros tail; reflexivity.
Qed.

Lemma retryPage_run h oldA newA did total blobs n env s :
  exists n' s' new extra,
    retryPage h oldA newA did total blobs n env s = (Ret n', s') /\
    calls s' = calls s ++ new /\
    fetches new = map rb_cid blobs /\
    missingBlobs (this s') = missingBlobs (this s) ++ extra /\
    forallb (fun e => except OpListMissingBlobs (ev_op e)) new = true /\
    forall tail,
      failed_transfers None (new ++ tail) = extra ++ failed_transfers None tail.
Proof.
  revert n s. induction blobs as [|rb rest IH]; intros n s.
  - exists n, s, [], []. simpl. rewrite !app_nil_r. repeat split; reflexivity.
  - destruct (retryOne_run h oldA newA did total rb n env s)
      as (n1 & s1 & new1 & extra1 & E1 & C1 & F1 & M1 & Q1 & T1).
    destruct (IH n1 s1) as (n2 & s2 & new2 & extra2 & E2 & C2 & F2 & M2 & Q2 & T2).
    exists n2, s2, (new1 ++ new2), (extra1 ++ extra2). cbn [retryPage].
    rewrite (@bind_ret_run _ _ _ _ _ _ _ _ E1), E2.
    split; [reflexivity|]. split; [rewrite C2, C1, app_assoc; reflexivity|].
    split; [rewrite fetches_app, F1, F2; reflexivity|].
    split; [rewrite M2, M1, app_assoc; reflexivity|].
    split; [rewrite forallb_app, Q1, Q2; reflexivity|].
    intros tail. rewrite <- !app_assoc, T1, T2. reflexivity.
Qed.

(** What the retry loop leaves: the list grew by the transfers that failed,
    in their order; its calls, if it made any, start with a listing of the
    missing blobs. *)
Lemma retryLoop_run fuel h oldA newA did total :
  forall cursor n env s,
  exists o s' new extra,
    retryLoop fuel h oldA newA did total cursor n env s = (o, s') /\
    calls s' = calls s ++ new /\
    missingBlobs (this s') = missingBlobs (this s) ++ extra /\
    (new = [] /\ extra = [] \/
     exists e rest, new = e :: rest /\ ev_op e = OpListMissingBlobs) /\
    forall tail,
      failed_transfers None (new ++ tail) = extra ++ failed_transfers None tail.
Proof.
  induction fuel as [|fuel IH]; intros cursor n env s.
  - exists OutOfFuel, s, [], []. simpl. rewrite !app_nil_r.
    repeat split; try reflexivity. left. split; reflexivity.
  - cbn [retryLoop]. destruct s as [m cs sd].
    set (s0 := if h then told (mkSt m cs sd) (SBlobProgress n total)
               else mkSt m cs sd).
    assert (Hs0 : calls s0 = cs /\ this s0 = m) by (destruct h; split; reflexivity).
    destruct Hs0 as [Hs0 Hm0].
    unfold bind at 1.
    replace (safeStatusUpdate h (SBlobProgress n total) env (mkSt m cs sd))
      with (Ret tt, s0) by (unfold safeStatusUpdate, s0; destruct h; reflexivity).
    unfold bind at 1. unfold call. rewrite Hs0.
    destruct (env cs (ListMissingBlobs newA cursor 100)) eqn:E;
      cbn [coerce shape_ok fst snd];
      try (do 2 eexists; eexists [_], []; split; [reflexivity|];
           cbn [calls this]; rewrite Hm0, app_nil_r;
           split; [reflexivity|]; split; [reflexivity|];
           split; [right; do 2 eexists; split; reflexivity | intros tail; reflexivity]).
    match goal with
    | E' : _ = RMissing ?bs ?c0 |- _ => rename bs into listed; rename c0 into next
    end.
    unfold bind at 1. cbn [as_missing expect ret fst snd].
    match goal with
    | |- context [bind _ _ env ?st] =>
        destruct (retryPage_run h oldA newA did total listed n env st)
          as (n1 & s2 & new1 & extra1 & E1 & C1 & F1 & M1 & Q1 & T1)
    end.
    unfold bind at 1. rewrite E1. cbn [calls this] in C1, M1.
    rewrite Hm0 in M1.
    destruct (cursor_truthy next).
    + destruct (IH next n1 env s2) as (o & s3 & new2 & extra2 & E2 & C2 & M2 & _ & T2).
      exists o, s3,
        ((Ev (ListMissingBlobs newA cursor 100) (RMissing listed next) :: new1) ++ new2),
        (extra1 ++ extra2).
      split; [exact E2|].
      split; [rewrite C2, C1, <- !app_assoc; reflexivity|].
      split; [rewrite M2, M1, app_assoc; reflexivity|].
      split; [right; do 2 eexists; split; reflexivity|].
      intros tail. simpl. rewrite <- !app_assoc, T1, T2. reflexivity.
    + exists (Ret tt), s2,
        (Ev (ListMissingBlobs newA cursor 100) (RMissing listed next) :: new1), extra1.
      split; [reflexivity|].
      split; [rewrite C1, <- !app_assoc; reflexivity|].
      split; [exact M1|].
      split; [right; do 2 eexists; split; reflexivity|].
      intros tail. simpl. rewrite T1. reflexivity.
Qed.

Lemma reconciliation_quiet tail :
  forallb (fun e => quiet_op (ev_op e)) tail = true -> reconciliation tail = [].
Proof.
  induction tail as [|e tail IH]; simpl; [reflexivity|].
  rewrite andb_true_iff. intros [He Ht]. unfold quiet_op in He.
  repeat rewrite andb_true_iff in He. destruct He as [_ He].
  unfold except in He. destruct (op_eqb (ev_op e) OpListMissingBlobs) eqn:Eo.
  - destruct (ev_op e); discriminate.
  - apply IH. exact Ht.
Qed.

Lemma reconciliation_skip pre rest :
  forallb (fun e => except OpListMissingBlobs (ev_op e)) pre = true ->
  reconciliation (pre ++ rest) = reconciliation rest.
Proof.
  induction pre as [|e pre IH]; simpl; [reflexivity|].
  rewrite andb_true_iff. intros [He Hp]. unfold except in He.
  destruct (op_eqb (ev_op e) OpListMissingBlobs) eqn:Eo.
  - destruct (ev_op e); discriminate.
  - apply IH. exact Hp.
Qed.

Lemma failed_transfers_quiet tail :
  forallb (fun e => quiet_op (ev_op e)) tail = true -> failed_transfers None tail = [].
Proof.
  induction tail as [|[c r] tail IH]; simpl; [reflexivity|].
  rewrite andb_true_iff. intros [He Ht].
  destruct c; try (apply IH; exact Ht); discriminate He.
Qed.

Lemma reconcilePhase_run fuel h oldA newA did env s :
  exists o s' new extra,
    reconcilePhase fuel h oldA newA did env s = (o, s') /\
    calls s' = calls s ++ new /\
    missingBlobs (this s') = missingBlobs (this s) ++ extra /\
    (forall tail,
        failed_transfers None (new ++ tail) = extra ++ failed_transfers None tail) /\
    (forall tail,
        forallb (fun e => quiet_op (ev_op e)) tail = true ->
        failed_transfers None (reconciliation (new ++ tail)) = extra).
Proof.
  destruct s as [m cs sd]. unfold reconcilePhase. run_monad.
  destruct (env cs (CheckAccountStatus newA)) eqn:E; run_monad;
    try (do 2 eexists; eexists [_], []; split; [reflexivity|];
         cbn [calls this]; rewrite app_nil_r;
         split; [reflexivity|]; split; [reflexivity|];
         split; [intros tail; reflexivity|];
         intros tail Ht; simpl; rewrite (reconciliation_quiet _ Ht); reflexivity).
  destruct (expectedBlobs =? importedBlobs)%Z; simpl.
  - do 2 eexists. eexists [_], []. split; [reflexivity|].
    cbn [calls this]. rewrite app_nil_r.
    split; [reflexivity|]. split; [reflexivity|].
    split; [intros tail; reflexivity|].
    intros tail Ht. simpl. rewrite (reconciliation_quiet _ Ht). reflexivity.
  - destruct h; simpl;
      match goal with
      | |- context [retryLoop ?f ?hh ?o ?nn ?d ?t ?c ?z env ?st] =>
          destruct (@retryLoop_run f hh o nn d t c z env st)
            as (out & s' & new & extra & E' & C & M & Hd & T)
      end;
      rewrite E'; cbn [calls this] in C, M;
      (exists out, s',
         (Ev (CheckAccountStatus newA)
             (RStatus activated expectedBlobs importedBlobs) :: new), extra;
       split; [reflexivity|];
       split; [rewrite <- app_assoc in C; exact C|];
       split; [exact M|];
       split; [intros tail; simpl; apply T|];
       intros tail Ht;
       destruct Hd as [[-> ->] | (e & rest & -> & He)];
       [ simpl; rewrite (reconciliation_quiet _ Ht); reflexivity
       | cbn [app reconciliation ev_op ev_call op_of op_eqb];
         rewrite He; cbn [op_eqb];
         change (e :: rest ++ tail) with ((e :: rest) ++ tail);
         rewrite T, (failed_transfers_quiet _ Ht), app_nil_r; reflexivity ]).
Qed.

(** ** The list of missing blobs after a run *)

Lemma same_missing_refl s : same_missing s s.
Proof. reflexivity. Qed.

Lemma same_missing_trans a b c : same_missing a b -> same_missing b c -> same_missing a c.
Proof. unfold same_missing. congruence. Qed.

Lemma same_missing_told s status : same_missing s (told s status).
Proof. reflexivity. Qed.

Lemma same_missing_logged c :
  anyop (op_of c) = true -> forall s r, same_missing s (logged s c r).
Proof. reflexivity. Qed.

Lemma same_missing_store a b : steps same_missing (storeAgents a b).
Proof. intros env s. reflexivity. Qed.

Lemma recorded_of_quiet s s' :
  emits no_listing s s' -> same_missing s s' -> recorded s s'.
Proof.
  intros [new [C Q]] M. exists new, []. split; [exact C|]. split.
  - rewrite app_nil_r. exact M.
  - intros tail Ht. rewrite (reconciliation_skip _ _ Q), (reconciliation_quiet _ Ht).
    reflexivity.
Qed.

Lemma recorded_after s s1 s' :
  emits no_listing s s1 -> same_missing s s1 -> recorded s1 s' -> recorded s s'.
Proof.
  intros [new1 [C1 Q1]] M1 (new & extra & C & M & T).
  exists (new1 ++ new), extra. split; [rewrite C, C1, app_assoc; reflexivity|].
  split; [rewrite M, M1; reflexivity|].
  intros tail Ht. rewrite <- app_assoc, (reconciliation_skip _ _ Q1). apply T. exact Ht.
Qed.

Lemma recorded_then s s1 s' :
  recorded s s1 -> emits quiet_op s1 s' -> same_missing s1 s' -> recorded s s'.
Proof.
  intros (new & extra & C & M & T) [new1 [C1 Q1]] M1.
  exists (new ++ new1), extra. split; [rewrite C1, C, app_assoc; reflexivity|].
  split; [rewrite M1, M; reflexivity|].
  intros tail Ht. rewrite <- app_assoc. apply T. rewrite forallb_app, Q1, Ht. reflexivity.
Qed.

Lemma recorded_bind_pre {A B} (m : M A) (k : A -> M B) :
  steps (emits no_listing) m -> steps same_missing m ->
  (forall a, steps recorded (k a)) -> steps recorded (bind m k).
Proof.
  intros He Hm Hk env s. specialize (He env s). specialize (Hm env s). unfold bind.
  destruct (m env s) as [[a| |] s1]; simpl in *;
    try (apply recorded_of_quiet; assumption).
  eapply recorded_after; [exact He | exact Hm | apply Hk].
Qed.

Lemma recorded_bind_post {A B} (m : M A) (k : A -> M B) :
  steps recorded m -> (forall a, steps (emits quiet_op) (k a)) ->
  (forall a, steps same_missing (k a)) -> steps recorded (bind m k).
Proof.
  intros Hm He Hs env s. specialize (Hm env s). unfold bind.
  destruct (m env s) as [[a| |] s1]; simpl in *; try exact Hm.
  eapply recorded_then; [exact Hm | apply He | apply Hs].
Qed.

Lemma reconcilePhase_recorded fuel h oldA newA did :
  steps recorded (reconcilePhase fuel h oldA newA did).
Proof.
  intros env s.
  destruct (reconcilePhase_run fuel h oldA newA did env s)
    as (o & s' & new & extra & E & C & M & _ & T).
  rewrite E. exists new, extra. auto.
Qed.

Ltac missing_by lemma :=
  eapply lemma with (okop := anyop);
  eauto using same_missing_refl, same_missing_trans, same_missing_told,
    same_missing_logged, same_missing_store.

Lemma migrate_recorded fuel oldHandle pw url email handle invite h tfc :
  steps recorded (migrate fuel oldHandle pw url email handle invite h tfc).
Proof.
  unfold migrate.
  apply recorded_bind_pre;
    [emits_by steps_beforeCreate no_listing | missing_by steps_beforeCreate |].
  intros [[[oldA newA] did] webDid].
  apply recorded_bind_pre;
    [ eapply steps_get_this with (R := emits no_listing); apply emits_refl
    | eapply steps_get_this with (R := same_missing); apply same_missing_refl |].
  intros m.
  apply recorded_bind_pre.
  { eapply steps_when with (R := emits no_listing); [apply emits_refl|].
    emits_by steps_createAccountPhase no_listing. }
  { eapply steps_when with (R := same_missing); [apply same_missing_refl|].
    missing_by steps_createAccountPhase. }
  intros _. unfold afterCreate.
  apply recorded_bind_pre;
    [emits_by steps_loginAndSync no_listing | missing_by steps_loginAndSync |].
  intros _.
  apply recorded_bind_pre;
    [ eapply steps_get_this with (R := emits no_listing); apply emits_refl
    | eapply steps_get_this with (R := same_missing); apply same_missing_refl |].
  intros m'.
  apply recorded_bind_post.
  - destruct (migrateMissingBlobs m'); simpl.
    + apply reconcilePhase_recorded.
    + intros env s. apply recorded_of_quiet; [apply emits_refl | reflexivity].
  - intros _. emits_by steps_finish quiet_op.
  - intros _. missing_by steps_finish.
Qed.

Lemma occurrences_app cid a b :
  occurrences cid (a ++ b) = (occurrences cid a + occurrences cid b)%nat.
Proof. unfold occurrences. rewrite filter_app, length_app. reflexivity. Qed.

(** C4, as the code has it: a transfer that fails, at the fetch or at the
    upload, is caught where it happens.  The loop over a page of the listing
    returns and has asked for every blob of the page, in order; against a
    source that serves its pages the main sync returns and has asked for
    every blob of every page, whatever became of the transfers.  The retry
    pass likewise asks for every blob the destination lists as missing and
    appends to [this.missingBlobs], after what was there, the blob of each
    retry that failed, once per failed retry.  After a run of [migrate] the
    list is the list before the run followed by the blobs whose retry failed
    in the reconciliation of this run. *)
Theorem transfer_failures_are_isolated :
  (forall statusUpdateHandler oldA newA usersDid expectedBlobs cids n env s,
      exists n' new,
        fst (uploadPage statusUpdateHandler oldA newA usersDid expectedBlobs cids n
               env s) = Ret n' /\
        calls (snd (uploadPage statusUpdateHandler oldA newA usersDid expectedBlobs
                      cids n env s)) = calls s ++ new /\
        fetches new = cids) /\
  (forall env statusUpdateHandler oldA newA usersDid expectedBlobs pages fuel s,
      paged env oldA usersDid None pages ->
      (List.length pages <= fuel)%nat ->
      exists new,
        fst (blobPhase fuel statusUpdateHandler oldA newA usersDid expectedBlobs
               env s) = Ret tt /\
        calls (snd (blobPhase fuel statusUpdateHandler oldA newA usersDid
                      expectedBlobs env s)) = calls s ++ new /\
        fetches new = List.concat (map fst pages)) /\
  (forall statusUpdateHandler oldA newA usersDid total blobs n env s,
      exists n' new,
        fst (retryPage statusUpdateHandler oldA newA usersDid total blobs n env s)
        = Ret n' /\
        calls (snd (retryPage statusUpdateHandler oldA newA usersDid total blobs n
                      env s)) = calls s ++ new /\
        fetches new = map rb_cid blobs /\
        missingBlobs (this (snd (retryPage statusUpdateHandler oldA newA usersDid
                                   total blobs n env s)))
        = missingBlobs (this s) ++ failed_transfers None new) /\
  (forall fuel oldHandle password newPdsUrl newEmail newHandle inviteCode
          statusUpdateHandler twoFactorCode env m,
      let r := migrate fuel oldHandle password newPdsUrl newEmail newHandle inviteCode
                 statusUpdateHandler twoFactorCode env (start m) in
      missingBlobs (this (snd r))
      = missingBlobs m ++ failed_transfers None (reconciliation (calls (snd r))) /\
      forall cid,
        occurrences cid (missingBlobs (this (snd r)))
        = (occurrences cid (missingBlobs m)
           + occurrences cid (failed_transfers None (reconciliation (calls (snd r)))))%nat).
Proof.
  split; [|split; [|split]].
  - intros h oldA newA did expected cids n env s.
    destruct (uploadPage_run h oldA newA did expected cids n env s)
      as (n' & s' & new & E & C & F & _).
    rewrite E. exists n', new. auto.
  - intros env h oldA newA did expected pages fuel s Hp Hf.
    destruct (blobPhase_run fuel h oldA newA did expected env s) as (s0 & Hs0 & ->).
    destruct (@blobLoop_paged env h oldA newA did expected pages None 0%Z fuel s0 Hp Hf)
      as (s' & new & E & C & _ & F & _).
    rewrite E. exists new. simpl. rewrite C, Hs0. auto.
  - intros h oldA newA did total blobs n env s.
    destruct (retryPage_run h oldA newA did total blobs n env s)
      as (n' & s' & new & extra & E & C & F & M & _ & T).
    rewrite E. exists n', new. simpl.
    specialize (T []). rewrite !app_nil_r in T. rewrite T. auto.
  - intros fuel oldHandle password newPdsUrl newEmail newHandle inviteCode h tfc env m r.
    subst r.
    destruct (@migrate_recorded fuel oldHandle password newPdsUrl newEmail newHandle
                inviteCode h tfc env (start m)) as (new & extra & C & M & T).
    simpl in C, M. specialize (T [] eq_refl). rewrite app_nil_r in T.
    rewrite C, T, M. split; [reflexivity|].
    intros cid. apply occurrences_app.
Qed.

(** One page of 100 blobs, the 37th of which cannot be fetched. *)
Lemma transfer_failures_are_isolated_witness :
  exists new,
    fst (blobPhase 1 true bsky newPds (u "did:plc:alice") 100 flaky (start newMigrator))
    = Ret tt /\
    calls (snd (blobPhase 1 true bsky newPds (u "did:plc:alice") 100 flaky
                  (start newMigrator)))
    = calls (start newMigrator) ++ new /\
    fetches new = List.concat (map fst [(map cidOf (seq 1 100), @None jsstring)]).
Proof.
  destruct transfer_failures_are_isolated as (_ & H & _).
  apply (H flaky true bsky newPds (u "did:plc:alice") 100%Z
           [(map cidOf (seq 1 100), None)] 1%nat (start newMigrator)).
  - simpl. split; [intros; reflexivity | reflexivity].
  - simpl. lia.
Defined.

(** The claim as the specification words it fails on the code.  Blob 37
    cannot be fetched.  A first run of [migrate] on a fresh instance ends
    with it once in the list; a second run on the same instance retries it
    once, fails once, and ends with it twice in the list.  And in a single
    run, when the destination lists the blob under two records, it is
    retried twice and added twice. *)
Lemma missing_blob_recorded_twice :
  (let first := migrateAlice 1 flaky (start newMigrator) in
   let second := migrateAlice 1 flaky (start (this (snd first))) in
   fst first = Ret tt /\
   missingBlobs (this (snd first)) = [cidOf 37] /\
   fst second = Ret tt /\
   failed_transfers None (reconciliation (calls (snd second))) = [cidOf 37] /\
   occurrences (cidOf 37) (missingBlobs (this (snd second))) = 2%nat) /\
  (let once := migrateAlice 1 flakyTwice (start newMigrator) in
   fst once = Ret tt /\
   occurrences (cidOf 37) (missingBlobs (this (snd once))) = 2%nat).
Proof. split; vm_compute; repeat split; reflexivity. Qed.

(** The example of the specification: of 100 blobs the 37th fails; the 63
    after it are still asked for, then the 37th once more in the retry pass;
    the run returns, and the blob is in the list once. *)
Lemma blob_37_of_100 :
  fst (migrateAlice 1 flaky (start newMigrator)) = Ret tt /\
  fetches (calls (snd (migrateAlice 1 flaky (start newMigrator))))
  = map cidOf (seq 1 100) ++ [cidOf 37] /\
  uploads (calls (snd (migrateAlice 1 flaky (start newMigrator)))) = 99%nat /\
  occurrences (cidOf 37)
    (missingBlobs (this (snd (migrateAlice 1 flaky (start newMigrator))))) = 1%nat.
Proof. vm_compute. repeat split; reflexivity. Qed.

(** ** The normalisation of the handle *)

Lemma trim_start_plain s :
  forallb (fun c => negb (is_js_space c)) s = true -> trim_start s = s.
Proof.
  destruct s as [|x s]; simpl; [reflexivity|].
  destruct (is_js_space x); [discriminate | reflexivity].
Qed.

Lemma forallb_rev {A} (p : A -> bool) l : forallb p (rev l) = forallb p l.
Proof.
  induction l as [|x l IH]; simpl; [reflexivity|].
  rewrite forallb_app, IH. simpl. rewrite andb_true_r. apply andb_comm.
Qed.

Lemma filter_all {A} (p : A -> bool) l : forallb p l = true -> filter p l = l.
Proof.
  induction l as [|x l IH]; simpl; [reflexivity|].
  destruct (p x); simpl; [|discriminate]. intros H. rewrite (IH H). reflexivity.
Qed.

Lemma replace_first_absent c s :
  forallb (fun x => negb (N.eqb x c)) s = true -> replace_first c s = s.
Proof.
  induction s as [|x s IH]; simpl; [reflexivity|].
  destruct (N.eqb x c); simpl; [discriminate|]. intros H. rewrite (IH H). reflexivity.
Qed.

Lemma forallb_weaken {A} (p q : A -> bool) l :
  (forall x, p x = true -> q x = true) -> forallb p l = true -> forallb q l = true.
Proof.
  intros Hpq. rewrite !forallb_forall. intros H x Hx. apply Hpq. apply H. exact Hx.
Qed.

(** X1: a handle that holds no [@], no blank and no direction mark goes
    through the normalisation of [migrate] and [deactivateOldAccount]
    unchanged. *)
Theorem normalizeHandle_plain :
  forall oldHandle, plain_handle oldHandle = true -> normalizeHandle oldHandle = oldHandle.
Proof.
  intros h H. unfold plain_handle in H. unfold normalizeHandle, trim.
  assert (Hat : forallb (fun x => negb (N.eqb x 64)) h = true).
  { revert H. apply forallb_weaken. intros x Hx.
    apply andb_true_iff in Hx. destruct Hx as [Hx _].
    apply andb_true_iff in Hx. apply Hx. }
  assert (Hsp : forallb (fun c => negb (is_js_space c)) h = true).
  { revert H. apply forallb_weaken. intros x Hx.
    apply andb_true_iff in Hx. destruct Hx as [Hx _].
    apply andb_true_iff in Hx. apply Hx. }
  assert (Hbi : forallb (fun c => negb (is_bidi_mark c)) h = true).
  { revert H. apply forallb_weaken. intros x Hx.
    apply andb_true_iff in Hx. apply Hx. }
  rewrite (replace_first_absent _ _ Hat), (trim_start_plain _ Hsp).
  rewrite trim_start_plain by (rewrite forallb_rev; exact Hsp).
  rewrite rev_involutive. apply filter_all. exact Hbi.
Qed.

Lemma normalizeHandle_plain_witness :
  normalizeHandle (u "alice.bsky.social") = u "alice.bsky.social".
Proof. apply (@normalizeHandle_plain (u "alice.bsky.social")). reflexivity. Defined.

Lemma forallb_filter_self {A} (p : A -> bool) l : forallb p (filter p l) = true.
Proof.
  induction l as [|x l IH]; simpl; [reflexivity|].
  destruct (p x) eqn:E; simpl; [rewrite E|]; exact IH.
Qed.

Lemma count_at_app a b : count_at (a ++ b) = (count_at a + count_at b)%nat.
Proof. unfold count_at. rewrite filter_app, length_app. reflexivity. Qed.

Lemma count_at_rev s : count_at (rev s) = count_at s.
Proof.
  induction s as [|x s IH]; simpl; [reflexivity|].
  rewrite count_at_app, IH. change (x :: s) with ([x] ++ s).
  rewrite count_at_app. apply Nat.add_comm.
Qed.

Lemma count_at_cons x s :
  count_at (x :: s) = if N.eqb 64 x then S (count_at s) else count_at s.
Proof. unfold count_at. cbn [filter]. destruct (N.eqb 64 x); reflexivity. Qed.

Lemma count_at_trim_start s : count_at (trim_start s) = count_at s.
Proof.
  induction s as [|x s IH]; cbn [trim_start]; [reflexivity|].
  destruct (is_js_space x) eqn:E; [|reflexivity].
  rewrite IH, count_at_cons.
  destruct (N.eqb 64 x) eqn:Ex; [|reflexivity].
  apply N.eqb_eq in Ex. subst x. discriminate E.
Qed.

Lemma count_at_marks s :
  count_at (filter (fun c => negb (is_bidi_mark c)) s) = count_at s.
Proof.
  induction s as [|x s IH]; cbn [filter]; [reflexivity|].
  rewrite (count_at_cons x s).
  destruct (is_bidi_mark x) eqn:E; cbn [negb].
  - rewrite IH. destruct (N.eqb 64 x) eqn:Ex; [|reflexivity].
    apply N.eqb_eq in Ex. subst x. discriminate E.
  - rewrite count_at_cons, IH. reflexivity.
Qed.

Lemma count_at_replace_first s :
  count_at (replace_first 64 s) = pred (count_at s).
Proof.
  induction s as [|x s IH]; cbn [replace_first]; [reflexivity|].
  rewrite (count_at_cons x s), (N.eqb_sym 64 x).
  destruct (N.eqb x 64) eqn:E; [reflexivity|].
  rewrite count_at_cons, (N.eqb_sym 64 x), E. exact IH.
Qed.

(** X2: what the normalisation removes.  No direction mark of the class
    survives it, and of the [@] of the handle it takes one, the first: a
    handle with several keeps the others. *)
Theorem normalizeHandle_marks_and_at :
  forall oldHandle,
    forallb (fun c => negb (is_bidi_mark c)) (normalizeHandle oldHandle) = true /\
    count_at (normalizeHandle oldHandle) = pred (count_at oldHandle).
Proof.
  intros h. unfold normalizeHandle. split.
  - apply forallb_filter_self.
  - rewrite count_at_marks. unfold trim.
    rewrite count_at_rev, count_at_trim_start, count_at_rev, count_at_trim_start.
    apply count_at_replace_first.
Qed.

(** ** The scan of the PLC log *)

Lemma last_cons_any {A} (x : A) l d : last (x :: l) d = last l x.
Proof.
  revert x d. induction l as [|y l IH]; intros x d; [reflexivity|].
  change (last (x :: y :: l) d) with (last (y :: l) d).
  rewrite IH. symmetry. apply IH.
Qed.

Section ScanFacts.

Variable toLowerCase : jsstring -> jsstring.

Lemma scanLog_prefix currentPds pre c post prior :
  forallb (fun p => negb (str_eqb (toLowerCase p) (toLowerCase currentPds)))
          (readable pre) = true ->
  str_eqb (toLowerCase c) (toLowerCase currentPds) = true ->
  scanLog toLowerCase currentPds (pre ++ Some c :: post) prior
  = last (readable pre) prior.
Proof.
  intros Hpre Hc. revert prior Hpre.
  induction pre as [|[p|] pre IH]; intros prior Hpre; cbn [app scanLog readable].
  - rewrite Hc. reflexivity.
  - cbn [readable forallb] in Hpre. apply andb_true_iff in Hpre.
    destruct Hpre as [Hp Hpre]. apply negb_true_iff in Hp. rewrite Hp.
    rewrite (IH p Hpre). symmetry. apply last_cons_any.
  - apply IH. exact Hpre.
Qed.

Lemma scanLog_absent currentPds plcLog prior :
  forallb (fun p => negb (str_eqb (toLowerCase p) (toLowerCase currentPds)))
          (readable plcLog) = true ->
  scanLog toLowerCase currentPds plcLog prior = last (readable plcLog) prior.
Proof.
  revert prior.
  induction plcLog as [|[p|] l IH]; intros prior H; cbn [scanLog readable].
  - reflexivity.
  - cbn [readable forallb] in H. apply andb_true_iff in H.
    destruct H as [Hp H]. apply negb_true_iff in Hp. rewrite Hp.
    rewrite (IH p H). symmetry. apply last_cons_any.
  - apply IH. exact H.
Qed.

(** X3: the endpoint the scan of [deactivateOldAccount] computes, on any
    log.  Up to the first entry that is the current endpoint (letter case
    apart) the candidate is the last entry that could be read; what comes
    after that entry is not looked at, and an entry that cannot be read is
    skipped.  On a log in which the current endpoint does not occur the
    scan runs to the end: the candidate is the last readable entry of the
    log.  With nothing readable the candidate stays the empty string. *)
Theorem scanLog_candidate :
  forall currentPds,
    (forall pre c post,
        forallb (fun p => negb (str_eqb (toLowerCase p) (toLowerCase currentPds)))
                (readable pre) = true ->
        str_eqb (toLowerCase c) (toLowerCase currentPds) = true ->
        scanLog toLowerCase currentPds (pre ++ Some c :: post) []
        = last (readable pre) []) /\
    (forall plcLog,
        forallb (fun p => negb (str_eqb (toLowerCase p) (toLowerCase currentPds)))
                (readable plcLog) = true ->
        scanLog toLowerCase currentPds plcLog [] = last (readable plcLog) []).
Proof.
  intros currentPds. split.
  - intros. apply scanLog_prefix; assumption.
  - intros. apply scanLog_absent; assumption.
Qed.

(** The candidate was never the current endpoint, letter case apart. *)
Lemma scanLog_differs currentPds plcLog prior :
  prior = [] \/ str_eqb (toLowerCase prior) (toLowerCase currentPds) = false ->
  scanLog toLowerCase currentPds plcLog prior = [] \/
  str_eqb (toLowerCase (scanLog toLowerCase currentPds plcLog prior))
          (toLowerCase currentPds) = false.
Proof.
  revert prior. induction plcLog as [|[pds|] rest IH]; intros prior H; cbn [scanLog].
  - exact H.
  - destruct (str_eqb (toLowerCase pds) (toLowerCase currentPds)) eqn:E.
    + exact H.
    + apply IH. right. exact E.
  - apply IH. exact H.
Qed.

End ScanFacts.

(** A log with an unreadable entry and an entry after the current endpoint;
    a log that does not hold the current endpoint. *)
Lemma scanLog_candidate_witness :
  scanLog ascii_toLowerCase (u "https://c.example")
    ([Some (u "https://a.example"); None; Some (u "https://b.example"); None]
     ++ Some (u "https://C.example") :: [Some (u "https://d.example")]) []
  = u "https://b.example" /\
  scanLog ascii_toLowerCase (u "https://c.example")
    [Some (u "https://a.example"); Some (u "https://b.example")] []
  = u "https://b.example".
Proof.
  destruct (scanLog_candidate ascii_toLowerCase (u "https://c.example")) as [H1 H2].
  split.
  - apply (H1 [Some (u "https://a.example"); None; Some (u "https://b.example"); None]
              (u "https://C.example") [Some (u "https://d.example")]); reflexivity.
  - apply (H2 [Some (u "https://a.example"); Some (u "https://b.example")]). reflexivity.
Defined.

(** ** A DID document without a PDS *)

(** X4: a DID document without a service of type
    [AtprotoPersonalDataServer] (or without [service] at all) ends both
    workflows with 'Could not find a PDS in the DID document.' right after
    the two calls of the resolution: no login is attempted and the PLC log is
    not fetched.  [migrate] reads the document only for a handle that is not
    at the entryway. *)
Theorem no_pds_no_login :
  forall env m did didDoc oldHandle,
    firstPds didDoc = None ->
    env [] (resolveCall (normalizeHandle oldHandle)) = RDid did ->
    env [Ev (resolveCall (normalizeHandle oldHandle)) (RDid did)] (DocResolve did)
    = RDidDoc didDoc ->
    (forall fuel password newPdsUrl newEmail newHandle inviteCode statusUpdateHandler
            twoFactorCode,
        endsWith (normalizeHandle oldHandle) (u ".bsky.social") = false ->
        let r := migrate fuel oldHandle password newPdsUrl newEmail newHandle inviteCode
                   statusUpdateHandler twoFactorCode env (start m) in
        fst r = Throw (JsError "Could not find a PDS in the DID document.") /\
        calls_of (snd r) = [HandleResolve (normalizeHandle oldHandle); DocResolve did] /\
        this (snd r) = m) /\
    (forall toLowerCase oldPassword statusUpdateHandler twoFactorCode,
        let r := deactivateOldAccount toLowerCase oldHandle oldPassword
                   statusUpdateHandler twoFactorCode env (start m) in
        fst r = Throw (JsError "Could not find a PDS in the DID document.") /\
        calls_of (snd r) = [resolveCall (normalizeHandle oldHandle); DocResolve did] /\
        this (snd r) = m).
Proof.
  intros env m did doc oldHandle Hpds Hr Hd. split.
  - intros fuel pw url email handle invite h tfc Hends r. subst r.
    unfold resolveCall in Hr, Hd. rewrite Hends in Hr, Hd.
    unfold migrate, beforeCreate, resolveSource. rewrite Hends.
    destruct h; run_monad; cbn [app]; rewrite Hr; run_monad; cbn [app];
      rewrite Hd; run_monad; rewrite findPds_firstPds, Hpds; run_monad;
      repeat split; reflexivity.
  - intros lower pw h tfc r. subst r.
    unfold deactivateOldAccount, resolveDid. unfold resolveCall in *.
    destruct (endsWith (normalizeHandle oldHandle) (u ".bsky.social"));
      destruct h; run_monad; cbn [app]; rewrite Hr; run_monad; cbn [app];
      rewrite Hd; run_monad; rewrite findPds_firstPds, Hpds; run_monad;
      repeat split; reflexivity.
Qed.

(** A handle on a domain of its own, in a world whose documents name no
    PDS. *)
Lemma no_pds_no_login_witness :
  fst (migrate 1 (u "alice.example.com") (u "pw") (u "https://new.example") (u "a@b.c")
         (u "alice.new.example") None true None noPds (start newMigrator))
  = Throw (JsError "Could not find a PDS in the DID document.") /\
  fst (deactivateOldAccount ascii_toLowerCase (u "alice.example.com") (u "pw") true None
         noPds (start newMigrator))
  = Throw (JsError "Could not find a PDS in the DID document.").
Proof.
  destruct (@no_pds_no_login noPds newMigrator (u "did:plc:alice")
              (mkDidDoc (Some [mkService (u "AtprotoLabeler") (u "https://l.example")]))
              (u "alice.example.com") eq_refl eq_refl eq_refl) as [H1 H2].
  split.
  - apply (H1 1%nat (u "pw") (u "https://new.example") (u "a@b.c")
              (u "alice.new.example") None true None). reflexivity.
  - apply (H2 ascii_toLowerCase (u "pw") true None).
Defined.

(** ** [signPlcOperation], call by call *)



(** The spread at work: a destination that recommends a [token] of its own
    has the source sign under that one, not under the caller's. *)
Example recommended_token_is_sent :
  calls_of (snd (signPlcOperation (u "mine") tokenRecommended (start migrated)))
  = [ GetRecommendedDidCredentials newPds;
      SignPlcOperation bsky (u "theirs")
        (mkDidCredentials (JArr [u "did:key:zQ3sh"]) (u "rest"));
      SubmitPlcOperation newPds (u "signed-op");
      ActivateAccount newPds;
      DeactivateAccount bsky ].
Proof. reflexivity. Qed.

(** ** [deactivateOldAccount], call by call *)

(** The calls of [deactivateOldAccount]: either it reaches neither a status
    read that resolves nor the deactivation, or it made its six calls on
    what the scan computed. *)
Lemma deactivateOldAccount_calls toLowerCase env m oldHandle pw h tfc :
  let evs := calls (snd (deactivateOldAccount toLowerCase oldHandle pw h tfc env
                           (start m))) in
  forallb (fun e => except OpDeactivateAccount (ev_op e) && negb (status_read e)) evs
  = true \/
  exists did didDoc currentPds plcLog activated expected imported r,
    firstPds didDoc = Some currentPds /\
    str_eqb (scanLog toLowerCase currentPds plcLog []) [] = false /\
    let oldAgent := mkAgent OldAgent (scanLog toLowerCase currentPds plcLog []) in
    evs = [ Ev (resolveCall (normalizeHandle oldHandle)) (RDid did);
            Ev (DocResolve did) (RDidDoc didDoc);
            Ev (FetchPlcLog (u "https://plc.directory/" ++ did ++ u "/log")) (RLog plcLog);
            Ev (Login oldAgent (normalizeHandle oldHandle) pw tfc) RVoid;
            Ev (CheckAccountStatus oldAgent) (RStatus activated expected imported);
            Ev (DeactivateAccount oldAgent) r ].
Proof.
  unfold deactivateOldAccount, resolveDid, scanAndDeactivate, deactivatePrior,
    resolveCall.
  destruct (endsWith (normalizeHandle oldHandle) (u ".bsky.social")); destruct h;
    exec env;
    try (rewrite findPds_firstPds; destruct (firstPds _) eqn:Epds; exec env);
    cbn [app];
    first [ left; reflexivity
          | right; do 8 eexists;
            split; [eassumption|]; split; [eassumption|]; reflexivity ].
Qed.

(** X7: where the deactivation of [deactivateOldAccount] goes, and when.
    Whatever the world answers, a call of [deactivateAccount] in a run is
    the sixth and last call of the run.  The five calls before it all
    resolved, in this order: the resolution of the handle, the DID document
    of the DID it gave, the PLC log of that DID, the login and the status
    read.  Login, status read and deactivation go through one client, that
    of the endpoint the scan computed from the log: a string that is not
    empty and that differs, letter case apart, from the string the DID
    document names as the current PDS.  The comparison is one of strings,
    not of addresses. *)
Theorem deactivation_goes_to_the_scanned_endpoint :
  forall toLowerCase env m oldHandle oldPassword statusUpdateHandler twoFactorCode
         pre e post,
    let r := deactivateOldAccount toLowerCase oldHandle oldPassword statusUpdateHandler
               twoFactorCode env (start m) in
    calls (snd r) = pre ++ e :: post ->
    ev_op e = OpDeactivateAccount ->
    exists did didDoc currentPds plcLog activated expected imported,
      let prior := scanLog toLowerCase currentPds plcLog [] in
      let oldAgent := mkAgent OldAgent prior in
      pre = [ Ev (resolveCall (normalizeHandle oldHandle)) (RDid did);
              Ev (DocResolve did) (RDidDoc didDoc);
              Ev (FetchPlcLog (u "https://plc.directory/" ++ did ++ u "/log"))
                 (RLog plcLog);
              Ev (Login oldAgent (normalizeHandle oldHandle) oldPassword twoFactorCode)
                 RVoid;
              Ev (CheckAccountStatus oldAgent) (RStatus activated expected imported) ] /\
      ev_call e = DeactivateAccount oldAgent /\
      post = [] /\
      firstPds didDoc = Some currentPds /\
      prior <> [] /\
      str_eqb (toLowerCase prior) (toLowerCase currentPds) = false.
Proof.
  intros lower env m oldHandle pw h tfc pre e post r Hsplit Hop. subst r.
  destruct (deactivateOldAccount_calls lower env m oldHandle pw h tfc) as [Hno | Hall].
  - cbv zeta in Hno. rewrite Hsplit, forallb_app in Hno. cbn [forallb] in Hno.
    rewrite Hop in Hno. cbn [except op_eqb negb andb] in Hno.
    rewrite andb_false_r in Hno. discriminate Hno.
  - destruct Hall as (did & doc & cur & log & a & x & y & r & Hpds & Hne & Hev).
    cbv zeta in Hev. rewrite Hsplit in Hev.
    assert (Hres : ev_op (Ev (resolveCall (normalizeHandle oldHandle)) (RDid did))
                   <> OpDeactivateAccount)
      by (unfold resolveCall; destruct (endsWith _ _); discriminate).
    exists did, doc, cur, log, a, x, y. cbv zeta.
    destruct pre as [|p1 pre]; cbn [app] in Hev;
      [injection Hev as -> _; contradiction|injection Hev as -> Hev].
    do 4 (destruct pre as [|? pre]; cbn [app] in Hev;
          [injection Hev as -> _; discriminate Hop|injection Hev as -> Hev]).
    destruct pre as [|? pre]; cbn [app] in Hev.
    + injection Hev as -> <-.
      split; [reflexivity|]. split; [reflexivity|]. split; [reflexivity|].
      split; [exact Hpds|].
      split; [intros H0; rewrite H0 in Hne; discriminate Hne|].
      destruct (scanLog_differs lower cur log (prior := [])) as [H0 | H0];
        [left; reflexivity | rewrite H0 in Hne; discriminate Hne | exact H0].
    + injection Hev as _ Hev. destruct pre; discriminate Hev.
Qed.

(** In a world in which every call succeeds the account at the endpoint
    before the current one is deactivated. *)
Lemma deactivation_goes_to_the_scanned_endpoint_witness :
  exists did didDoc currentPds plcLog activated expected imported,
    let prior := scanLog ascii_toLowerCase currentPds plcLog [] in
    let oldAgent := mkAgent OldAgent prior in
    removelast (calls (snd (deactivateOldAccount ascii_toLowerCase (u "alice.example.com")
                              (u "pw") true None happy (start newMigrator))))
    = [ Ev (resolveCall (normalizeHandle (u "alice.example.com"))) (RDid did);
        Ev (DocResolve did) (RDidDoc didDoc);
        Ev (FetchPlcLog (u "https://plc.directory/" ++ did ++ u "/log")) (RLog plcLog);
        Ev (Login oldAgent (normalizeHandle (u "alice.example.com")) (u "pw") None) RVoid;
        Ev (CheckAccountStatus oldAgent) (RStatus activated expected imported) ] /\
    ev_call (Ev (DeactivateAccount (mkAgent OldAgent (u "https://b.example"))) RVoid)
    = DeactivateAccount oldAgent /\
    @nil Event = [] /\
    firstPds didDoc = Some currentPds /\
    prior <> [] /\
    str_eqb (ascii_toLowerCase prior) (ascii_toLowerCase currentPds) = false.
Proof.
  apply (@deactivation_goes_to_the_scanned_endpoint ascii_toLowerCase happy newMigrator
           (u "alice.example.com") (u "pw") true None
           (removelast (calls (snd (deactivateOldAccount ascii_toLowerCase
                                      (u "alice.example.com") (u "pw") true None happy
                                      (start newMigrator)))))
           (Ev (DeactivateAccount (mkAgent OldAgent (u "https://b.example"))) RVoid)
           []).
  - reflexivity.
  - reflexivity.
Defined.

(** The comparison of the scan is one of strings: a log that spells the
    current PDS with a trailing slash has that entry taken for a prior
    endpoint, and the account there is the one deactivated. *)
Example another_spelling_is_a_prior_endpoint :
  calls_of (snd (deactivateOldAccount ascii_toLowerCase (u "alice.example.com") (u "pw")
                   true None spelledWithSlash (start newMigrator)))
  = [ HandleResolve (u "alice.example.com");
      DocResolve (u "did:plc:alice");
      FetchPlcLog (u "https://plc.directory/did:plc:alice/log");
      Login (mkAgent OldAgent (u "https://c.example/")) (u "alice.example.com") (u "pw") None;
      CheckAccountStatus (mkAgent OldAgent (u "https://c.example/"));
      DeactivateAccount (mkAgent OldAgent (u "https://c.example/")) ].
Proof. reflexivity. Qed.

(** X19: the deactivation does not depend on what the status read says.
    In a run of [deactivateOldAccount], once [checkAccountStatus] on the
    prior PDS has resolved, the next and last call is [deactivateAccount] on
    that PDS, whether the account was reported as activated or not: for an
    account that is already deactivated the call is made all the same. *)
Theorem deactivation_whatever_the_status :
  forall toLowerCase env m oldHandle oldPassword statusUpdateHandler twoFactorCode
         a activated expected imported,
    let r := deactivateOldAccount toLowerCase oldHandle oldPassword statusUpdateHandler
               twoFactorCode env (start m) in
    In (Ev (CheckAccountStatus a) (RStatus activated expected imported)) (calls (snd r)) ->
    exists pre answer,
      calls (snd r)
      = pre ++ [ Ev (CheckAccountStatus a) (RStatus activated expected imported);
                 Ev (DeactivateAccount a) answer ].
Proof.
  intros lower env m oldHandle pw h tfc a activated x y r Hin. subst r.
  destruct (deactivateOldAccount_calls lower env m oldHandle pw h tfc) as [Hno | Hall].
  - cbv zeta in Hno. rewrite forallb_forall in Hno. specialize (Hno _ Hin).
    cbn [status_read negb] in Hno. rewrite andb_false_r in Hno. discriminate Hno.
  - destruct Hall as (did & doc & cur & log & a' & x' & y' & r & Hpds & Hne & Hev).
    cbv zeta in Hev. rewrite Hev in Hin |- *.
    cbn [In] in Hin.
    destruct Hin as [Hin | [Hin | [Hin | [Hin | [Hin | [Hin | []]]]]]];
      try discriminate Hin;
      try (unfold resolveCall in Hin; destruct (endsWith _ _); discriminate Hin).
    injection Hin as <- <- <- <-.
    eexists [_; _; _; _], r. reflexivity.
Qed.

(** An account the prior PDS reports as not activated. *)
Lemma deactivation_whatever_the_status_witness :
  exists pre answer,
    calls (snd (deactivateOldAccount ascii_toLowerCase (u "alice.example.com") (u "pw")
                  true None alreadyDeactivated (start newMigrator)))
    = pre ++ [ Ev (CheckAccountStatus (mkAgent OldAgent (u "https://b.example")))
                  (RStatus false 0 0);
               Ev (DeactivateAccount (mkAgent OldAgent (u "https://b.example"))) answer ].
Proof.
  apply (@deactivation_whatever_the_status ascii_toLowerCase alreadyDeactivated
           newMigrator (u "alice.example.com") (u "pw") true None
           (mkAgent OldAgent (u "https://b.example")) false 0%Z 0%Z).
  vm_compute. do 4 right. left. reflexivity.
Defined.

(** ** Which service of the document is the PDS *)

Lemma filter_none {A} (p : A -> bool) l :
  forallb (fun x => negb (p x)) l = true -> filter p l = [].
Proof.
  induction l as [|x l IH]; cbn [forallb filter]; [reflexivity|].
  destruct (p x); cbn [negb andb]; [discriminate | exact IH].
Qed.

(** X20: which endpoint the workflows take from a DID document.  The
    services of other types are passed over, whatever their number and
    place, and of the services of type [AtprotoPersonalDataServer] the
    first one is taken: its endpoint is the source of [migrate] and the
    current PDS of [deactivateOldAccount], and a later one is never looked
    at. *)
Theorem findPds_takes_the_first :
  forall before pds after env s,
    forallb (fun x => negb (str_eqb (type x) (u "AtprotoPersonalDataServer"))) before
    = true ->
    type pds = u "AtprotoPersonalDataServer" ->
    findPds (mkDidDoc (Some (before ++ pds :: after))) env s
    = (Ret (serviceEndpoint pds), s).
Proof.
  intros before pds after env s Hb Ht. unfold findPds. cbn [doc_service].
  rewrite filter_app, (filter_none _ _ Hb). cbn [app filter].
  rewrite Ht, str_eqb_refl. reflexivity.
Qed.

(** A document that names a labeler, then two PDS. *)
Lemma findPds_takes_the_first_witness :
  findPds (mkDidDoc (Some ([mkService (u "AtprotoLabeler") (u "https://l.example")]
                           ++ mkService (u "AtprotoPersonalDataServer") (u "https://c.example")
                           :: [mkService (u "AtprotoPersonalDataServer")
                                 (u "https://d.example")])))
    happy (start newMigrator)
  = (Ret (u "https://c.example"), start newMigrator).
Proof.
  apply (@findPds_takes_the_first
           [mkService (u "AtprotoLabeler") (u "https://l.example")]
           (mkService (u "AtprotoPersonalDataServer") (u "https://c.example"))
           [mkService (u "AtprotoPersonalDataServer") (u "https://d.example")]
           happy (start newMigrator)); reflexivity.
Defined.

(** ** Properties that depend on how a run ends *)

Lemma role_eqb_refl a : role_eqb a a = true.
Proof. destruct a; reflexivity. Qed.

Lemma agent_eqb_refl a : agent_eqb a a = true.
Proof. unfold agent_eqb. rewrite role_eqb_refl, str_eqb_refl. reflexivity. Qed.

Lemma agent_eqb_eq a b : agent_eqb a b = true -> a = b.
Proof.
  destruct a as [ra sa], b as [rb sb]. unfold agent_eqb. simpl.
  rewrite andb_true_iff. intros [Hr Hs]. apply str_eqb_eq in Hs. subst sb.
  destruct ra, rb; try discriminate Hr; reflexivity.
Qed.

Section Endings.

Variable P : Ending -> St -> St -> Prop.
Variable okcall : Call -> bool.
Hypothesis P_stay : forall k s, silent k = true -> P k s s.
Hypothesis P_seq : forall k a b c, P Returned a b -> P k b c -> P k a c.
Hypothesis P_told : forall s status, P Returned s (told s status).
Hypothesis P_call :
  forall c, okcall c = true -> forall s r, P (answered r) s (logged s c r).

Lemma ends_ret {A} (a : A) : ends P (ret a).
Proof. intros env s. apply P_stay. reflexivity. Qed.

Lemma ends_throw {A} (e : Exn) : silent (Threw e) = true -> ends P (@throw A e).
Proof. intros H env s. apply P_stay. exact H. Qed.

Lemma ends_diverge {A} : ends P (@diverge A).
Proof. intros env s. apply P_stay. reflexivity. Qed.

Lemma ends_get_this : ends P get_this.
Proof. intros env s. apply P_stay. reflexivity. Qed.

Lemma ends_bind {A B} (m : M A) (k : A -> M B) :
  ends P m -> (forall a, ends P (k a)) -> ends P (bind m k).
Proof.
  intros Hm Hk env s. unfold bind. specialize (Hm env s).
  destruct (m env s) as [[a| e |] s1]; simpl in *; auto.
  eapply P_seq; [exact Hm | apply Hk].
Qed.

Lemma ends_call c : okcall c = true -> ends P (call c).
Proof.
  intros H env s. unfold call. cbn [fst snd].
  assert (E : forall r, ending (match r with
                                | RThrow why => Throw (Rejected why)
                                | _ => Ret r
                                end) = answered r) by (intros []; reflexivity).
  rewrite E. apply P_call. exact H.
Qed.

Lemma ends_say h status : ends P (safeStatusUpdate h status).
Proof.
  intros env s. unfold safeStatusUpdate.
  destruct h; simpl; [apply P_told | apply P_stay; reflexivity].
Qed.

Lemma ends_deref {A} (a : option A) : ends P (deref a).
Proof. destruct a; [apply ends_ret | apply ends_throw; reflexivity]. Qed.

Lemma ends_when flag body : ends P body -> ends P (when flag body).
Proof. intros H. destruct flag; [exact H | apply ends_ret]. Qed.

Lemma ends_expect {A} (pick : Resp -> option A) r : ends P (expect pick r).
Proof.
  unfold expect. destruct (pick r); [apply ends_ret | apply ends_throw; reflexivity].
Qed.

Lemma ends_findPds didDoc : ends P (findPds didDoc).
Proof.
  rewrite findPds_firstPds.
  destruct (firstPds didDoc); [apply ends_ret | apply ends_throw; reflexivity].
Qed.

(** The structure of a computation is followed mechanically; the calls
    are left to [okcall]. *)
Ltac ends_go :=
  repeat first
    [ apply ends_ret | apply ends_throw; reflexivity | apply ends_diverge
    | apply ends_get_this | apply ends_say | apply ends_deref
    | apply ends_bind | apply ends_when | apply ends_expect | apply ends_findPds
    | match goal with
      | |- forall _, ends _ _ => intro
      | |- ends _ (if ?b then _ else _) => destruct b
      | |- ends _ (let (_, _) := ?x in _) => destruct x
      end ].

(** The phases that need no client. *)
Lemma ends_beforeCreate h oldHandle password newPdsUrl twoFactorCode :
  (forall c, early_op (op_of c) = true -> okcall c = true) ->
  ends P (beforeCreate h oldHandle password newPdsUrl twoFactorCode).
Proof.
  intros H. unfold beforeCreate, resolveSource, login.
  ends_go; apply ends_call; apply H; reflexivity.
Qed.

Lemma ends_signPlcOperation token :
  (forall c, okcall c = true) -> ends P (signPlcOperation token).
Proof. intros H. unfold signPlcOperation. ends_go; apply ends_call; apply H. Qed.

Lemma ends_deactivateOldAccount lower oldHandle pw h tfc :
  (forall c, okcall c = true) ->
  ends P (deactivateOldAccount lower oldHandle pw h tfc).
Proof.
  intros H.
  unfold deactivateOldAccount, scanAndDeactivate, resolveDid, deactivatePrior, login,
    checkAccountStatus.
  ends_go; apply ends_call; apply H.
Qed.

(** The phases that work with the two clients and the DID. *)
Variables oldA newA : Agent.
Variable did : jsstring.
(** The phases that move the data, when [okcall] lets their calls
    through. *)
Lemma ends_repoPhase_ok h :
  okcall (GetRepo oldA did) = true ->
  (forall car, okcall (ImportRepo newA car) = true) ->
  ends P (repoPhase h oldA newA did).
Proof.
  intros H1 H2. unfold repoPhase.
  ends_go; apply ends_call; first [exact H1 | apply H2].
Qed.

Lemma ends_prefsPhase_ok :
  okcall (GetPreferences oldA) = true ->
  (forall prefs, okcall (PutPreferences newA prefs) = true) ->
  ends P (prefsPhase oldA newA).
Proof.
  intros H1 H2. unfold prefsPhase.
  ends_go; apply ends_call; first [exact H1 | apply H2].
Qed.

Hypothesis okcall_routed :
  forall c, migrate_call oldA newA did c = true ->
            moving_op (op_of c) = false -> okcall c = true.
Hypothesis ends_repoPhase : forall h, ends P (repoPhase h oldA newA did).
Hypothesis ends_prefsPhase : ends P (prefsPhase oldA newA).
Hypothesis ends_uploadOne :
  forall h expected cid n, ends P (uploadOne h oldA newA did expected cid n).
Hypothesis ends_retryOne :
  forall h total recordBlob n, ends P (retryOne h oldA newA did total recordBlob n).
Hypothesis ends_storeAgents : ends P (storeAgents oldA newA).

Ltac routed :=
  apply ends_call; apply okcall_routed;
  [ cbn [migrate_call car_did]; rewrite ?agent_eqb_refl, ?str_eqb_refl; reflexivity
  | reflexivity ].

Lemma ends_createAccountPhase h webDid pw email handle invite :
  ends P (createAccountPhase h oldA newA did webDid pw email handle invite).
Proof. unfold createAccountPhase. ends_go; routed. Qed.

Lemma ends_uploadPage h expected cids n :
  ends P (uploadPage h oldA newA did expected cids n).
Proof.
  revert n. induction cids as [|cid rest IH]; intros n; cbn [uploadPage].
  - apply ends_ret.
  - apply ends_bind; [apply ends_uploadOne | intros; apply IH].
Qed.

Lemma ends_blobLoop fuel h expected cursor n :
  ends P (blobLoop fuel h oldA newA did expected cursor n).
Proof.
  revert cursor n. induction fuel as [|fuel IH]; intros cursor n; cbn [blobLoop].
  - apply ends_diverge.
  - apply ends_bind; [apply ends_say | intros _].
    apply ends_bind; [routed | intros r].
    apply ends_bind; [apply ends_expect | intros listed].
    apply ends_bind; [apply ends_uploadPage | intros n'].
    destruct (cursor_truthy (snd listed)); [apply IH | apply ends_ret].
Qed.

Lemma ends_retryPage h total blobs n :
  ends P (retryPage h oldA newA did total blobs n).
Proof.
  revert n. induction blobs as [|b rest IH]; intros n; cbn [retryPage].
  - apply ends_ret.
  - apply ends_bind; [apply ends_retryOne | intros; apply IH].
Qed.

Lemma ends_retryLoop fuel h total cursor n :
  ends P (retryLoop fuel h oldA newA did total cursor n).
Proof.
  revert cursor n. induction fuel as [|fuel IH]; intros cursor n; cbn [retryLoop].
  - apply ends_diverge.
  - apply ends_bind; [apply ends_say | intros _].
    apply ends_bind; [routed | intros r].
    apply ends_bind; [apply ends_expect | intros listed].
    apply ends_bind; [apply ends_retryPage | intros n'].
    destruct (cursor_truthy (snd listed)); [apply IH | apply ends_ret].
Qed.

Lemma ends_checkAccountStatus : ends P (checkAccountStatus newA).
Proof. unfold checkAccountStatus. ends_go; routed. Qed.

Lemma ends_reconcilePhase fuel h : ends P (reconcilePhase fuel h oldA newA did).
Proof.
  unfold reconcilePhase.
  apply ends_bind; [apply ends_checkAccountStatus|].
  intros [[a e] i]. destruct (negb (e =? i)%Z); [|apply ends_ret].
  apply ends_bind; [apply ends_say | intros _]. apply ends_retryLoop.
Qed.

Lemma ends_loginAndSync fuel h pw : ends P (loginAndSync fuel h oldA newA did pw).
Proof.
  unfold loginAndSync, blobPhase.
  apply ends_bind; [apply ends_say | intros _].
  apply ends_bind; [unfold login; ends_go; routed | intros _].
  apply ends_bind; [apply ends_get_this | intros m].
  apply ends_bind; [apply ends_when; apply ends_repoPhase | intros _].
  apply ends_bind; [apply ends_checkAccountStatus | intros status].
  apply ends_bind; [apply ends_get_this | intros m'].
  apply ends_when. apply ends_bind; [apply ends_say | intros _].
  apply ends_blobLoop.
Qed.

Lemma ends_finish h : ends P (finish h oldA newA).
Proof.
  unfold finish.
  apply ends_bind; [apply ends_get_this | intros m].
  apply ends_bind; [apply ends_when; apply ends_prefsPhase | intros _].
  apply ends_bind; [apply ends_storeAgents | intros _].
  apply ends_bind; [apply ends_get_this | intros m'].
  apply ends_when. unfold plcPhase. ends_go; routed.
Qed.

Lemma ends_afterCreate fuel h pw : ends P (afterCreate fuel h oldA newA did pw).
Proof.
  unfold afterCreate.
  apply ends_bind; [apply ends_loginAndSync | intros _].
  apply ends_bind; [apply ends_get_this | intros m].
  apply ends_bind; [apply ends_when; apply ends_reconcilePhase | intros _].
  apply ends_finish.
Qed.

(** Lines 106-242 of [migrate]: all that follows the probe of the
    destination. *)
Lemma ends_fromCreate fuel h webDid pw email handle invite :
  ends P (m <- get_this ;;
          when (createNewAccount m)
            (createAccountPhase h oldA newA did webDid pw email handle invite) ;;
          afterCreate fuel h oldA newA did pw).
Proof.
  apply ends_bind; [apply ends_get_this | intros m].
  apply ends_bind; [apply ends_when; apply ends_createAccountPhase | intros _].
  apply ends_afterCreate.
Qed.

End Endings.

(** ** A rejected call ends the run *)

Lemma clean_app tol a b : clean tol (a ++ b) = clean tol a && clean tol b.
Proof. apply forallb_app. Qed.

Lemma fails_fast_stay tol k s : silent k = true -> fails_fast tol k s s.
Proof.
  intros H. exists []. split; [symmetry; apply app_nil_r|].
  destruct k as [|[]|]; try reflexivity. discriminate H.
Qed.

Lemma fails_fast_seq tol k a b c :
  fails_fast tol Returned a b -> fails_fast tol k b c -> fails_fast tol k a c.
Proof.
  intros [n1 [E1 C1]] [n2 [E2 C2]]. exists (n1 ++ n2).
  split; [rewrite E2, E1; symmetry; apply app_assoc|].
  destruct k as [|[| |why]|]; try (rewrite clean_app, C1, C2; reflexivity).
  destruct C2 as (pre & e & -> & Hr & Ht & Hc).
  exists (n1 ++ pre), e. rewrite app_assoc, clean_app, C1, Hc. repeat split; assumption.
Qed.

Lemma fails_fast_told tol s status : fails_fast tol Returned s (told s status).
Proof. exists []. split; [simpl; symmetry; apply app_nil_r | reflexivity]. Qed.

Lemma fails_fast_call tol c :
  negb (tol (op_of c)) = true ->
  forall s r, fails_fast tol (answered r) s (logged s c r).
Proof.
  intros H s r. apply negb_true_iff in H. exists [Ev c r]. split; [reflexivity|].
  destruct r; try reflexivity.
  exists [], (Ev c (RThrow why)). repeat split; assumption.
Qed.

Lemma fails_fast_set tol f : ends (fails_fast tol) (set_this f).
Proof. intros env s. exists []. split; [simpl; symmetry; apply app_nil_r | reflexivity]. Qed.

(** A transfer never throws, and rejects nothing but its own two calls. *)
Lemma fails_fast_uploadOne h oldA newA did expected cid n :
  ends (fails_fast transfer_op) (uploadOne h oldA newA did expected cid n).
Proof.
  intros env [m cs sd]. unfold uploadOne.
  destruct h; exec env; eexists; (split; [rewrite <- ?app_assoc; reflexivity|]);
    reflexivity.
Qed.

Lemma fails_fast_retryOne h oldA newA did total rb n :
  ends (fails_fast transfer_op) (retryOne h oldA newA did total rb n).
Proof.
  intros env [m cs sd]. unfold retryOne.
  destruct h; exec env; eexists; (split; [rewrite <- ?app_assoc; reflexivity|]);
    reflexivity.
Qed.

Ltac fails_fast_by lemma :=
  eapply lemma
    with (P := fails_fast transfer_op) (okcall := fun c => negb (transfer_op (op_of c)));
  eauto using fails_fast_stay, fails_fast_seq, fails_fast_told, fails_fast_call,
    fails_fast_uploadOne, fails_fast_retryOne.

Lemma fails_fast_migrate fuel oldHandle pw url email handle invite h tfc :
  ends (fails_fast transfer_op)
       (migrate fuel oldHandle pw url email handle invite h tfc).
Proof.
  unfold migrate.
  eapply ends_bind with (P := fails_fast transfer_op);
    eauto using fails_fast_seq.
  - fails_fast_by ends_beforeCreate.
    intros c Hc. destruct (op_of c); try discriminate Hc; reflexivity.
  - intros [[[oldA newA] did] webDid].
    fails_fast_by ends_fromCreate.
    + intros c _ Hc. destruct (op_of c); try discriminate Hc; reflexivity.
    + intros h'. fails_fast_by ends_repoPhase_ok.
    + fails_fast_by ends_prefsPhase_ok.
    + apply fails_fast_set.
Qed.

Lemma nil_or_last {A} (l : list A) : l = [] \/ exists l' x, l = l' ++ [x].
Proof.
  induction l as [|x l _] using rev_ind; [left; reflexivity|].
  right. exists l, x. reflexivity.
Qed.

(** What the relation says of the events of a run. *)
Lemma fails_fast_last tol k s s' :
  fails_fast tol k s s' ->
  (forall pre e post,
      calls s' = calls s ++ pre ++ e :: post ->
      failed e = true -> tol (ev_op e) = false ->
      post = [] /\ exists why, ev_resp e = RThrow why /\ k = Threw (Rejected why)) /\
  (forall why,
      k = Threw (Rejected why) ->
      exists pre e,
        calls s' = calls s ++ pre ++ [e] /\ ev_resp e = RThrow why /\
        tol (ev_op e) = false).
Proof.
  intros [new [E H]]. split.
  - intros pre e post Hc Hf Ht. rewrite E in Hc. apply app_inv_head in Hc.
    assert (Hdirty : clean tol (pre ++ e :: post) = false).
    { rewrite clean_app. cbn [clean forallb]. rewrite Hf, Ht.
      rewrite andb_false_r. reflexivity. }
    destruct k as [|[| |why]|]; try (rewrite Hc, Hdirty in H; discriminate H).
    destruct H as (pre' & e' & Hn & Hr & Ht' & Hclean).
    rewrite Hn in Hc.
    destruct (nil_or_last post) as [-> | (post' & x & ->)].
    + apply app_inj_tail in Hc. destruct Hc as [_ ->].
      split; [reflexivity|]. exists why. split; [exact Hr | reflexivity].
    + change (pre ++ e :: post' ++ [x]) with (pre ++ (e :: post') ++ [x]) in Hc.
      rewrite app_assoc in Hc. apply app_inj_tail in Hc. destruct Hc as [Hp _].
      rewrite Hp, clean_app in Hclean. cbn [clean forallb] in Hclean.
      rewrite Hf, Ht in Hclean. rewrite andb_false_r in Hclean. discriminate Hclean.
  - intros why ->. destruct H as (pre & e & Hn & Hr & Ht & _).
    exists pre, e. rewrite E, Hn. repeat split; assumption.
Qed.

Lemma ending_rejected {A} (o : Outcome A) why :
  ending o = Threw (Rejected why) <-> o = Throw (Rejected why).
Proof.
  split; intros H.
  - destruct o; simpl in H; try discriminate H. injection H as ->. reflexivity.
  - rewrite H. reflexivity.
Qed.

(** X8: [migrate] stops at the first rejected call that is not part of a
    blob transfer.  In every run, a rejected call other than a [getBlob] or
    an [uploadBlob] is the last call of the run, and the run throws that
    rejection; and when the run ends on the rejection of a call, it is the
    answer of its last call, never a transfer's.  A rejected transfer is
    the only failure the run goes on after. *)
Theorem migrate_fails_fast :
  forall fuel oldHandle password newPdsUrl newEmail newHandle inviteCode
         statusUpdateHandler twoFactorCode env m,
    let r := migrate fuel oldHandle password newPdsUrl newEmail newHandle inviteCode
               statusUpdateHandler twoFactorCode env (start m) in
    (forall pre e post,
        calls (snd r) = pre ++ e :: post ->
        failed e = true -> transfer_op (ev_op e) = false ->
        post = [] /\
        exists why, ev_resp e = RThrow why /\ fst r = Throw (Rejected why)) /\
    (forall why,
        fst r = Throw (Rejected why) ->
        exists pre e,
          calls (snd r) = pre ++ [e] /\ ev_resp e = RThrow why /\
          transfer_op (ev_op e) = false).
Proof.
  intros fuel oldHandle pw url email handle invite h tfc env m r.
  destruct (fails_fast_last
              (@fails_fast_migrate fuel oldHandle pw url email handle invite h tfc env
                 (start m))) as [H1 H2].
  fold r in H1, H2. split.
  - intros pre e post Hc Hf Ht. destruct (H1 pre e post Hc Hf Ht) as [Hp [why [Hr Hk]]].
    split; [exact Hp|]. exists why. split; [exact Hr|]. apply ending_rejected. exact Hk.
  - intros why Hk. apply H2. apply ending_rejected. exact Hk.
Qed.

(** A source that refuses the login: the third call is the last. *)
Lemma migrate_fails_fast_witness :
  (@nil Event = [] /\
   exists why,
     ev_resp (Ev (Login (mkAgent OldAgent (u "https://c.example")) (u "alice.example.com")
                    (u "pw") None) (RThrow "AuthFactorTokenRequired")) = RThrow why /\
     fst (migrate 1 (u "alice.example.com") (u "pw") (u "https://new.example") (u "a@b.c")
            (u "alice.new.example") None true None loginRefused (start newMigrator))
     = Throw (Rejected why)) /\
  exists pre e,
    calls (snd (migrate 1 (u "alice.example.com") (u "pw") (u "https://new.example")
                  (u "a@b.c") (u "alice.new.example") None true None loginRefused
                  (start newMigrator))) = pre ++ [e] /\
    ev_resp e = RThrow "AuthFactorTokenRequired" /\ transfer_op (ev_op e) = false.
Proof.
  destruct (@migrate_fails_fast 1 (u "alice.example.com") (u "pw")
              (u "https://new.example") (u "a@b.c") (u "alice.new.example") None true
              None loginRefused newMigrator) as [H1 H2].
  split.
  - apply (H1 [Ev (HandleResolve (u "alice.example.com")) (RDid (u "did:plc:alice"));
               Ev (DocResolve (u "did:plc:alice"))
                  (RDidDoc (mkDidDoc (Some [mkService (u "AtprotoPersonalDataServer")
                                              (u "https://c.example")])))]
              (Ev (Login (mkAgent OldAgent (u "https://c.example")) (u "alice.example.com")
                     (u "pw") None) (RThrow "AuthFactorTokenRequired"))
              []); reflexivity.
  - apply H2. reflexivity.
Defined.

(** X9: [signPlcOperation] and [deactivateOldAccount] stop at the first
    rejected call, whichever it is: a rejected call is the last call of the
    run and its rejection is what the method throws; a method that ends on
    the rejection of a call ends on the answer of its last call.  Nothing in
    them is retried or skipped over. *)
Theorem handover_fails_fast :
  forall env m,
    (forall token,
        let r := signPlcOperation token env (start m) in
        (forall pre e post,
            calls (snd r) = pre ++ e :: post -> failed e = true ->
            post = [] /\
            exists why, ev_resp e = RThrow why /\ fst r = Throw (Rejected why)) /\
        (forall why,
            fst r = Throw (Rejected why) ->
            exists pre e, calls (snd r) = pre ++ [e] /\ ev_resp e = RThrow why)) /\
    (forall toLowerCase oldHandle oldPassword statusUpdateHandler twoFactorCode,
        let r := deactivateOldAccount toLowerCase oldHandle oldPassword
                   statusUpdateHandler twoFactorCode env (start m) in
        (forall pre e post,
            calls (snd r) = pre ++ e :: post -> failed e = true ->
            post = [] /\
            exists why, ev_resp e = RThrow why /\ fst r = Throw (Rejected why)) /\
        (forall why,
            fst r = Throw (Rejected why) ->
            exists pre e, calls (snd r) = pre ++ [e] /\ ev_resp e = RThrow why)).
Proof.
  intros env m.
  assert (Hlast : forall A (run : Outcome A * St),
             fails_fast noop (ending (fst run)) (start m) (snd run) ->
             (forall pre e post,
                 calls (snd run) = pre ++ e :: post -> failed e = true ->
                 post = [] /\
                 exists why, ev_resp e = RThrow why /\ fst run = Throw (Rejected why)) /\
             (forall why,
                 fst run = Throw (Rejected why) ->
                 exists pre e, calls (snd run) = pre ++ [e] /\ ev_resp e = RThrow why)).
  { intros A run H. destruct (fails_fast_last H) as [H1 H2]. split.
    - intros pre e post Hc Hf.
      destruct (H1 pre e post Hc Hf eq_refl) as [Hp [why [Hr Hk]]].
      split; [exact Hp|]. exists why. split; [exact Hr|]. apply ending_rejected. exact Hk.
    - intros why Hk. apply ending_rejected in Hk.
      destruct (H2 why Hk) as (pre & e & Hc & Hr & _). exists pre, e. split; assumption. }
  split.
  - intros token. apply Hlast.
    eapply ends_signPlcOperation with (P := fails_fast noop) (okcall := fun _ => true);
      eauto using fails_fast_stay, fails_fast_seq, fails_fast_told.
    intros c _. apply fails_fast_call. reflexivity.
  - intros lower oldHandle pw h tfc. apply Hlast.
    eapply ends_deactivateOldAccount
      with (P := fails_fast noop) (okcall := fun _ => true);
      eauto using fails_fast_stay, fails_fast_seq, fails_fast_told.
    intros c _. apply fails_fast_call. reflexivity.
Qed.

(** A source that rejects the token; a prior PDS that refuses the login. *)
Lemma handover_fails_fast_witness :
  (exists pre e,
      calls (snd (signPlcOperation (u "token") tokenRefused (start migrated)))
      = pre ++ [e] /\ ev_resp e = RThrow "InvalidToken") /\
  (@nil Event = [] /\
   exists why,
     ev_resp (Ev (Login (mkAgent OldAgent (u "https://b.example")) (u "alice.example.com")
                    (u "pw") None) (RThrow "AuthFactorTokenRequired")) = RThrow why /\
     fst (deactivateOldAccount ascii_toLowerCase (u "alice.example.com") (u "pw") true
            None loginRefused (start migrated)) = Throw (Rejected why)).
Proof.
  destruct (@handover_fails_fast tokenRefused migrated) as [Hs _].
  destruct (@handover_fails_fast loginRefused migrated) as [_ Hd].
  split.
  - destruct (Hs (u "token")) as [_ H2]. apply H2. reflexivity.
  - destruct (Hd ascii_toLowerCase (u "alice.example.com") (u "pw") true None)
      as [H1 _].
    apply (H1 [Ev (HandleResolve (u "alice.example.com")) (RDid (u "did:plc:alice"));
               Ev (DocResolve (u "did:plc:alice"))
                  (RDidDoc (mkDidDoc (Some [mkService (u "AtprotoPersonalDataServer")
                                              (u "https://c.example")])));
               Ev (FetchPlcLog (u "https://plc.directory/did:plc:alice/log"))
                  (RLog [Some (u "https://a.example"); Some (u "https://b.example");
                         Some (u "https://c.example")])]
              (Ev (Login (mkAgent OldAgent (u "https://b.example")) (u "alice.example.com")
                     (u "pw") None) (RThrow "AuthFactorTokenRequired"))
              []); reflexivity.
Defined.

(** ** What a write carries *)

Lemma faithful_app a b prev :
  faithful prev a = true -> (forall p, faithful p b = true) ->
  faithful prev (a ++ b) = true.
Proof.
  revert prev. induction a as [|x a IH]; intros prev Ha Hb; cbn [app].
  - apply Hb.
  - cbn [faithful] in *. apply andb_true_iff in Ha. destruct Ha as [Hx Ha].
    rewrite Hx. apply IH; assumption.
Qed.

Lemma carries_stay k s : silent k = true -> carries k s s.
Proof. intros _. exists []. split; [symmetry; apply app_nil_r | reflexivity]. Qed.

Lemma carries_seq k a b c : carries Returned a b -> carries k b c -> carries k a c.
Proof.
  intros [n1 [E1 F1]] [n2 [E2 F2]]. exists (n1 ++ n2).
  split; [rewrite E2, E1; symmetry; apply app_assoc|].
  intros prev. apply faithful_app; [apply F1 | exact F2].
Qed.

Lemma carries_told s status : carries Returned s (told s status).
Proof. exists []. split; [simpl; symmetry; apply app_nil_r | reflexivity]. Qed.

Lemma carries_call c :
  negb (moving_op (op_of c)) = true ->
  forall s r, carries (answered r) s (logged s c r).
Proof.
  intros H s r. exists [Ev c r]. split; [reflexivity|]. intros prev.
  destruct c; try reflexivity; discriminate H.
Qed.

Lemma carries_set f : ends carries (set_this f).
Proof. intros env s. exists []. split; [simpl; symmetry; apply app_nil_r | reflexivity]. Qed.

Lemma carries_uploadOne h oldA newA did expected cid n :
  ends carries (uploadOne h oldA newA did expected cid n).
Proof.
  intros env [m cs sd]. unfold uploadOne.
  destruct h; exec env; eexists; (split; [rewrite <- ?app_assoc; reflexivity|]);
    intros prev; cbn [app faithful ev_call andb]; rewrite ?str_eqb_refl; reflexivity.
Qed.

Lemma carries_retryOne h oldA newA did total rb n :
  ends carries (retryOne h oldA newA did total rb n).
Proof.
  intros env [m cs sd]. unfold retryOne.
  destruct h; exec env; eexists; (split; [rewrite <- ?app_assoc; reflexivity|]);
    intros prev; cbn [app faithful ev_call andb]; rewrite ?str_eqb_refl; reflexivity.
Qed.

Lemma carries_repoPhase h oldA newA did : ends carries (repoPhase h oldA newA did).
Proof.
  intros env [m cs sd]. unfold repoPhase.
  destruct h; exec env; eexists; (split; [rewrite <- ?app_assoc; reflexivity|]);
    intros prev; cbn [app faithful ev_call andb]; rewrite ?str_eqb_refl; reflexivity.
Qed.

Lemma carries_prefsPhase oldA newA : ends carries (prefsPhase oldA newA).
Proof.
  intros env [m cs sd]. unfold prefsPhase.
  exec env; eexists; (split; [rewrite <- ?app_assoc; reflexivity|]);
    intros prev; cbn [app faithful ev_call andb]; rewrite ?str_eqb_refl; reflexivity.
Qed.

Ltac carries_by lemma :=
  eapply lemma with (P := carries) (okcall := fun c => negb (moving_op (op_of c)));
  eauto using carries_stay, carries_seq, carries_told, carries_call,
    carries_uploadOne, carries_retryOne, carries_repoPhase, carries_prefsPhase.

(** X10: what is written is what was read.  In every run of [migrate]
    each write to the destination is the call right after a read from the
    source that resolved, and carries the answer of that read unchanged:
    [importRepo] the repository [getRepo] returned; [uploadBlob], in the
    main sync and in the retries alike, the bytes [getBlob] returned, under
    the content type it returned them with; [putPreferences] the
    preferences [getPreferences] returned. *)
Theorem writes_carry_what_was_read :
  forall fuel oldHandle password newPdsUrl newEmail newHandle inviteCode
         statusUpdateHandler twoFactorCode env m,
    faithful None
      (calls (snd (migrate fuel oldHandle password newPdsUrl newEmail newHandle
                     inviteCode statusUpdateHandler twoFactorCode env (start m))))
    = true.
Proof.
  intros fuel oldHandle pw url email handle invite h tfc env m.
  assert (H : ends carries (migrate fuel oldHandle pw url email handle invite h tfc)).
  { unfold migrate.
    eapply ends_bind with (P := carries); eauto using carries_seq.
    - carries_by ends_beforeCreate.
      intros c Hc. destruct (op_of c); try discriminate Hc; reflexivity.
    - intros [[[oldA newA] did] webDid].
      carries_by ends_fromCreate.
      + intros c _ Hc. rewrite Hc. reflexivity.
      + apply carries_set. }
  destruct (H env (start m)) as [new [E F]]. rewrite E. apply F.
Qed.

(** ** Which service a call goes to *)

Lemma opt_eqb_refl a : opt_eqb a a = true.
Proof. destruct a; [apply str_eqb_refl | reflexivity]. Qed.

Lemma routed_stay oldA newA did k s : silent k = true -> routed oldA newA did k s s.
Proof. intros _. exists []. split; [symmetry; apply app_nil_r | reflexivity]. Qed.

Lemma routed_seq oldA newA did k a b c :
  routed oldA newA did Returned a b -> routed oldA newA did k b c ->
  routed oldA newA did k a c.
Proof.
  intros [n1 [E1 F1]] [n2 [E2 F2]]. exists (n1 ++ n2).
  split; [rewrite E2, E1; symmetry; apply app_assoc|].
  rewrite forallb_app, F1, F2. reflexivity.
Qed.

Lemma routed_told oldA newA did s status :
  routed oldA newA did Returned s (told s status).
Proof. exists []. split; [simpl; symmetry; apply app_nil_r | reflexivity]. Qed.

Lemma routed_call oldA newA did c :
  migrate_call oldA newA did c = true ->
  forall s r, routed oldA newA did (answered r) s (logged s c r).
Proof.
  intros H s r. exists [Ev c r]. split; [reflexivity|].
  cbn [forallb ev_call]. rewrite H. reflexivity.
Qed.

Lemma routed_set oldA newA did f : ends (routed oldA newA did) (set_this f).
Proof. intros env s. exists []. split; [simpl; symmetry; apply app_nil_r | reflexivity]. Qed.

Lemma routed_uploadOne h oldA newA did expected cid n :
  ends (routed oldA newA did) (uploadOne h oldA newA did expected cid n).
Proof.
  intros env [m cs sd]. unfold uploadOne.
  destruct h; exec env; eexists; (split; [rewrite <- ?app_assoc; reflexivity|]);
    cbn [app forallb migrate_call ev_call];
    rewrite ?agent_eqb_refl, ?str_eqb_refl; reflexivity.
Qed.

Lemma routed_retryOne h oldA newA did total rb n :
  ends (routed oldA newA did) (retryOne h oldA newA did total rb n).
Proof.
  intros env [m cs sd]. unfold retryOne.
  destruct h; exec env; eexists; (split; [rewrite <- ?app_assoc; reflexivity|]);
    cbn [app forallb migrate_call ev_call];
    rewrite ?agent_eqb_refl, ?str_eqb_refl; reflexivity.
Qed.

Ltac routed_by lemma oldA newA did :=
  eapply lemma
    with (P := routed oldA newA did) (okcall := migrate_call oldA newA did);
  eauto using routed_stay, routed_seq, routed_told, routed_call, routed_uploadOne,
    routed_retryOne.

Lemma routed_fromCreate fuel h oldA newA did webDid pw email handle invite :
  ends (routed oldA newA did)
       (m <- get_this ;;
        when (createNewAccount m)
          (createAccountPhase h oldA newA did webDid pw email handle invite) ;;
        afterCreate fuel h oldA newA did pw).
Proof.
  routed_by ends_fromCreate oldA newA did.
  - intros h'. routed_by ends_repoPhase_ok oldA newA did.
    + cbn [migrate_call]. rewrite agent_eqb_refl, str_eqb_refl. reflexivity.
    + intros car. cbn [migrate_call]. apply agent_eqb_refl.
  - routed_by ends_prefsPhase_ok oldA newA did.
    + cbn [migrate_call]. apply agent_eqb_refl.
    + intros prefs. cbn [migrate_call]. apply agent_eqb_refl.
  - apply routed_set.
Qed.

(** The calls up to the probe of the destination, and what they give the
    rest of the run: the source client and the DID, both read off the two
    first answers. *)
Lemma beforeCreate_run h oldHandle pw url tfc env m :
  let r := beforeCreate h oldHandle pw url tfc env (start m) in
  let evs := calls (snd r) in
  let oldA := source_of oldHandle evs in
  let newA := mkAgent NewAgent url in
  let did := resolved_did evs in
  forallb (fun e => early_call oldHandle pw tfc oldA newA did (ev_call e)) evs = true /\
  forall ctx,
    fst r = Ret ctx ->
    (exists webDid, ctx = (oldA, newA, did, webDid)) /\
    forall tail,
      source_of oldHandle (evs ++ tail) = oldA /\ resolved_did (evs ++ tail) = did.
Proof.
  cbv zeta. unfold beforeCreate, resolveSource, source_of.
  destruct (endsWith oldHandle (u ".bsky.social")) eqn:Ee; destruct h;
    exec env;
    try (rewrite findPds_firstPds; destruct (firstPds _) eqn:Epds; exec env);
    cbn [app resolved_did]; try rewrite Epds;
    (split;
     [ cbn [forallb early_call ev_call];
       rewrite ?Ee, ?agent_eqb_refl, ?str_eqb_refl, ?opt_eqb_refl; reflexivity
     | intros ctx Hctx; try discriminate Hctx ]);
    injection Hctx as <-;
    (split; [eexists; reflexivity | intros tail; split; reflexivity]).
Qed.

(** X11: which service gets which call.  The calls of a run of [migrate]
    fall in two parts.  First the resolution (by the entryway's public API
    alone for a handle ending in [.bsky.social], by the two resolvers alone
    for any other), the source login with the normalised handle, the
    caller's password and second factor, and the probe of the destination.
    Then calls that all name the one DID the first call resolved: the reads
    ([getServiceAuth], [getRepo], [listBlobs], [getBlob], [getPreferences])
    and the request for the PLC token go to the source client, the writes
    ([createAccount], [importRepo], [uploadBlob], [putPreferences]), the
    login by DID, the status reads and the missing-blob listings go to the
    destination at [newPdsUrl].  The source client is the entryway, or the
    PDS of the DID document. *)
Theorem migrate_routing :
  forall fuel oldHandle password newPdsUrl newEmail newHandle inviteCode
         statusUpdateHandler twoFactorCode env m,
    let evs := calls (snd (migrate fuel oldHandle password newPdsUrl newEmail newHandle
                             inviteCode statusUpdateHandler twoFactorCode env
                             (start m))) in
    let handle := normalizeHandle oldHandle in
    let oldA := source_of handle evs in
    let newA := mkAgent NewAgent newPdsUrl in
    let did := resolved_did evs in
    exists early later,
      evs = early ++ later /\
      forallb (fun e => early_call handle password twoFactorCode oldA newA did (ev_call e))
              early = true /\
      forallb (fun e => migrate_call oldA newA did (ev_call e)) later = true.
Proof.
  intros fuel oldHandle pw url email handle invite h tfc env m. cbv zeta.
  unfold migrate.
  destruct (beforeCreate_run h (normalizeHandle oldHandle) pw url tfc env m)
    as [Hearly Hctx]. cbv zeta in Hearly, Hctx.
  run_phase (beforeCreate h (normalizeHandle oldHandle) pw url tfc) env (start m)
    ctx s1 E1; cbn [fst snd] in Hearly, Hctx |- *.
  - destruct (Hctx ctx eq_refl) as [[webDid ->] Htail].
    destruct (@routed_fromCreate fuel h (source_of (normalizeHandle oldHandle) (calls s1))
                (mkAgent NewAgent url) (resolved_did (calls s1)) webDid pw email handle
                invite env s1) as [new [E F]].
    rewrite E. destruct (Htail new) as [-> ->].
    exists (calls s1), new. repeat split; assumption.
  - exists (calls s1), []. rewrite app_nil_r. repeat split; assumption.
  - exists (calls s1), []. rewrite app_nil_r. repeat split; assumption.
Qed.

(** ** The flags *)

Lemma within_refl m0 s : within m0 s s.
Proof. split; [reflexivity | apply emits_refl]. Qed.

Lemma within_trans m0 a b c : within m0 a b -> within m0 b c -> within m0 a c.
Proof.
  intros [F1 E1] [F2 E2]. split; [congruence | eapply emits_trans; eassumption].
Qed.

Lemma within_told m0 s status : within m0 s (told s status).
Proof. split; [reflexivity | apply emits_told]. Qed.

Lemma within_logged m0 c :
  allowed m0 (op_of c) = true -> forall s r, within m0 s (logged s c r).
Proof. intros H s r. split; [reflexivity | apply emits_logged; exact H]. Qed.

Lemma within_push m0 cid : steps (within m0) (push_missing cid).
Proof. intros env s. split; [reflexivity | apply emits_push]. Qed.

Lemma within_store m0 a b : steps (within m0) (storeAgents a b).
Proof. intros env s. split; [reflexivity | apply emits_store]. Qed.

Lemma gated_steps m0 {A} (m : M A) : steps (within m0) m -> gated m0 m.
Proof. intros H env s _. apply H. Qed.

Lemma gated_bind m0 {A B} (m : M A) (k : A -> M B) :
  gated m0 m -> (forall a, gated m0 (k a)) -> gated m0 (bind m k).
Proof.
  intros Hm Hk env s Hs. specialize (Hm env s Hs). unfold bind.
  destruct (m env s) as [[a| e |] s1]; cbn [snd] in *; auto.
  eapply within_trans; [exact Hm|]. apply Hk. destruct Hm as [F _]. congruence.
Qed.

(** A read of [this] gives an instance with the flags of [m0]. *)
Lemma gated_get m0 {B} (k : Migrator -> M B) :
  (forall m, flags_of m = flags_of m0 -> gated m0 (k m)) -> gated m0 (bind get_this k).
Proof. intros H env s Hs. unfold bind, get_this. apply H; exact Hs. Qed.

(** A phase runs only under its flag. *)
Lemma gated_when m0 flag body :
  (flag = true -> gated m0 body) -> gated m0 (when flag body).
Proof.
  intros H. destruct flag; [apply H; reflexivity|].
  intros env s _. apply within_refl.
Qed.

Ltac by_within lemma m0 :=
  apply gated_steps;
  eapply lemma with (R := within m0) (okop := allowed m0);
  eauto using within_refl, within_trans, within_told, within_logged, within_push,
    within_store.

Lemma gated_say m0 h status : gated m0 (safeStatusUpdate h status).
Proof.
  apply gated_steps.
  eapply steps_say with (R := within m0); eauto using within_refl, within_told.
Qed.

Lemma gated_loginAndSync m0 fuel h oldA newA did pw :
  gated m0 (loginAndSync fuel h oldA newA did pw).
Proof.
  unfold loginAndSync.
  apply gated_bind; [apply gated_say | intros _].
  apply gated_bind; [by_within steps_login m0 | intros _].
  apply gated_get. intros m Hm.
  apply gated_bind; [|intros _].
  { apply gated_when. intros Hf. by_within steps_repoPhase m0.
    cbn [forallb allowed]. unfold flags_of in Hm. injection Hm as _ <- _ _ _ _.
    rewrite Hf. reflexivity. }
  apply gated_bind; [by_within steps_checkAccountStatus m0 | intros st].
  apply gated_get. intros m' Hm'.
  apply gated_when. intros Hf. unfold blobPhase.
  apply gated_bind; [apply gated_say | intros _].
  by_within steps_blobLoop m0.
  cbn [forallb allowed]. unfold flags_of in Hm'. injection Hm' as _ _ <- _ _ _.
  rewrite Hf. reflexivity.
Qed.

Lemma gated_finish m0 h oldA newA : gated m0 (finish h oldA newA).
Proof.
  unfold finish.
  apply gated_get. intros m Hm.
  apply gated_bind; [|intros _].
  { apply gated_when. intros Hf. by_within steps_prefsPhase m0.
    cbn [forallb allowed]. unfold flags_of in Hm. injection Hm as _ _ _ _ <- _.
    rewrite Hf. reflexivity. }
  apply gated_bind; [apply gated_steps; apply within_store | intros _].
  apply gated_get. intros m' Hm'.
  apply gated_when. intros Hf. by_within steps_plcPhase m0.
  cbn [allowed]. unfold flags_of in Hm'. injection Hm' as _ _ _ _ _ <-. exact Hf.
Qed.

Lemma gated_migrate m0 fuel oldHandle pw url email handle invite h tfc :
  gated m0 (migrate fuel oldHandle pw url email handle invite h tfc).
Proof.
  unfold migrate.
  apply gated_bind; [by_within steps_beforeCreate m0|].
  intros [[[oldA newA] did] webDid].
  apply gated_get. intros m Hm.
  apply gated_bind; [|intros _].
  { apply gated_when. intros Hf. by_within steps_createAccountPhase m0.
    cbn [forallb allowed]. unfold flags_of in Hm. injection Hm as <- _ _ _ _ _.
    rewrite Hf. reflexivity. }
  unfold afterCreate.
  apply gated_bind; [apply gated_loginAndSync | intros _].
  apply gated_get. intros m' Hm'.
  apply gated_bind; [|intros _; apply gated_finish].
  apply gated_when. intros Hf. by_within steps_reconcilePhase m0.
  cbn [forallb allowed]. unfold flags_of in Hm'. injection Hm' as _ _ _ <- _ _.
  rewrite Hf, orb_true_r. reflexivity.
Qed.

(** X12: a flag that is off turns its phase off, and no run changes a
    flag.  Every call of a run of [migrate] is of a kind the flags of the
    instance allow: [getServiceAuth] and [createAccount] only under
    [createNewAccount], [getRepo] and [importRepo] only under
    [migrateRepo], [listBlobs] only under [migrateBlobs],
    [listMissingBlobs] only under [migrateMissingBlobs], a blob transfer
    only under one of these two, the preferences calls only under
    [migratePrefs], the request for the PLC token only under
    [migratePlcRecord]; the resolution, the logins, [describeServer] and
    [checkAccountStatus] are under no flag.  No run signs or submits a PLC
    operation, activates or deactivates an account.  The flags are the same
    after the run. *)
Theorem flags_gate_the_phases :
  forall fuel oldHandle password newPdsUrl newEmail newHandle inviteCode
         statusUpdateHandler twoFactorCode env m,
    let r := migrate fuel oldHandle password newPdsUrl newEmail newHandle inviteCode
               statusUpdateHandler twoFactorCode env (start m) in
    forallb (fun e => allowed m (ev_op e)) (calls (snd r)) = true /\
    flags_of (this (snd r)) = flags_of m.
Proof.
  intros fuel oldHandle pw url email handle invite h tfc env m r.
  destruct (@gated_migrate m fuel oldHandle pw url email handle invite h tfc env
              (start m) eq_refl) as [F [new [E Q]]].
  fold r in F, E. split; [|exact F]. rewrite E. exact Q.
Qed.

(** ** Two runs side by side *)

Section Mirrors.

Variable phi : St -> St.
Variable quiet : bool -> bool.
Hypothesis phi_calls : forall s, calls (phi s) = calls s.
Hypothesis phi_logged : forall s c r, phi (logged s c r) = logged (phi s) c r.
Hypothesis phi_say :
  forall h status,
    mirrors phi (safeStatusUpdate h status) (safeStatusUpdate (quiet h) status).

Lemma mirrors_ret {A} (a : A) : mirrors phi (ret a) (ret a).
Proof. intros env s. reflexivity. Qed.

Lemma mirrors_throw {A} (e : Exn) : mirrors phi (@throw A e) (throw e).
Proof. intros env s. reflexivity. Qed.

Lemma mirrors_diverge {A} : mirrors phi (@diverge A) diverge.
Proof. intros env s. reflexivity. Qed.

Lemma mirrors_bind {A B} (m m' : M A) (k k' : A -> M B) :
  mirrors phi m m' -> (forall a, mirrors phi (k a) (k' a)) ->
  mirrors phi (bind m k) (bind m' k').
Proof.
  intros Hm Hk env s. unfold bind. rewrite (Hm env s).
  destruct (m env s) as [[a| e |] s1]; cbn [fst snd]; [apply Hk | reflexivity..].
Qed.

Lemma mirrors_try {A} (m m' : M A) (k k' : Exn -> M A) :
  mirrors phi m m' -> (forall e, mirrors phi (k e) (k' e)) ->
  mirrors phi (try_catch m k) (try_catch m' k').
Proof.
  intros Hm Hk env s. unfold try_catch. rewrite (Hm env s).
  destruct (m env s) as [[a| e |] s1]; cbn [fst snd]; [reflexivity | apply Hk | reflexivity].
Qed.

Lemma mirrors_call c : mirrors phi (call c) (call c).
Proof.
  intros env s. unfold call.
  assert (E : env (calls (phi s)) c = env (calls s) c)
    by (rewrite phi_calls; reflexivity).
  rewrite E. cbn [fst snd]. f_equal. symmetry.
  exact (phi_logged s c (coerce c (env (calls s) c))).
Qed.

Lemma mirrors_expect {A} (pick : Resp -> option A) r :
  mirrors phi (expect pick r) (expect pick r).
Proof. unfold expect. destruct (pick r); [apply mirrors_ret | apply mirrors_throw]. Qed.

Lemma mirrors_when flag body body' :
  mirrors phi body body' -> mirrors phi (when flag body) (when flag body').
Proof. intros H. destruct flag; [exact H | apply mirrors_ret]. Qed.

Lemma mirrors_findPds didDoc : mirrors phi (findPds didDoc) (findPds didDoc).
Proof.
  rewrite findPds_firstPds.
  destruct (firstPds didDoc); [apply mirrors_ret | apply mirrors_throw].
Qed.

Ltac mirrors_go :=
  repeat first
    [ apply mirrors_ret | apply mirrors_throw | apply mirrors_diverge
    | apply phi_say | apply mirrors_call | apply mirrors_expect
    | apply mirrors_findPds
    | apply mirrors_bind | apply mirrors_try | apply mirrors_when
    | match goal with
      | |- forall _, mirrors _ _ _ => intro
      | |- mirrors _ (if ?b then _ else _) _ => destruct b
      | |- mirrors _ (let (_, _) := ?x in _) _ => destruct x
      end ].

Lemma mirrors_deactivateOldAccount lower oldHandle pw h tfc :
  mirrors phi (deactivateOldAccount lower oldHandle pw h tfc)
              (deactivateOldAccount lower oldHandle pw (quiet h) tfc).
Proof.
  unfold deactivateOldAccount, scanAndDeactivate, resolveDid, deactivatePrior, login,
    checkAccountStatus.
  mirrors_go.
Qed.

(** The computations that read or assign [this]. *)
Hypothesis phi_get : mirrors phi get_this get_this.
Hypothesis phi_set : forall f, mirrors phi (set_this f) (set_this f).

Lemma mirrors_deref {A} (a : option A) : mirrors phi (deref a) (deref a).
Proof. destruct a; [apply mirrors_ret | apply mirrors_throw]. Qed.

Lemma mirrors_uploadPage h oldA newA did expected cids n :
  mirrors phi (uploadPage h oldA newA did expected cids n)
              (uploadPage (quiet h) oldA newA did expected cids n).
Proof.
  revert n. induction cids as [|cid rest IH]; intros n; cbn [uploadPage].
  - apply mirrors_ret.
  - apply mirrors_bind; [|intros; apply IH].
    unfold uploadOne, getBlob, uploadBlob. mirrors_go.
Qed.

Lemma mirrors_blobLoop fuel h oldA newA did expected cursor n :
  mirrors phi (blobLoop fuel h oldA newA did expected cursor n)
              (blobLoop fuel (quiet h) oldA newA did expected cursor n).
Proof.
  revert cursor n. induction fuel as [|fuel IH]; intros cursor n; cbn [blobLoop].
  - apply mirrors_diverge.
  - apply mirrors_bind; [apply phi_say | intros _].
    apply mirrors_bind; [apply mirrors_call | intros r].
    apply mirrors_bind; [apply mirrors_expect | intros listed].
    apply mirrors_bind; [apply mirrors_uploadPage | intros n'].
    destruct (cursor_truthy (snd listed)); [apply IH | apply mirrors_ret].
Qed.

Lemma mirrors_retryPage h oldA newA did total blobs n :
  mirrors phi (retryPage h oldA newA did total blobs n)
              (retryPage (quiet h) oldA newA did total blobs n).
Proof.
  revert n. induction blobs as [|b rest IH]; intros n; cbn [retryPage].
  - apply mirrors_ret.
  - apply mirrors_bind; [|intros; apply IH].
    unfold retryOne, getBlob, uploadBlob, push_missing. mirrors_go; apply phi_set.
Qed.

Lemma mirrors_retryLoop fuel h oldA newA did total cursor n :
  mirrors phi (retryLoop fuel h oldA newA did total cursor n)
              (retryLoop fuel (quiet h) oldA newA did total cursor n).
Proof.
  revert cursor n. induction fuel as [|fuel IH]; intros cursor n; cbn [retryLoop].
  - apply mirrors_diverge.
  - apply mirrors_bind; [apply phi_say | intros _].
    apply mirrors_bind; [apply mirrors_call | intros r].
    apply mirrors_bind; [apply mirrors_expect | intros listed].
    apply mirrors_bind; [apply mirrors_retryPage | intros n'].
    destruct (cursor_truthy (snd listed)); [apply IH | apply mirrors_ret].
Qed.

Lemma mirrors_migrate fuel oldHandle pw url email handle invite h tfc :
  mirrors phi (migrate fuel oldHandle pw url email handle invite h tfc)
              (migrate fuel oldHandle pw url email handle invite (quiet h) tfc).
Proof.
  unfold migrate, beforeCreate, resolveSource, createAccountPhase, afterCreate,
    loginAndSync, repoPhase, blobPhase, reconcilePhase, finish, prefsPhase, plcPhase,
    storeAgents, login, checkAccountStatus.
  mirrors_go;
    first [ apply phi_get | apply phi_set | apply mirrors_blobLoop
          | apply mirrors_retryLoop ].
Qed.

End Mirrors.

Lemma mute_say h status :
  mirrors mute (safeStatusUpdate h status) (safeStatusUpdate false status).
Proof. intros env s. destruct h; reflexivity. Qed.

Lemma reframe_say m h status :
  mirrors (reframe m) (safeStatusUpdate h status) (safeStatusUpdate h status).
Proof. intros env s. destruct h; reflexivity. Qed.

(** X13: the status handler is a sink.  A run of [migrate] or of
    [deactivateOldAccount] without a handler ([null]) ends as the run with a
    handler does, in the same world: the same result or error, the same
    calls with the same answers, the same instance; only the status lines
    are not there.  (A handler is taken not to throw.) *)
Theorem status_handler_is_a_sink :
  forall env m statusUpdateHandler twoFactorCode,
    (forall fuel oldHandle password newPdsUrl newEmail newHandle inviteCode,
        let r := migrate fuel oldHandle password newPdsUrl newEmail newHandle inviteCode
                   statusUpdateHandler twoFactorCode env (start m) in
        migrate fuel oldHandle password newPdsUrl newEmail newHandle inviteCode
          false twoFactorCode env (start m)
        = (fst r, mkSt (this (snd r)) (calls (snd r)) [])) /\
    (forall toLowerCase oldHandle oldPassword,
        let r := deactivateOldAccount toLowerCase oldHandle oldPassword
                   statusUpdateHandler twoFactorCode env (start m) in
        deactivateOldAccount toLowerCase oldHandle oldPassword false twoFactorCode
          env (start m)
        = (fst r, mkSt (this (snd r)) (calls (snd r)) [])).
Proof.
  intros env m h tfc. split.
  - intros fuel oldHandle pw url email handle invite.
    exact (@mirrors_migrate mute (fun _ => false) (fun _ => eq_refl)
             (fun _ _ _ => eq_refl) mute_say
             (fun _ _ => eq_refl) (fun _ _ _ => eq_refl)
             fuel oldHandle pw url email handle invite h tfc env (start m)).
  - intros lower oldHandle pw.
    exact (@mirrors_deactivateOldAccount mute (fun _ => false) (fun _ => eq_refl)
             (fun _ _ _ => eq_refl) mute_say lower oldHandle pw h tfc env (start m)).
Qed.

(** X14: [deactivateOldAccount] does not depend on the instance it is
    called on, and leaves it as it was.  On any two instances, in the same
    world and with the same arguments, it ends the same way after the same
    calls and status lines: neither the stored clients, nor the list of
    missing blobs, nor the flags are read or assigned. *)
Theorem deactivateOldAccount_ignores_instance :
  forall toLowerCase oldHandle oldPassword statusUpdateHandler twoFactorCode env m m',
    let r := deactivateOldAccount toLowerCase oldHandle oldPassword statusUpdateHandler
               twoFactorCode env (start m) in
    deactivateOldAccount toLowerCase oldHandle oldPassword statusUpdateHandler
      twoFactorCode env (start m')
    = (fst r, mkSt m' (calls (snd r)) (said (snd r))) /\
    this (snd r) = m.
Proof.
  intros lower oldHandle pw h tfc env m m' r. split.
  - exact (@mirrors_deactivateOldAccount (reframe m') (fun b => b) (fun _ => eq_refl)
             (fun _ _ _ => eq_refl) (reframe_say m') lower oldHandle pw h tfc env
             (start m)).
  - eapply steps_deactivateOldAccount with (R := same_this) (okop := anyop);
      eauto using same_this_refl, same_this_trans, same_this_told, same_this_logged.
Qed.

(** ** Listings that never end *)

(** One round of the main sync on a page the source answered. *)
Lemma blobLoop_step fuel h oldA newA did expected cursor n env s cids next :
  env (calls s) (ListBlobs oldA did cursor 100) = RCids cids next ->
  exists n1 s2,
    blobLoop (S fuel) h oldA newA did expected cursor n env s
    = (if cursor_truthy next
       then blobLoop fuel h oldA newA did expected next n1
       else ret tt) env s2.
Proof.
  intros E. cbn [blobLoop]. destruct s as [m cs sd]. cbn [calls] in E.
  set (s0 := if h then told (mkSt m cs sd) (SBlobProgress n expected) else mkSt m cs sd).
  assert (Hs0 : calls s0 = cs) by (destruct h; reflexivity).
  unfold bind at 1.
  replace (safeStatusUpdate h (SBlobProgress n expected) env (mkSt m cs sd))
    with (Ret tt, s0) by (unfold safeStatusUpdate, s0; destruct h; reflexivity).
  unfold bind at 1. unfold call. rewrite Hs0, E. cbn [coerce shape_ok fst snd].
  unfold bind at 1. cbn [as_cids expect ret fst snd].
  match goal with
  | |- context [bind _ _ env ?st] =>
      destruct (uploadPage_run h oldA newA did expected cids n env st)
        as (n1 & s2 & new1 & E1 & _)
  end.
  unfold bind at 1. rewrite E1. exists n1, s2. reflexivity.
Qed.

(** One round of the retry pass on a page the destination answered. *)
Lemma retryLoop_step fuel h oldA newA did total cursor n env s blobs next :
  env (calls s) (ListMissingBlobs newA cursor 100) = RMissing blobs next ->
  exists n1 s2,
    retryLoop (S fuel) h oldA newA did total cursor n env s
    = (if cursor_truthy next
       then retryLoop fuel h oldA newA did total next n1
       else ret tt) env s2.
Proof.
  intros E. cbn [retryLoop]. destruct s as [m cs sd]. cbn [calls] in E.
  set (s0 := if h then told (mkSt m cs sd) (SBlobProgress n total) else mkSt m cs sd).
  assert (Hs0 : calls s0 = cs) by (destruct h; reflexivity).
  unfold bind at 1.
  replace (safeStatusUpdate h (SBlobProgress n total) env (mkSt m cs sd))
    with (Ret tt, s0) by (unfold safeStatusUpdate, s0; destruct h; reflexivity).
  unfold bind at 1. unfold call. rewrite Hs0, E. cbn [coerce shape_ok fst snd].
  unfold bind at 1. cbn [as_missing expect ret fst snd].
  match goal with
  | |- context [bind _ _ env ?st] =>
      destruct (retryPage_run h oldA newA did total blobs n env st)
        as (n1 & s2 & new1 & extra1 & E1 & _)
  end.
  unfold bind at 1. rewrite E1. exists n1, s2. reflexivity.
Qed.

(** X15: the two listing loops end only on a page without a cursor.
    Against a source whose every page of [listBlobs] comes with a non-empty
    cursor the main sync goes on page after page, whatever the transfers do
    and whether or not a cursor repeats: no bound on the number of pages is
    enough for it to return.  The same holds for the retry pass and the
    pages of [listMissingBlobs] of the destination. *)
Theorem listing_loops_need_a_last_page :
  forall env statusUpdateHandler oldA newA did,
    ((forall history cursor, exists cids next,
         env history (ListBlobs oldA did cursor 100) = RCids cids next /\
         cursor_truthy next = true) ->
     forall fuel expected cursor n s,
       fst (blobLoop fuel statusUpdateHandler oldA newA did expected cursor n env s)
       = OutOfFuel) /\
    ((forall history cursor, exists blobs next,
         env history (ListMissingBlobs newA cursor 100) = RMissing blobs next /\
         cursor_truthy next = true) ->
     forall fuel total cursor n s,
       fst (retryLoop fuel statusUpdateHandler oldA newA did total cursor n env s)
       = OutOfFuel).
Proof.
  intros env h oldA newA did. split.
  - intros Hpages fuel expected.
    induction fuel as [|fuel IH]; intros cursor n s; [reflexivity|].
    destruct (Hpages (calls s) cursor) as (cids & next & E & T).
    destruct (blobLoop_step fuel h oldA newA did expected cursor n env s E)
      as (n1 & s2 & ->).
    rewrite T. apply IH.
  - intros Hpages fuel total.
    induction fuel as [|fuel IH]; intros cursor n s; [reflexivity|].
    destruct (Hpages (calls s) cursor) as (blobs & next & E & T).
    destruct (retryLoop_step fuel h oldA newA did total cursor n env s E)
      as (n1 & s2 & ->).
    rewrite T. apply IH.
Qed.

(** A world whose listings repeat the cursor [again], with a bound of a
    thousand pages. *)
Lemma listing_loops_need_a_last_page_witness :
  fst (blobLoop 1000 true bsky newPds (u "did:plc:alice") 1 None 0 endless
         (start newMigrator)) = OutOfFuel /\
  fst (retryLoop 1000 true bsky newPds (u "did:plc:alice") 1 None 0 endless
         (start newMigrator)) = OutOfFuel.
Proof.
  destruct (@listing_loops_need_a_last_page endless true bsky newPds (u "did:plc:alice"))
    as [H1 H2].
  split.
  - apply H1. intros history cursor. do 2 eexists. split; reflexivity.
  - apply H2. intros history cursor. do 2 eexists. split; reflexivity.
Defined.

(** ** A run of [migrate] that returns *)

Lemma bind_ret_inv {A B} (m : M A) (k : A -> M B) env s b s' :
  bind m k env s = (Ret b, s') ->
  exists a s1, m env s = (Ret a, s1) /\ k a env s1 = (Ret b, s').
Proof.
  unfold bind. destruct (m env s) as [[a| e |] s1]; intros H; try discriminate H.
  exists a, s1. split; [reflexivity | exact H].
Qed.

Lemma finish_returns h oldA newA env s s' :
  finish h oldA newA env s = (Ret tt, s') ->
  oldAgent (this s') = Some oldA /\ newAgent (this s') = Some newA /\
  (migratePlcRecord (this s') = true ->
   (exists pre, calls s' = pre ++ [Ev (RequestPlcOperationSignature oldA) RVoid]) /\
   (h = true -> exists sd, said s' = sd ++ [SCheckEmail])).
Proof.
  destruct s as [[oa na mb f1 f2 f3 f4 f5 f6] cs sd].
  unfold finish, prefsPhase, plcPhase, storeAgents.
  destruct f5, f6, h; exec env; intros H; try discriminate H.
  all: injection H as <-; cbn [this calls said oldAgent newAgent migratePlcRecord].
  all: (split; [reflexivity|]); (split; [reflexivity|]); intros Hf; try discriminate Hf.
  all: split; [eexists; reflexivity | intros Hh; try discriminate Hh; eexists; reflexivity].
Qed.

(** A run of [migrate] that returned ended with the last phases, run with
    the clients of the run. *)
Lemma migrate_returned fuel oldHandle pw url email handle invite h tfc env m :
  let r := migrate fuel oldHandle pw url email handle invite h tfc env (start m) in
  let oldA := source_of (normalizeHandle oldHandle) (calls (snd r)) in
  let newA := mkAgent NewAgent url in
  fst r = Ret tt ->
  exists s, finish h oldA newA env s = (Ret tt, snd r).
Proof.
  cbv zeta. intros Hret.
  destruct (migrate fuel oldHandle pw url email handle invite h tfc env (start m))
    as [o s'] eqn:Erun.
  cbn [fst snd] in *. subst o.
  unfold migrate in Erun.
  apply bind_ret_inv in Erun. destruct Erun as (ctx & s1 & E1 & Erest).
  destruct (beforeCreate_run h (normalizeHandle oldHandle) pw url tfc env m)
    as [_ Hctx]. cbv zeta in Hctx. rewrite E1 in Hctx. cbn [fst snd] in Hctx.
  destruct (Hctx ctx eq_refl) as [[webDid ->] Htail].
  destruct (@routed_fromCreate fuel h (source_of (normalizeHandle oldHandle) (calls s1))
              (mkAgent NewAgent url) (resolved_did (calls s1)) webDid pw email handle
              invite env s1) as [new [Ecalls _]].
  rewrite Erest in Ecalls. cbn [snd] in Ecalls.
  rewrite Ecalls. destruct (Htail new) as [-> _].
  apply bind_ret_inv in Erest. destruct Erest as (m1 & s1' & _ & Erest).
  apply bind_ret_inv in Erest. destruct Erest as (x2 & s2 & _ & Erest).
  unfold afterCreate in Erest.
  apply bind_ret_inv in Erest. destruct Erest as (x3 & s3 & _ & Erest).
  apply bind_ret_inv in Erest. destruct Erest as (m4 & s4 & _ & Erest).
  apply bind_ret_inv in Erest. destruct Erest as (x5 & s5 & _ & Erest).
  exists s5. exact Erest.
Qed.

(** The calls of [signPlcOperation] on an instance that holds two
    clients. *)
Lemma signPlcOperation_targets env m oldA newA token :
  oldAgent m = Some oldA -> newAgent m = Some newA ->
  let q := signPlcOperation token env (start m) in
  (exists answer rest, calls (snd q) = Ev (GetRecommendedDidCredentials newA) answer :: rest) /\
  forallb (handover_call oldA newA) (calls_of (snd q)) = true.
Proof.
  destruct m as [oa na mb f1 f2 f3 f4 f5 f6]. cbn [oldAgent newAgent].
  intros -> ->. cbv zeta. unfold signPlcOperation, start, calls_of.
  exec env;
    (split;
     [ do 2 eexists; reflexivity
     | cbn [map app forallb handover_call ev_call];
       rewrite ?agent_eqb_refl; reflexivity ]).
Qed.

(** X16: what a run of [migrate] that returns leaves on the instance.
    The two stored clients are the clients of the run: [this.newAgent] is
    the client of [newPdsUrl], [this.oldAgent] the client of the entryway
    (for a handle ending in [.bsky.social]) or of the PDS the DID document
    named.  When [migratePlcRecord] is set the last call of the run is the
    request for the PLC token, on the source, and it resolved; with a
    status handler the last status line is the prompt to check the
    e-mail. *)
Theorem migrate_stores_its_clients :
  forall fuel oldHandle password newPdsUrl newEmail newHandle inviteCode
         statusUpdateHandler twoFactorCode env m,
    let r := migrate fuel oldHandle password newPdsUrl newEmail newHandle inviteCode
               statusUpdateHandler twoFactorCode env (start m) in
    let oldA := source_of (normalizeHandle oldHandle) (calls (snd r)) in
    let newA := mkAgent NewAgent newPdsUrl in
    fst r = Ret tt ->
    oldAgent (this (snd r)) = Some oldA /\ newAgent (this (snd r)) = Some newA /\
    (migratePlcRecord m = true ->
     (exists pre, calls (snd r) = pre ++ [Ev (RequestPlcOperationSignature oldA) RVoid]) /\
     (statusUpdateHandler = true -> exists sd, said (snd r) = sd ++ [SCheckEmail])).
Proof.
  intros fuel oldHandle pw url email handle invite h tfc env m r oldA newA Hret.
  destruct (@migrate_returned fuel oldHandle pw url email handle invite h tfc env m Hret)
    as [s Hfinish].
  destruct (finish_returns _ _ _ _ _ Hfinish) as (Ho & Hn & Hplc).
  split; [exact Ho|]. split; [exact Hn|].
  intros Hf. apply Hplc.
  destruct (@gated_migrate m fuel oldHandle pw url email handle invite h tfc env
              (start m) eq_refl) as [Hflags _].
  unfold flags_of in Hflags. injection Hflags as _ _ _ _ _ ->. exact Hf.
Qed.

(** The migration of the examples, in a world in which every call
    succeeds. *)
Lemma migrate_stores_its_clients_witness :
  oldAgent (this (snd (migrateAlice 1 happy (start newMigrator)))) = Some bsky /\
  newAgent (this (snd (migrateAlice 1 happy (start newMigrator)))) = Some newPds /\
  (migratePlcRecord newMigrator = true ->
   (exists pre,
       calls (snd (migrateAlice 1 happy (start newMigrator)))
       = pre ++ [Ev (RequestPlcOperationSignature bsky) RVoid]) /\
   (true = true ->
    exists sd, said (snd (migrateAlice 1 happy (start newMigrator))) = sd ++ [SCheckEmail])).
Proof.
  apply (@migrate_stores_its_clients 1 (u "alice.bsky.social") (u "pw")
           (u "https://new.example") (u "a@b.c") (u "alice.new.example") None true None
           happy newMigrator).
  reflexivity.
Defined.

(** X17: [migrate], then [signPlcOperation].  On the instance a run of
    [migrate] that returned leaves, [signPlcOperation] does not fail for
    want of a client: its first call asks the destination at [newPdsUrl]
    for the recommended credentials, and every call it makes goes to one of
    the two clients of that run: the signature and the deactivation to the
    source, the submission and the activation to the destination. *)
Theorem handover_after_migrate :
  forall fuel oldHandle password newPdsUrl newEmail newHandle inviteCode
         statusUpdateHandler twoFactorCode env m,
    let r := migrate fuel oldHandle password newPdsUrl newEmail newHandle inviteCode
               statusUpdateHandler twoFactorCode env (start m) in
    let oldA := source_of (normalizeHandle oldHandle) (calls (snd r)) in
    let newA := mkAgent NewAgent newPdsUrl in
    fst r = Ret tt ->
    forall token env',
      let q := signPlcOperation token env' (start (this (snd r))) in
      (exists answer rest,
          calls (snd q) = Ev (GetRecommendedDidCredentials newA) answer :: rest) /\
      forallb (handover_call oldA newA) (calls_of (snd q)) = true.
Proof.
  intros fuel oldHandle pw url email handle invite h tfc env m r oldA newA Hret token env'.
  destruct (@migrate_returned fuel oldHandle pw url email handle invite h tfc env m Hret)
    as [s Hfinish].
  destruct (finish_returns _ _ _ _ _ Hfinish) as (Ho & Hn & _).
  apply signPlcOperation_targets; assumption.
Qed.

(** The migration of the examples followed by the handover, both in a
    world in which every call succeeds. *)
Lemma handover_after_migrate_witness :
  (exists answer rest,
      calls (snd (signPlcOperation (u "token") happy
                    (start (this (snd (migrateAlice 1 happy (start newMigrator)))))))
      = Ev (GetRecommendedDidCredentials newPds) answer :: rest) /\
  forallb (handover_call bsky newPds)
    (calls_of (snd (signPlcOperation (u "token") happy
                      (start (this (snd (migrateAlice 1 happy (start newMigrator))))))))
  = true.
Proof.
  apply (@handover_after_migrate 1 (u "alice.bsky.social") (u "pw")
           (u "https://new.example") (u "a@b.c") (u "alice.new.example") None true None
           happy newMigrator).
  reflexivity.
Defined.

(** ** The request for the new account *)


(** The probe of the destination is the last call before the phases that
    use its answer. *)
Lemma beforeCreate_probe h oldHandle pw url tfc env s oldA newA did webDid s1 :
  beforeCreate h oldHandle pw url tfc env s = (Ret (oldA, newA, did, webDid), s1) ->
  exists pre, calls s1 = pre ++ [Ev (DescribeServer newA) (RDescribe webDid)].
Proof.
  unfold beforeCreate. intros H.
  apply bind_ret_inv in H. destruct H as ([oa usersDid] & s2 & _ & H).
  apply bind_ret_inv in H. destruct H as (x3 & s3 & _ & H).
  apply bind_ret_inv in H. destruct H as (x4 & s4 & _ & H).
  apply bind_ret_inv in H. destruct H as (x5 & s5 & _ & H).
  revert H. destruct s5 as [m cs sd]. exec env; intros H; try discriminate H.
  injection H as <- <- <- <- <-. eexists. reflexivity.
Qed.

Lemma emits_none Q s s' e :
  emits Q s s' -> In e (calls s') -> Q (ev_op e) = false -> In e (calls s).
Proof.
  intros Hem Hin Hq. destruct (@emits_in _ _ _ _ Hem Hin) as [H | H]; [exact H|].
  rewrite H in Hq. discriminate Hq.
Qed.






(** ** Runs that go through *)

Section GoesThrough.

Variable env : Env.
Hypothesis env_resolves : resolves env.

Lemma returns_ret {A} (Q : A -> Prop) a : Q a -> returns env Q (ret a).
Proof. intros H s. exists a, s. split; [reflexivity | exact H]. Qed.

Lemma returns_bind {A B} (Q : A -> Prop) (Q' : B -> Prop) (m : M A) (k : A -> M B) :
  returns env Q m -> (forall a, Q a -> returns env Q' (k a)) ->
  returns env Q' (bind m k).
Proof.
  intros Hm Hk s. destruct (Hm s) as (a & s1 & E & Ha).
  rewrite (@bind_ret_run _ _ _ _ _ _ _ _ E). exact (Hk a Ha s1).
Qed.

Lemma returns_say h status : returns env (@anything unit) (safeStatusUpdate h status).
Proof.
  intros s. unfold safeStatusUpdate. destruct h; do 2 eexists; split; reflexivity || exact I.
Qed.

Lemma returns_get_this : returns env (@anything Migrator) get_this.
Proof. intros s. do 2 eexists. split; [reflexivity | exact I]. Qed.

Lemma returns_set_this f : returns env (@anything unit) (set_this f).
Proof. intros s. do 2 eexists. split; [reflexivity | exact I]. Qed.

Lemma returns_when flag body :
  returns env (@anything unit) body -> returns env (@anything unit) (when flag body).
Proof. intros H. destruct flag; [exact H | apply returns_ret; exact I]. Qed.

Lemma returns_call c : returns env (answer_of env c) (call c).
Proof.
  intros s. unfold call. cbv zeta.
  pose proof (env_resolves (calls s) c) as Hs.
  assert (Hc : coerce c (env (calls s) c) = env (calls s) c).
  { unfold coerce. rewrite Hs. destruct (env (calls s) c); reflexivity. }
  rewrite Hc. exists (env (calls s) c), (logged s c (env (calls s) c)). split.
  - destruct (env (calls s) c) eqn:E; try reflexivity.
    destruct c; discriminate Hs.
  - split; [exact Hs | exists (calls s); reflexivity].
Qed.

Lemma returns_ret_bind {A B} (Q : B -> Prop) (a : A) (k : A -> M B) :
  returns env Q (k a) -> returns env Q (bind (ret a) k).
Proof. intros H s. exact (H s). Qed.

(** After a call that resolved, its answer is read. *)
Ltac after_call :=
  eapply returns_bind;
  [ apply returns_call
  | let r := fresh "r" in
    let Hshape := fresh "Hshape" in
    let history := fresh "history" in
    let Hr := fresh "Hr" in
    intros r [Hshape [history Hr]]; destruct r; try discriminate Hshape;
    cbv [as_void as_did as_doc as_describe as_token as_created as_repo as_status
         as_cids as_blob as_missing as_prefs as_creds as_signed as_log expect];
    cbv beta iota; try apply returns_ret_bind ].

Ltac after_say := eapply returns_bind; [apply returns_say | intros _ _].

Ltac done := apply returns_ret; exact I.

Lemma returns_login a identifier password twoFactorCode :
  returns env (@anything unit) (login a identifier password twoFactorCode).
Proof. unfold login. after_call. done. Qed.

Lemma returns_checkAccountStatus a :
  returns env (@anything (bool * Z * Z)) (checkAccountStatus a).
Proof. unfold checkAccountStatus. after_call. done. Qed.

Lemma returns_repoPhase h oldA newA did :
  returns env (@anything unit) (repoPhase h oldA newA did).
Proof. unfold repoPhase. after_say. after_call. after_call. done. Qed.

Lemma returns_prefsPhase oldA newA : returns env (@anything unit) (prefsPhase oldA newA).
Proof. unfold prefsPhase. after_call. after_call. done. Qed.

Lemma returns_plcPhase h oldA : returns env (@anything unit) (plcPhase h oldA).
Proof. unfold plcPhase. after_call. apply returns_say. Qed.

Lemma returns_finish h oldA newA : returns env (@anything unit) (finish h oldA newA).
Proof.
  unfold finish.
  eapply returns_bind; [apply returns_get_this | intros m _].
  eapply returns_bind; [apply returns_when; apply returns_prefsPhase | intros _ _].
  eapply returns_bind; [apply returns_set_this | intros _ _].
  eapply returns_bind; [apply returns_get_this | intros m' _].
  apply returns_when. apply returns_plcPhase.
Qed.

Hypothesis env_creates : creates_as_asked env.

Lemma returns_createAccountPhase h oldA newA did webDid pw email handle invite :
  returns env (@anything unit)
    (createAccountPhase h oldA newA did webDid pw email handle invite).
Proof.
  unfold createAccountPhase. after_say. after_call. after_call.
  rewrite env_creates in Hr0. injection Hr0 as ->. cbn [car_did].
  rewrite str_eqb_refl. done.
Qed.

Hypothesis env_names : names_a_pds env.

Lemma returns_resolveSource h oldHandle :
  returns env (@anything (Agent * jsstring)) (resolveSource h oldHandle).
Proof.
  unfold resolveSource. destruct (endsWith oldHandle (u ".bsky.social")).
  - after_call. done.
  - after_say. after_call. after_call. after_say.
    rewrite findPds_firstPds. symmetry in Hr0. apply env_names in Hr0.
    destruct (firstPds doc); [|contradiction]. apply returns_ret_bind. done.
Qed.

Lemma returns_beforeCreate h oldHandle pw url tfc :
  returns env (@anything (Agent * Agent * jsstring * jsstring))
    (beforeCreate h oldHandle pw url tfc).
Proof.
  unfold beforeCreate.
  eapply returns_bind; [apply returns_resolveSource | intros [oldA did] _].
  after_say. eapply returns_bind; [apply returns_login | intros _ _].
  after_say. after_call. done.
Qed.

Variable fuel : nat.
Hypothesis env_lists : lists_within fuel env.
Hypothesis env_missing : missing_on_one_page env.

Lemma fuel_for_a_page : exists fuel', fuel = S fuel'.
Proof.
  destruct (env_lists (mkAgent OldAgent []) []) as ([|page pages] & Hp & Hf).
  - destruct Hp.
  - destruct fuel as [|fuel']; [cbn in Hf; lia | exists fuel'; reflexivity].
Qed.

Lemma returns_loginAndSync h oldA newA did pw :
  returns env (@anything unit) (loginAndSync fuel h oldA newA did pw).
Proof.
  unfold loginAndSync. after_say.
  eapply returns_bind; [apply returns_login | intros _ _].
  eapply returns_bind; [apply returns_get_this | intros m _].
  eapply returns_bind; [apply returns_when; apply returns_repoPhase | intros _ _].
  eapply returns_bind; [apply returns_checkAccountStatus | intros status _].
  eapply returns_bind; [apply returns_get_this | intros m' _].
  apply returns_when. unfold blobPhase. after_say.
  intros s. destruct (env_lists oldA did) as (pages & Hp & Hf).
  destruct (@blobLoop_paged env h oldA newA did (snd (fst status)) pages None 0%Z fuel
              s Hp Hf) as (s' & new & E & _).
  exists tt, s'. split; [exact E | exact I].
Qed.

Lemma returns_reconcilePhase h oldA newA did :
  returns env (@anything unit) (reconcilePhase fuel h oldA newA did).
Proof.
  unfold reconcilePhase.
  eapply returns_bind; [apply returns_checkAccountStatus | intros [[a e] i] _].
  destruct (negb (e =? i)%Z); [|done].
  after_say. intros s. destruct fuel_for_a_page as [fuel' ->].
  pose proof (env_resolves (calls s) (ListMissingBlobs newA None 100)) as Hs.
  destruct (env (calls s) (ListMissingBlobs newA None 100)) eqn:E;
    try discriminate Hs.
  destruct (retryLoop_step fuel' h oldA newA did (e - i)%Z None 0%Z env s E)
    as (n1 & s2 & ->).
  rewrite (env_missing E). exists tt, s2. split; [reflexivity | exact I].
Qed.

Lemma returns_migrate oldHandle pw url email handle invite h tfc :
  returns env (@anything unit) (migrate fuel oldHandle pw url email handle invite h tfc).
Proof.
  unfold migrate.
  eapply returns_bind;
    [apply returns_beforeCreate | intros [[[oldA newA] did] webDid] _].
  eapply returns_bind; [apply returns_get_this | intros m _].
  eapply returns_bind;
    [apply returns_when; apply returns_createAccountPhase | intros _ _].
  unfold afterCreate.
  eapply returns_bind; [apply returns_loginAndSync | intros _ _].
  eapply returns_bind; [apply returns_get_this | intros m' _].
  eapply returns_bind;
    [apply returns_when; apply returns_reconcilePhase | intros _ _].
  apply returns_finish.
Qed.

End GoesThrough.

(** X21: when every service plays its part, [migrate] returns.  In a
    world in which every call resolves with an answer of its shape, the
    destination creates the account under the DID it is asked for, the DID
    documents name a PDS, the source serves its listing of blobs in at most
    as many pages as the bound allows, and the destination lists the
    missing blobs on one page, a run of [migrate] returns, when the
    destination and the PDS the documents name are at plain addresses,
    whatever the other arguments, the flags and the history of the
    instance.  The model makes a client of any address; the source throws
    on one that does not parse as a URL, and the theorem is stated for the
    addresses on which it does not. *)
Theorem migrate_goes_through :
  forall fuel env,
    resolves env -> creates_as_asked env -> names_a_pds env ->
    lists_within fuel env -> missing_on_one_page env ->
    forall oldHandle password newPdsUrl newEmail newHandle inviteCode
           statusUpdateHandler twoFactorCode m,
      plain_addresses env newPdsUrl ->
      fst (migrate fuel oldHandle password newPdsUrl newEmail newHandle inviteCode
             statusUpdateHandler twoFactorCode env (start m)) = Ret tt.
Proof.
  intros fuel env H1 H2 H3 H4 H5 oldHandle pw url email handle invite h tfc m _.
  destruct (@returns_migrate env H1 H2 H3 fuel H4 H5 oldHandle pw url email handle invite
              h tfc (start m)) as ([] & s' & E & _).
  rewrite E. reflexivity.
Qed.

Lemma happy_resolves : resolves happy.
Proof. intros history c. destruct c; reflexivity. Qed.

Lemma happy_names_a_pds : names_a_pds happy.
Proof. intros history did didDoc H. cbn in H. injection H as <-. discriminate. Qed.

Lemma happy_plain_addresses : plain_addresses happy (u "https://new.example").
Proof.
  split; [reflexivity|].
  intros history did didDoc pds H Hpds. cbn in H. injection H as <-.
  cbn in Hpds. injection Hpds as <-. reflexivity.
Qed.

(** The migration of the examples, in the world in which every call
    succeeds. *)
Lemma migrate_goes_through_witness :
  fst (migrateAlice 1 happy (start newMigrator)) = Ret tt.
Proof.
  apply (@migrate_goes_through 1 happy).
  - exact happy_resolves.
  - intros history a req bearer. reflexivity.
  - exact happy_names_a_pds.
  - intros a did. exists [([], None)]. split; [split; reflexivity | simpl; lia].
  - intros history a cursor blobs next H. cbn in H. injection H as _ <-. reflexivity.
  - exact happy_plain_addresses.
Defined.

Lemma str_eqb_nil x : x <> [] -> str_eqb x [] = false.
Proof. destruct x; [contradiction | reflexivity]. Qed.

(** The next call of a run in a world in which every call resolves. *)
Ltac resolve_next env env_resolves :=
  run_monad;
  match goal with
  | |- context [coerce ?c (env ?h ?c)] =>
      let E := fresh "E" in
      let Hs := fresh "Hs" in
      pose proof (env_resolves h c) as Hs;
      destruct (env h c) eqn:E; try discriminate Hs; clear Hs
  end.

Lemma signPlcOperation_goes_through env m oldA newA token :
  resolves env -> recommends_keys env ->
  oldAgent m = Some oldA -> newAgent m = Some newA ->
  fst (signPlcOperation token env (start m)) = Ret tt.
Proof.
  intros H1 H2 Ho Hn. destruct m as [oa na mb f1 f2 f3 f4 f5 f6].
  cbn [oldAgent newAgent] in Ho, Hn. subst oa na.
  unfold signPlcOperation, start.
  resolve_next env H1; run_monad.
  - rewrite (H2 _ _ data None E). cbn [negb].
    do 4 resolve_next env H1. run_monad. reflexivity.
  - rewrite (H2 _ _ data (Some token0) E). cbn [negb].
    do 4 resolve_next env H1. run_monad. reflexivity.
Qed.

Lemma deactivateOldAccount_goes_through toLowerCase env oldHandle pw h tfc m :
  resolves env -> names_a_pds env -> logs_a_prior_pds toLowerCase env ->
  fst (deactivateOldAccount toLowerCase oldHandle pw h tfc env (start m)) = Ret tt.
Proof.
  intros H1 H2 H3.
  unfold deactivateOldAccount, resolveDid, scanAndDeactivate, deactivatePrior.
  destruct (endsWith (normalizeHandle oldHandle) (u ".bsky.social")); destruct h.
  all: resolve_next env H1; resolve_next env H1; run_monad;
    rewrite findPds_firstPds;
    match goal with
    | E : _ = RDidDoc ?doc |- _ =>
        pose proof (H2 _ _ _ E) as Hpds; destruct (firstPds doc) as [cur|] eqn:Epds;
        [clear Hpds | contradiction]
    end;
    resolve_next env H1; run_monad;
    match goal with
    | Ed : _ = RDidDoc _, El : _ = RLog ?log |- _ =>
        pose proof (H3 _ _ _ _ _ _ _ Ed Epds El) as Hprior;
        rewrite (str_eqb_nil Hprior);
        destruct (scanLog_never_current toLowerCase cur log (prior := []))
          as [H0 | H0]; [left; reflexivity | contradiction |]
    end;
    resolve_next env H1; run_monad; rewrite H0;
    resolve_next env H1; run_monad;
    match goal with
    | |- context [if negb ?b then _ else _] => destruct b
    end;
    cbn [negb]; resolve_next env H1; run_monad; reflexivity.
Qed.

(** X22: when every service plays its part, the handover and the
    deactivation return.  In a world in which every call resolves with an
    answer of its shape: [signPlcOperation] returns on an instance that
    holds its two clients, when the rotation keys recommended are an array,
    truthy, or absent; [deactivateOldAccount] returns when the DID
    documents name a PDS and the PLC logs hold a readable endpoint before
    it, the endpoints of the logs being plain addresses.  The test on line
    329 never stands in the way: what the scan computed is not the current
    PDS.  The model makes a client of any endpoint; the source throws on
    one that does not parse as a URL, and the second part is stated for
    logs in which there is none such. *)
Theorem handover_goes_through :
  forall env,
    resolves env ->
    (recommends_keys env ->
     forall m oldA newA token,
       oldAgent m = Some oldA -> newAgent m = Some newA ->
       fst (signPlcOperation token env (start m)) = Ret tt) /\
    (forall toLowerCase,
        names_a_pds env -> logs_a_prior_pds toLowerCase env -> plain_logs env ->
        forall oldHandle oldPassword statusUpdateHandler twoFactorCode m,
          fst (deactivateOldAccount toLowerCase oldHandle oldPassword statusUpdateHandler
                 twoFactorCode env (start m)) = Ret tt).
Proof.
  intros env H1. split.
  - intros H2 m oldA newA token Ho Hn.
    apply signPlcOperation_goes_through with (oldA := oldA) (newA := newA); assumption.
  - intros lower H2 H3 _ oldHandle pw h tfc m.
    apply deactivateOldAccount_goes_through; assumption.
Qed.

Lemma happy_recommends_keys : recommends_keys happy.
Proof.
  intros history a data [t|] H; cbn in H; [discriminate H|].
  injection H as <-. reflexivity.
Qed.

Lemma happy_plain_logs : plain_logs happy.
Proof.
  intros history url plcLog pds H Hin. cbn in H. injection H as <-.
  cbn [In] in Hin.
  destruct Hin as [Hin | [Hin | [Hin | []]]]; injection Hin as <-; reflexivity.
Qed.

Lemma happy_logs_a_prior_pds : logs_a_prior_pds ascii_toLowerCase happy.
Proof.
  intros history history' did url didDoc currentPds plcLog H1 H2 H3.
  cbn in H1. injection H1 as <-. cbn in H2. injection H2 as <-.
  cbn in H3. injection H3 as <-. vm_compute. discriminate.
Qed.

(** The handover and the deactivation of the examples, in the world in
    which every call succeeds. *)
Lemma handover_goes_through_witness :
  fst (signPlcOperation (u "token") happy (start migrated)) = Ret tt /\
  fst (deactivateOldAccount ascii_toLowerCase (u "alice.example.com") (u "pw") true None
         happy (start newMigrator)) = Ret tt.
Proof.
  destruct (@handover_goes_through happy happy_resolves) as [Hs Hd].
  split.
  - apply (Hs happy_recommends_keys migrated bsky newPds (u "token")); reflexivity.
  - apply (Hd ascii_toLowerCase happy_names_a_pds happy_logs_a_prior_pds
             happy_plain_logs).
Defined.

(** ** The source login comes first *)

(** The calls up to the probe hold no call to the destination but the
    probe, which comes right after the source login went through. *)
Lemma beforeCreate_login h oldHandle pw url tfc env m :
  let evs := calls (snd (beforeCreate h oldHandle pw url tfc env (start m))) in
  forallb (fun e => negb (to_destination e)) evs = true \/
  exists pre answer,
    evs = pre ++ [ Ev (Login (source_of oldHandle evs) oldHandle pw tfc) RVoid;
                   Ev (DescribeServer (mkAgent NewAgent url)) answer ] /\
    forallb (fun e => negb (to_destination e)) pre = true.
Proof.
  cbv zeta. unfold beforeCreate, resolveSource, source_of.
  destruct (endsWith oldHandle (u ".bsky.social")) eqn:Ee; destruct h;
    exec env;
    try (rewrite findPds_firstPds; destruct (firstPds _) eqn:Epds; exec env);
    cbn [app]; try rewrite Epds;
    first [ left; reflexivity
          | right; eexists [_], _; split; reflexivity
          | right; eexists [_; _], _; split; reflexivity ].
Qed.

Lemma prefix_kept {A} (P : A -> bool) clean x rest pre e post :
  forallb (fun a => negb (P a)) clean = true ->
  clean ++ x :: rest = pre ++ e :: post ->
  P e = true ->
  exists mid, pre = clean ++ mid.
Proof.
  revert pre. induction clean as [|a clean IH]; intros pre Hc E He.
  - exists pre. reflexivity.
  - cbn [forallb] in Hc. apply andb_true_iff in Hc. destruct Hc as [Ha Hc].
    destruct pre as [|b pre]; cbn [app] in E; injection E as Eh Et.
    + subst a. rewrite He in Ha. discriminate Ha.
    + subst b. destruct (IH pre Hc Et He) as [mid ->]. exists mid. reflexivity.
Qed.

Lemma destination_after_login evs front login probe tail pre e post :
  evs = front ++ [login; probe] ->
  forallb (fun a => negb (to_destination a)) front = true ->
  to_destination login = false ->
  evs ++ tail = pre ++ e :: post ->
  to_destination e = true ->
  In login pre.
Proof.
  intros -> Hfront Hlogin Hsplit He.
  assert (Hmid : exists mid, pre = (front ++ [login]) ++ mid).
  { eapply prefix_kept with (P := to_destination) (x := probe) (rest := tail);
      [| | exact He].
    - rewrite forallb_app, Hfront. cbn [forallb]. rewrite Hlogin. reflexivity.
    - rewrite <- Hsplit, <- !app_assoc. reflexivity. }
  destruct Hmid as [mid ->].
  apply in_or_app. left. apply in_or_app. right. left. reflexivity.
Qed.

Lemma no_destination evs pre e post :
  forallb (fun a => negb (to_destination a)) evs = true ->
  evs = pre ++ e :: post -> to_destination e = true -> False.
Proof.
  intros Hnone -> He. rewrite forallb_app in Hnone. cbn [forallb] in Hnone.
  rewrite He in Hnone. cbn [negb andb] in Hnone. rewrite andb_false_r in Hnone.
  discriminate Hnone.
Qed.

Lemma source_login_not_destination oldHandle evs identifier pw tfc answer :
  to_destination (Ev (Login (source_of oldHandle evs) identifier pw tfc) answer) = false.
Proof.
  unfold to_destination, source_of. cbn [ev_call agent_of].
  destruct (endsWith oldHandle (u ".bsky.social")); [reflexivity|].
  destruct evs as [|e1 [|[[] []] evs]]; try reflexivity.
  destruct (firstPds doc); reflexivity.
Qed.

(** X23: nothing is asked of the destination before the source let the
    user in.  In every run of [migrate], whatever the services answer, a
    call through the client of the destination (the probe
    [describeServer] is the first) comes after the source login with the
    normalised handle, the password and the second factor of the caller,
    and that login resolved. *)
Theorem source_login_first :
  forall fuel oldHandle password newPdsUrl newEmail newHandle inviteCode
         statusUpdateHandler twoFactorCode env m pre e post,
    let r := migrate fuel oldHandle password newPdsUrl newEmail newHandle inviteCode
               statusUpdateHandler twoFactorCode env (start m) in
    calls (snd r) = pre ++ e :: post ->
    to_destination e = true ->
    In (Ev (Login (source_of (normalizeHandle oldHandle) (calls (snd r)))
              (normalizeHandle oldHandle) password twoFactorCode) RVoid) pre.
Proof.
  intros fuel oldHandle pw url email handle invite h tfc env m pre e post r.
  subst r. unfold migrate.
  destruct (beforeCreate_run h (normalizeHandle oldHandle) pw url tfc env m)
    as [_ Hctx]. cbv zeta in Hctx.
  pose proof (beforeCreate_login h (normalizeHandle oldHandle) pw url tfc env m) as Hlogin.
  cbv zeta in Hlogin.
  run_phase (beforeCreate h (normalizeHandle oldHandle) pw url tfc) env (start m)
    ctx s1 E1; cbn [fst snd] in Hctx, Hlogin |- *.
  - destruct (Hctx ctx eq_refl) as [[webDid ->] Htail].
    destruct (@routed_fromCreate fuel h (source_of (normalizeHandle oldHandle) (calls s1))
                (mkAgent NewAgent url) (resolved_did (calls s1)) webDid pw email handle
                invite env s1) as [new [E _]].
    rewrite E. destruct (Htail new) as [-> _]. intros Hsplit He.
    destruct Hlogin as [Hnone | (front & answer & Hevs & Hfront)].
    + exfalso. destruct (beforeCreate_probe _ _ _ _ _ _ _ E1) as [front Hprobe].
      rewrite Hprobe, forallb_app in Hnone. cbn in Hnone.
      rewrite andb_false_r in Hnone. discriminate Hnone.
    + eapply destination_after_login;
        [exact Hevs | exact Hfront | apply source_login_not_destination | exact Hsplit
        | exact He].
  - intros Hsplit He.
    destruct Hlogin as [Hnone | (front & answer & Hevs & Hfront)].
    + exfalso. eapply no_destination; [exact Hnone | exact Hsplit | exact He].
    + rewrite <- (app_nil_r (calls s1)) in Hsplit.
      eapply destination_after_login;
        [exact Hevs | exact Hfront | apply source_login_not_destination | exact Hsplit
        | exact He].
  - intros Hsplit He.
    destruct Hlogin as [Hnone | (front & answer & Hevs & Hfront)].
    + exfalso. eapply no_destination; [exact Hnone | exact Hsplit | exact He].
    + rewrite <- (app_nil_r (calls s1)) in Hsplit.
      eapply destination_after_login;
        [exact Hevs | exact Hfront | apply source_login_not_destination | exact Hsplit
        | exact He].
Qed.

(** The migration of the examples: the probe is the third call, after the
    resolution and the login at the entryway. *)
Lemma source_login_first_witness :
  In (Ev (Login bsky (u "alice.bsky.social") (u "pw") None) RVoid)
     (firstn 2 (calls (snd (migrateAlice 1 happy (start newMigrator))))).
Proof.
  apply (@source_login_first 1 (u "alice.bsky.social") (u "pw") (u "https://new.example")
           (u "a@b.c") (u "alice.new.example") None true None happy newMigrator
           (firstn 2 (calls (snd (migrateAlice 1 happy (start newMigrator)))))
           (Ev (DescribeServer newPds) (RDescribe (u "did:web:new.example")))
           (skipn 3 (calls (snd (migrateAlice 1 happy (start newMigrator)))))).
  - vm_compute. reflexivity.
  - reflexivity.
Defined.

(** ** Two instances with the same flags *)

Section Twins.

Variables m0 m0' : Migrator.

Lemma twins_ret {A} (a : A) : twins m0 m0' (ret a) (ret a).
Proof. intros env s s' H. split; [reflexivity | exact H]. Qed.

Lemma twins_throw {A} (e : Exn) : twins m0 m0' (@throw A e) (throw e).
Proof. intros env s s' H. split; [reflexivity | exact H]. Qed.

Lemma twins_diverge {A} : twins m0 m0' (@diverge A) diverge.
Proof. intros env s s' H. split; [reflexivity | exact H]. Qed.

Lemma twins_bind {A B} (m m' : M A) (k k' : A -> M B) :
  twins m0 m0' m m' -> (forall a, twins m0 m0' (k a) (k' a)) ->
  twins m0 m0' (bind m k) (bind m' k').
Proof.
  intros Hm Hk env s s' H. unfold bind. destruct (Hm env s s' H) as [Ho Ht].
  destruct (m env s) as [[a| e |] s1], (m' env s') as [[a'| e' |] s1'];
    cbn [fst snd] in *; try discriminate Ho.
  - injection Ho as <-. apply Hk. exact Ht.
  - injection Ho as <-. split; [reflexivity | exact Ht].
  - split; [reflexivity | exact Ht].
Qed.

Lemma twins_try {A} (m m' : M A) (k k' : Exn -> M A) :
  twins m0 m0' m m' -> (forall e, twins m0 m0' (k e) (k' e)) ->
  twins m0 m0' (try_catch m k) (try_catch m' k').
Proof.
  intros Hm Hk env s s' H. unfold try_catch. destruct (Hm env s s' H) as [Ho Ht].
  destruct (m env s) as [[a| e |] s1], (m' env s') as [[a'| e' |] s1'];
    cbn [fst snd] in *; try discriminate Ho.
  - split; assumption.
  - injection Ho as <-. apply Hk. exact Ht.
  - split; assumption.
Qed.

Lemma twins_call c : twins m0 m0' (call c) (call c).
Proof.
  intros env s s' (Hf & Hc & Hs & extra & He & He'). unfold call. cbn [fst snd].
  rewrite Hc. split; [reflexivity|].
  split; [exact Hf|]. split; [reflexivity|].
  split; [exact Hs|]. exists extra. split; assumption.
Qed.

Lemma twins_say h status :
  twins m0 m0' (safeStatusUpdate h status) (safeStatusUpdate h status).
Proof.
  intros env s s' (Hf & Hc & Hs & extra & He & He'). unfold safeStatusUpdate.
  destruct h; cbn [fst snd]; (split; [reflexivity|]).
  - split; [exact Hf|]. split; [exact Hc|]. split; [cbn [said]; rewrite Hs; reflexivity|].
    exists extra. split; assumption.
  - split; [exact Hf|]. split; [exact Hc|]. split; [exact Hs|].
    exists extra. split; assumption.
Qed.

Lemma twins_expect {A} (pick : Resp -> option A) r :
  twins m0 m0' (expect pick r) (expect pick r).
Proof. unfold expect. destruct (pick r); [apply twins_ret | apply twins_throw]. Qed.

Lemma twins_when flag body body' :
  twins m0 m0' body body' -> twins m0 m0' (when flag body) (when flag body').
Proof. intros H. destruct flag; [exact H | apply twins_ret]. Qed.

Lemma twins_findPds didDoc : twins m0 m0' (findPds didDoc) (findPds didDoc).
Proof.
  rewrite findPds_firstPds.
  destruct (firstPds didDoc); [apply twins_ret | apply twins_throw].
Qed.

(** A read of [this] gives the two runs instances with the same flags. *)
Lemma twins_get {B} (k k' : Migrator -> M B) :
  (forall m m', flags_of m = flags_of m' -> twins m0 m0' (k m) (k' m')) ->
  twins m0 m0' (bind get_this k) (bind get_this k').
Proof.
  intros Hk env s s' H. unfold bind, get_this. apply Hk; [|exact H].
  destruct H as [Hf _]. exact Hf.
Qed.

Lemma twins_push cid : twins m0 m0' (push_missing cid) (push_missing cid).
Proof.
  intros env s s' (Hf & Hc & Hs & extra & He & He'). split; [reflexivity|].
  unfold push_missing, set_this. cbn [snd this calls said].
  split; [exact Hf|]. split; [exact Hc|]. split; [exact Hs|].
  exists (extra ++ [cid]). cbn [missingBlobs]. rewrite He, He', <- !app_assoc.
  split; reflexivity.
Qed.

Lemma twins_store a b : twins m0 m0' (storeAgents a b) (storeAgents a b).
Proof.
  intros env s s' (Hf & Hc & Hs & extra & He & He'). split; [reflexivity|].
  unfold storeAgents, set_this. cbn [snd this calls said].
  split; [exact Hf|]. split; [exact Hc|]. split; [exact Hs|].
  exists extra. cbn [missingBlobs]. split; assumption.
Qed.

Ltac twins_go :=
  repeat first
    [ apply twins_ret | apply twins_throw | apply twins_diverge
    | apply twins_say | apply twins_call | apply twins_expect
    | apply twins_findPds | apply twins_push | apply twins_store
    | apply twins_bind | apply twins_try | apply twins_when
    | match goal with
      | |- forall _, twins _ _ _ _ => intro
      | |- twins _ _ (if ?b then _ else _) _ => destruct b
      | |- twins _ _ (let (_, _) := ?x in _) _ => destruct x
      end ].

Lemma twins_uploadPage h oldA newA did expected cids n :
  twins m0 m0' (uploadPage h oldA newA did expected cids n)
               (uploadPage h oldA newA did expected cids n).
Proof.
  revert n. induction cids as [|cid rest IH]; intros n; cbn [uploadPage].
  - apply twins_ret.
  - apply twins_bind; [|intros; apply IH].
    unfold uploadOne, getBlob, uploadBlob. twins_go.
Qed.

Lemma twins_blobLoop fuel h oldA newA did expected cursor n :
  twins m0 m0' (blobLoop fuel h oldA newA did expected cursor n)
               (blobLoop fuel h oldA newA did expected cursor n).
Proof.
  revert cursor n. induction fuel as [|fuel IH]; intros cursor n; cbn [blobLoop].
  - apply twins_diverge.
  - apply twins_bind; [apply twins_say | intros _].
    apply twins_bind; [apply twins_call | intros r].
    apply twins_bind; [apply twins_expect | intros listed].
    apply twins_bind; [apply twins_uploadPage | intros n'].
    destruct (cursor_truthy (snd listed)); [apply IH | apply twins_ret].
Qed.

Lemma twins_retryPage h oldA newA did total blobs n :
  twins m0 m0' (retryPage h oldA newA did total blobs n)
               (retryPage h oldA newA did total blobs n).
Proof.
  revert n. induction blobs as [|b rest IH]; intros n; cbn [retryPage].
  - apply twins_ret.
  - apply twins_bind; [|intros; apply IH].
    unfold retryOne, getBlob, uploadBlob. twins_go.
Qed.

Lemma twins_retryLoop fuel h oldA newA did total cursor n :
  twins m0 m0' (retryLoop fuel h oldA newA did total cursor n)
               (retryLoop fuel h oldA newA did total cursor n).
Proof.
  revert cursor n. induction fuel as [|fuel IH]; intros cursor n; cbn [retryLoop].
  - apply twins_diverge.
  - apply twins_bind; [apply twins_say | intros _].
    apply twins_bind; [apply twins_call | intros r].
    apply twins_bind; [apply twins_expect | intros listed].
    apply twins_bind; [apply twins_retryPage | intros n'].
    destruct (cursor_truthy (snd listed)); [apply IH | apply twins_ret].
Qed.

Lemma twins_migrate fuel oldHandle pw url email handle invite h tfc :
  twins m0 m0' (migrate fuel oldHandle pw url email handle invite h tfc)
               (migrate fuel oldHandle pw url email handle invite h tfc).
Proof.
  unfold migrate.
  apply twins_bind.
  { unfold beforeCreate, resolveSource, login. twins_go. }
  intros [[[oldA newA] did] webDid].
  apply twins_get. intros m1 m1' H1.
  replace (createNewAccount m1') with (createNewAccount m1)
    by (unfold flags_of in H1; congruence).
  apply twins_bind; [unfold createAccountPhase; twins_go | intros _].
  unfold afterCreate, loginAndSync.
  apply twins_bind.
  { apply twins_bind; [apply twins_say | intros _].
    apply twins_bind; [unfold login; twins_go | intros _].
    apply twins_get. intros m2 m2' H2.
    replace (migrateRepo m2') with (migrateRepo m2)
      by (unfold flags_of in H2; congruence).
    apply twins_bind; [unfold repoPhase; twins_go | intros _].
    apply twins_bind; [unfold checkAccountStatus; twins_go | intros status].
    apply twins_get. intros m3 m3' H3.
    replace (migrateBlobs m3') with (migrateBlobs m3)
      by (unfold flags_of in H3; congruence).
    apply twins_when. unfold blobPhase.
    apply twins_bind; [apply twins_say | intros _]. apply twins_blobLoop. }
  intros _. apply twins_get. intros m4 m4' H4.
  replace (migrateMissingBlobs m4') with (migrateMissingBlobs m4)
    by (unfold flags_of in H4; congruence).
  apply twins_bind.
  { apply twins_when. unfold reconcilePhase.
    apply twins_bind; [unfold checkAccountStatus; twins_go | intros [[a e] i]].
    destruct (negb (e =? i)%Z); [|apply twins_ret].
    apply twins_bind; [apply twins_say | intros _]. apply twins_retryLoop. }
  intros _. unfold finish.
  apply twins_get. intros m5 m5' H5.
  replace (migratePrefs m5') with (migratePrefs m5)
    by (unfold flags_of in H5; congruence).
  apply twins_bind; [unfold prefsPhase; twins_go | intros _].
  apply twins_bind; [apply twins_store | intros _].
  apply twins_get. intros m6 m6' H6.
  replace (migratePlcRecord m6') with (migratePlcRecord m6)
    by (unfold flags_of in H6; congruence).
  unfold plcPhase. twins_go.
Qed.

End Twins.

(** X24: of the instance, [migrate] reads the flags and nothing else.
    Two runs with the same arguments in the same world, on two instances
    with the same flags, end the same way after the same calls with the
    same answers and the same status lines, and add the same entries to
    their lists of missing blobs: the clients an earlier run stored and the
    blobs it recorded as missing have no part in a rerun. *)
Theorem migrate_reads_only_the_flags :
  forall fuel oldHandle password newPdsUrl newEmail newHandle inviteCode
         statusUpdateHandler twoFactorCode env m m',
    flags_of m = flags_of m' ->
    let r := migrate fuel oldHandle password newPdsUrl newEmail newHandle inviteCode
               statusUpdateHandler twoFactorCode env (start m) in
    let r' := migrate fuel oldHandle password newPdsUrl newEmail newHandle inviteCode
                statusUpdateHandler twoFactorCode env (start m') in
    fst r = fst r' /\
    calls (snd r) = calls (snd r') /\
    said (snd r) = said (snd r') /\
    exists extra,
      missingBlobs (this (snd r)) = missingBlobs m ++ extra /\
      missingBlobs (this (snd r')) = missingBlobs m' ++ extra.
Proof.
  intros fuel oldHandle pw url email handle invite h tfc env m m' Hf r r'.
  destruct (@twins_migrate m m' fuel oldHandle pw url email handle invite h tfc env
              (start m) (start m'))
    as [Ho (_ & Hc & Hs & Hm)].
  - split; [exact Hf|]. split; [reflexivity|]. split; [reflexivity|].
    exists []. cbn [start this]. rewrite !app_nil_r. split; reflexivity.
  - split; [exact Ho|]. split; [exact Hc|]. split; [exact Hs | exact Hm].
Qed.

(** A first run and a rerun on the instance a completed run left, against
    the source whose blob 37 cannot be fetched. *)
Lemma migrate_reads_only_the_flags_witness :
  fst (migrateAlice 1 flaky (start newMigrator))
  = fst (migrateAlice 1 flaky (start migrated)) /\
  calls (snd (migrateAlice 1 flaky (start newMigrator)))
  = calls (snd (migrateAlice 1 flaky (start migrated))) /\
  said (snd (migrateAlice 1 flaky (start newMigrator)))
  = said (snd (migrateAlice 1 flaky (start migrated))) /\
  exists extra,
    missingBlobs (this (snd (migrateAlice 1 flaky (start newMigrator))))
    = missingBlobs newMigrator ++ extra /\
    missingBlobs (this (snd (migrateAlice 1 flaky (start migrated))))
    = missingBlobs migrated ++ extra.
Proof.
  apply (@migrate_reads_only_the_flags 1 (u "alice.bsky.social") (u "pw")
           (u "https://new.example") (u "a@b.c") (u "alice.new.example") None true None
           flaky newMigrator migrated).
  reflexivity.
Defined.
